(** * base9 (b9): bytecode interpreter, invocation bridge and VM facade

    A shallow embedding of [b9/core.cpp] and [b9/include/b9/interpreter.hpp].
    [core.cpp] holds three successive revisions of the execution engine:

    - [Legacy]  (core.cpp 1-494):   [ExecutionContext::interpret] with the
      [NO_MORE_BYTECODES] sentinel and an inlined JIT transition;
    - [Interp]  (core.cpp 495-957): [callFunction] / [interpretFunction] /
      [callJitFunctionWithPassParam] and the [VirtualMachine] facade, over
      the declarations of interpreter.hpp;
    - [Om]      (core.cpp 958-1348): the interpreter over [Om::Value] and an
      operand-stack object, with [throw] on control-flow errors.

    Machine integers are [Z] with their wrap-around written out; the operand
    stack is an array of cells addressed by a [Z] offset from its base;
    C++ exceptions, assertion failures and undefined behaviour are explicit
    results of every operation. *)

From Stdlib Require Import ZArith List Lia Bool String DecimalString.
From stdpp Require Import base list gmap strings.
Import ListNotations.
Local Open Scope Z_scope.

(** ** Machine integers *)

Module MachineInt.

(** Conversion to an unsigned [w]-bit integer (modular). *)
Definition to_unsigned (w : Z) (x : Z) : Z := x mod 2 ^ w.

(** Conversion to a signed [w]-bit integer (two's complement). *)
Definition to_signed (w : Z) (x : Z) : Z :=
  let u := x mod 2 ^ w in
  if u <? 2 ^ (w - 1) then u else u - 2 ^ w.

Definition uint8 : Z -> Z := to_unsigned 8.
Definition uint32 : Z -> Z := to_unsigned 32.
Definition int32 : Z -> Z := to_signed 32.

Definition INT32_MIN : Z := - 2 ^ 31.
Definition INT32_MAX : Z := 2 ^ 31 - 1.

Definition is_int32 (x : Z) : Prop := INT32_MIN <= x <= INT32_MAX.

End MachineInt.
Import MachineInt.

(** ** Bytecodes and instructions (interpreter.hpp 176-448) *)

Module Bytecode.

Definition RawByteCode := Z.

(** [enum class ByteCode : RawByteCode] *)
Inductive ByteCode : Type :=
| END_SECTION
| FUNCTION_CALL
| FUNCTION_RETURN
| PRIMITIVE_CALL
| DUPLICATE
| DROP
| PUSH_FROM_VAR
| POP_INTO_VAR
| ADD
| SUB
| MUL
| DIV
| INT_PUSH_CONSTANT
| NOT
| JMP
| JMP_EQ_EQ
| JMP_EQ_NEQ
| JMP_EQ_GT
| JMP_EQ_GE
| JMP_EQ_LT
| JMP_EQ_LE
| STR_PUSH_CONSTANT
| NEW_OBJECT
| PUSH_FROM_OBJECT
| POP_INTO_OBJECT
| CALL_INDIRECT
| SYSTEM_COLLECT.

(** The enumerators' values. *)
Definition toRaw (bc : ByteCode) : RawByteCode :=
  match bc with
  | END_SECTION => 0x0
  | FUNCTION_CALL => 0x1
  | FUNCTION_RETURN => 0x2
  | PRIMITIVE_CALL => 0x3
  | DUPLICATE => 0x4
  | DROP => 0x5
  | PUSH_FROM_VAR => 0x6
  | POP_INTO_VAR => 0x7
  | ADD => 0x8
  | SUB => 0x9
  | MUL => 0xa
  | DIV => 0xb
  | INT_PUSH_CONSTANT => 0xc
  | NOT => 0xd
  | JMP => 0xe
  | JMP_EQ_EQ => 0xf
  | JMP_EQ_NEQ => 0x10
  | JMP_EQ_GT => 0x11
  | JMP_EQ_GE => 0x12
  | JMP_EQ_LT => 0x13
  | JMP_EQ_LE => 0x14
  | STR_PUSH_CONSTANT => 0x15
  | NEW_OBJECT => 0x20
  | PUSH_FROM_OBJECT => 0x21
  | POP_INTO_OBJECT => 0x22
  | CALL_INDIRECT => 0x23
  | SYSTEM_COLLECT => 0x24
  end.

Definition all_bytecodes : list ByteCode :=
  [ END_SECTION; FUNCTION_CALL; FUNCTION_RETURN; PRIMITIVE_CALL; DUPLICATE;
    DROP; PUSH_FROM_VAR; POP_INTO_VAR; ADD; SUB; MUL; DIV;
    INT_PUSH_CONSTANT; NOT; JMP; JMP_EQ_EQ; JMP_EQ_NEQ; JMP_EQ_GT;
    JMP_EQ_GE; JMP_EQ_LT; JMP_EQ_LE; STR_PUSH_CONSTANT; NEW_OBJECT;
    PUSH_FROM_OBJECT; POP_INTO_OBJECT; CALL_INDIRECT; SYSTEM_COLLECT ].

(** The enumerator a [switch] on a raw byte selects; [None] is the
    [default:] label. *)
Definition ofRaw (b : RawByteCode) : option ByteCode :=
  List.find (fun bc => toRaw bc =? b) all_bytecodes.

Definition RawInstruction := Z.

(** [using Parameter = std::int32_t] *)
Definition Param := Z.

Definition BYTECODE_SHIFT : Z := 24.
Definition PARAMETER_MASK : Z := 0x00FFFFFF.
(** [~PARAMETER_MASK] on [std::uint32_t] *)
Definition BYTECODE_MASK : Z := uint32 (Z.lnot PARAMETER_MASK).

(** [class Instruction]: a wrapper of one [RawInstruction]. *)
Record Instruction : Type := mkRaw { raw : RawInstruction }.

(** [Instruction(ByteCode bc, Parameter p)]; the operand [p] is converted
    to [std::uint32_t] by the [&] with the unsigned mask. *)
Definition mkInstruction (bc : RawByteCode) (p : Param) : Instruction :=
  mkRaw (Z.lor (uint32 (Z.shiftl bc BYTECODE_SHIFT))
               (Z.land (uint32 p) PARAMETER_MASK)).

(** [Instruction(ByteCode bc)] *)
Definition mkInstruction0 (bc : RawByteCode) : Instruction :=
  mkRaw (uint32 (Z.shiftl bc BYTECODE_SHIFT)).

(** [byteCode() const]: [static_cast<ByteCode>(raw_ >> BYTECODE_SHIFT)] *)
Definition byteCode (i : Instruction) : RawByteCode :=
  uint8 (Z.shiftr (raw i) BYTECODE_SHIFT).

(** [parameter() const]: the low 24 bits, sign extended when bit 23 is set. *)
Definition parameter (i : Instruction) : Param :=
  let param := int32 (Z.land (raw i) PARAMETER_MASK) in
  if negb (Z.land param 0x00800000 =? 0)
  then int32 (Z.lor (uint32 param) 0xFF000000)
  else param.

(** [operator==] / [operator!=] *)
Definition instruction_eqb (a b : Instruction) : bool := raw a =? raw b.

(** [static constexpr Instruction END_SECTION{ByteCode::END_SECTION, 0}] *)
Definition END_SECTION_INSTRUCTION : Instruction :=
  mkInstruction (toRaw END_SECTION) 0.

(** [encode] then [decode] as one pair. *)
Definition decode (i : Instruction) : RawByteCode * Param :=
  (byteCode i, parameter i).

End Bytecode.
Import Bytecode.

(** ** Results of running C++ code *)

Module Outcome.

(** The exception classes the code throws. *)
Inductive exn : Type :=
| BadFunctionCallException (what : string)
| runtime_error (what : string).

(** What running a piece of the program on a state [S] gives:
    - [Ok a s]: it returns [a] and leaves the state [s];
    - [Throw e s]: it throws [e]; [s] is the state at the [throw];
    - [AssertFailed]: an [assert] failed (the process is aborted);
    - [Undefined]: undefined behaviour (an access outside an array, a
      call through a null pointer, an integer division by zero);
    - [OutOfFuel]: the step budget of the embedding ran out. *)
Inductive outcome (S A : Type) : Type :=
| Ok (a : A) (s : S)
| Throw (e : exn) (s : S)
| AssertFailed
| Undefined
| OutOfFuel.
Arguments Ok {S A} a s.
Arguments Throw {S A} e s.
Arguments AssertFailed {S A}.
Arguments Undefined {S A}.
Arguments OutOfFuel {S A}.

Definition M (S A : Type) : Type := S -> outcome S A.

Definition ret {S A} (a : A) : M S A := fun s => Ok a s.

Definition bind {S A B} (m : M S A) (k : A -> M S B) : M S B :=
  fun s =>
    match m s with
    | Ok a s' => k a s'
    | Throw e s' => Throw e s'
    | AssertFailed => AssertFailed
    | Undefined => Undefined
    | OutOfFuel => OutOfFuel
    end.

Definition throw {S A} (e : exn) : M S A := fun s => Throw e s.
Definition undefined {S A} : M S A := fun _ => Undefined.
Definition out_of_fuel {S A} : M S A := fun _ => OutOfFuel.

(** [assert(b)] *)
Definition assert {S} (b : bool) : M S unit :=
  fun s => if b then Ok tt s else AssertFailed.

(** An access that is undefined when the looked-up object is absent. *)
Definition defined {S A} (o : option A) : M S A :=
  match o with
  | Some a => ret a
  | None => undefined
  end.

Definition get {S} : M S S := fun s => Ok s s.
Definition put {S} (s : S) : M S unit := fun _ => Ok tt s.

(** The outcome is the exception [BadFunctionCallException]. *)
Definition is_BadFunctionCall {S A} (r : outcome S A) : bool :=
  match r with
  | Throw (BadFunctionCallException _) _ => true
  | _ => false
  end.

Declare Scope b9_scope.
Delimit Scope b9_scope with b9.
Notation "'let*' x ':=' m 'in' k" := (bind m (fun x => k))
  (at level 10, x name, m at level 100, k at level 200) : b9_scope.
Notation "m ';;;' k" := (bind m (fun _ => k))
  (at level 100, k at level 200, right associativity) : b9_scope.

End Outcome.
Import Outcome.
Local Open Scope b9_scope.

(** ** Module, function table and compiled-code table *)

Module VM.

(** [struct Config] (interpreter.hpp 20-28) *)
Record Config : Type := mkConfig {
  maxInlineDepth : Z;
  jit : bool;
  directCall : bool;
  passParam : bool;
  lazyVmState : bool;
  debug : bool;
  verbose : bool
}.

(** Modelled from the spec: [FunctionSpec] is declared in b9/module.hpp,
    which is not among the sources.  "FunctionSpec - immutable record
    owned by the module: name (string), argument count nargs,
    local-register count nregs, and a contiguous bytecode array ending
    with END_SECTION."  The code reads the array through [address]
    (core.cpp 241, 536) or [instructions.data()] (core.cpp 1047). *)
Record FunctionSpec : Type := mkFunctionSpec {
  name : string;
  nargs : Z;
  nregs : Z;
  address : list Instruction
}.

(** Modelled from the spec: [Module] is declared in b9/module.hpp.
    "Module - owns: an ordered vector of FunctionSpec (function index is
    its position), a vector of interned strings, a vector of
    primitive-function bindings."  A string is held by the address of its
    characters ([const char *], core.cpp 897-899); [P] is the type of a
    primitive binding. *)
Record B9Module (P : Type) : Type := mkModule {
  functions : list FunctionSpec;
  strings : list Z;
  primitives : list (option P)
}.
Arguments mkModule {P} _ _ _.
Arguments functions {P} _.
Arguments strings {P} _.
Arguments primitives {P} _.

(** The members of [class VirtualMachine] the execution engine reads
    (interpreter.hpp 154-159); [J] is the type of a compiled entry, a
    null entry is [None]. *)
Record VirtualMachine (J P : Type) : Type := mkVM {
  cfg_ : Config;
  module_ : B9Module P;
  compiledFunctions_ : list (option J)
}.
Arguments mkVM {J P} _ _ _.
Arguments cfg_ {J P} _.
Arguments module_ {J P} _.
Arguments compiledFunctions_ {J P} _.

(** [std::vector::operator[]]: [None] outside the vector, where the
    access is undefined. *)
Definition vector_at {A} (v : list A) (index : Z) : option A :=
  if (0 <=? index) && (index <? Z.of_nat (length v))
  then v !! Z.to_nat index
  else None.

(** [std::vector::size()] *)
Definition size {A} (v : list A) : Z := Z.of_nat (length v).

(** Conversion of an integer to [std::size_t]. *)
Definition to_size_t (x : Z) : Z := to_unsigned 64 x.

Section Accessors.
Context {J P : Type}.
Variable vm : VirtualMachine J P.

(** [VirtualMachine::getJitAddress] (core.cpp 322-327, 873-878).
    The outer [None] is an access outside [compiledFunctions_]. *)
Definition getJitAddress (functionIndex : Z) : option (option J) :=
  if size (compiledFunctions_ vm) <=? functionIndex
  then Some None
  else vector_at (compiledFunctions_ vm) functionIndex.

(** [VirtualMachine::getPrimitive] (core.cpp 333-335, 885-887) *)
Definition getPrimitive (index : Z) : option (option P) :=
  vector_at (primitives (module_ vm)) index.

(** [VirtualMachine::getFunction] (core.cpp 337-339, 889-891) *)
Definition getFunction (index : Z) : option FunctionSpec :=
  vector_at (functions (module_ vm)) index.

(** [VirtualMachine::getString] (core.cpp 345-347, 897-899) *)
Definition getString (index : Z) : option Z :=
  vector_at (strings (module_ vm)) (to_size_t index).

(** [VirtualMachine::getFunctionCount] *)
Definition getFunctionCount : Z := size (functions (module_ vm)).

End Accessors.

(** The instruction at an instruction pointer [ip] counted from the start of the
    function's array; [None] outside the array. *)
Definition fetch (f : FunctionSpec) (ip : Z) : option Instruction :=
  vector_at (address f) ip.

(** An argument a native entry receives in a register. *)
Inductive NativeArg (V : Type) : Type :=
| ArgContext
| ArgIndex (functionIndex : Z)
| ArgValue (v : V).
Arguments ArgContext {V}.
Arguments ArgIndex {V} _.
Arguments ArgValue {V} _.

(** What one turn of an interpreter loop's [switch] leaves: the
    instruction pointer as the [switch] left it ([Break]), or the value
    of a [return] inside the [switch]. *)
Inductive Dispatch (V : Type) : Type :=
| Break (instructionPointer : Z)
| Returned (result : V).
Arguments Break {V} _.
Arguments Returned {V} _.

End VM.
Import VM.

(** ** The execution context over a raw stack array
       (core.cpp 21-119 and 713-831, interpreter.hpp 46-116)

    The two older revisions share these member functions word for word. *)

Module Exec.

(** [using StackElement = std::int64_t] *)
Definition StackElement := Z.
Definition int64 : Z -> Z := to_signed 64.

(** [StackElement stack_[1000]] *)
Definition STACK_SIZE : nat := 1000.

(** [class ExecutionContext]: [stackPointer_] is counted in elements from
    [stack_]; [programCounter_] is only ever incremented and zeroed, and
    is held as a count. *)
Record ExecutionContext : Type := mkContext {
  stackPointer_ : Z;
  stack_ : list StackElement;
  programCounter_ : Z
}.

(** The constructor: [stackPointer_(this->stack_)], [memset(stack_, 0)]. *)
Definition newContext : ExecutionContext :=
  mkContext 0 (replicate STACK_SIZE 0) 0.

Definition Exec (A : Type) : Type := M ExecutionContext A.

(** [PrimitiveFunction]: a native routine taking the context handle. *)
Definition PrimitiveFunction : Type := Exec unit.

(** A compiled entry (the variadic function pointer [JitFunction]), called
    with its register arguments; the native code reaches the context
    through the handle it holds or receives. *)
Definition JitFunction : Type := list (NativeArg StackElement) -> Exec StackElement.

Definition VirtualMachine : Type := VM.VirtualMachine JitFunction PrimitiveFunction.

(** [stack_[i]] as an rvalue. *)
Definition load (i : Z) : Exec StackElement :=
  fun c => defined (vector_at (stack_ c) i) c.

(** [stack_[i] = value] *)
Definition store (i : Z) (value : StackElement) : Exec unit :=
  fun c =>
    if (0 <=? i) && (i <? size (stack_ c))
    then Ok tt (mkContext (stackPointer_ c)
                          (<[Z.to_nat i := value]> (stack_ c))
                          (programCounter_ c))
    else Undefined.

Definition setStackPointer (p : Z) : Exec unit :=
  fun c => Ok tt (mkContext p (stack_ c) (programCounter_ c)).

(** [programCounter_++] *)
Definition incrementProgramCounter : Exec unit :=
  fun c => Ok tt (mkContext (stackPointer_ c) (stack_ c) (programCounter_ c + 1)).

(** [ExecutionContext::push]: store at [stackPointer_], then increment it. *)
Definition push (value : StackElement) : Exec unit :=
  let* c := get in
  store (stackPointer_ c) value ;;;
  setStackPointer (stackPointer_ c + 1).

(** [ExecutionContext::pop]: decrement [stackPointer_], then load from it. *)
Definition pop : Exec StackElement :=
  let* c := get in
  setStackPointer (stackPointer_ c - 1) ;;;
  load (stackPointer_ c - 1).

(** The element under the stack pointer, [stackPointer_[-1]]. *)
Definition top : Exec StackElement :=
  let* c := get in load (stackPointer_ c - 1).

(** [ExecutionContext::drop] *)
Definition drop : Exec unit := pop ;;; ret tt.

(** [ExecutionContext::pushFromVar]: [push(args[offset])] *)
Definition pushFromVar (args : Z) (offset : Param) : Exec unit :=
  let* v := load (args + offset) in push v.

(** [ExecutionContext::pushIntoVar]: [args[offset] = pop()] *)
Definition pushIntoVar (args : Z) (offset : Param) : Exec unit :=
  let* v := pop in store (args + offset) v.

(** [ExecutionContext::intPushConstant] *)
Definition intPushConstant (value : Param) : Exec unit := push value.

(** A conditional jump: both operands are popped, the result is the
    offset to add to the instruction pointer. *)
Definition intJmp (test : Z -> Z -> bool) (delta : Param) : Exec Param :=
  let* right := pop in
  let* left := pop in
  if test left right then ret delta else ret 0.

(** [ExecutionContext::intJmpEq] ... [intJmpLe] *)
Definition intJmpEq : Param -> Exec Param := intJmp Z.eqb.
Definition intJmpNeq : Param -> Exec Param := intJmp (fun l r => negb (l =? r)).
Definition intJmpGt : Param -> Exec Param := intJmp Z.gtb.
Definition intJmpGe : Param -> Exec Param := intJmp Z.geb.
Definition intJmpLt : Param -> Exec Param := intJmp Z.ltb.
Definition intJmpLe : Param -> Exec Param := intJmp Z.leb.

(** [ExecutionContext::intAdd]; the sum of two [std::int64_t] is taken
    with wrap-around. *)
Definition intAdd : Exec unit :=
  let* right := pop in
  let* left := pop in
  push (int64 (left + right)).

(** [ExecutionContext::intSub] *)
Definition intSub : Exec unit :=
  let* right := pop in
  let* left := pop in
  push (int64 (left - right)).

(** [ExecutionContext::reset] (core.cpp 377-380, 828-831) *)
Definition reset : Exec unit :=
  fun c => Ok tt (mkContext 0 (stack_ c) 0).

Section WithVM.
Variable vm : VirtualMachine.

(** [ExecutionContext::strPushConstant]:
    [push((StackElement)virtualMachine_->getString(value))] *)
Definition strPushConstant (value : Param) : Exec unit :=
  let* str := defined (getString vm value) in push str.

(** [ExecutionContext::primitiveCall] *)
Definition primitiveCall (value : Param) : Exec unit :=
  let* entry := defined (getPrimitive vm (to_size_t value)) in
  let* primitive := defined entry in
  primitive.

End WithVM.

(** [std::stringstream ss; ss << name << " - Got " << got <<
    " arguments, expected " << expected] *)
Definition decimal (n : Z) : string :=
  DecimalString.NilZero.string_of_int (Z.to_int n).

Definition badCallMessage (f : FunctionSpec) (got : Z) : string :=
  (name f ++ " - Got " ++ decimal got ++ " arguments, expected "
     ++ decimal (nargs f))%string.

(** The loop of [VirtualMachine::run] that pushes the user's arguments:
    turn [i] pushes [usrArgs[argsCount - i - 1]]. *)
Fixpoint pushArguments (argsCount : Z) (usrArgs : list StackElement)
         (turns : nat) (i : Z) : Exec unit :=
  match turns with
  | O => ret tt
  | S turns' =>
      let idx := argsCount - i - 1 in
      let* arg := defined (vector_at usrArgs idx) in
      push arg ;;;
      pushArguments argsCount usrArgs turns' (i + 1)
  end.

End Exec.

(** ** The bytecodes of the two older revisions

    Their [switch] statements name the arithmetic and comparison bytecodes
    [INT_ADD], [INT_JMP_EQ], ... and two string comparisons
    (core.cpp 250-315, 424-449, 541-613). *)

Module OldBytecode.

Inductive ByteCode : Type :=
| END_SECTION
| FUNCTION_CALL
| FUNCTION_RETURN
| PRIMITIVE_CALL
| DUPLICATE
| DROP
| PUSH_FROM_VAR
| POP_INTO_VAR
| INT_ADD
| INT_SUB
| INT_PUSH_CONSTANT
| JMP
| INT_JMP_EQ
| INT_JMP_NEQ
| INT_JMP_GT
| INT_JMP_GE
| INT_JMP_LT
| INT_JMP_LE
| STR_PUSH_CONSTANT
| STR_JMP_EQ
| STR_JMP_NEQ.

(** Modelled from the spec: b9/bytecodes.hpp of these revisions, which
    gives the enumerators their values, is not among the sources.  The
    values are those of the opcode table of the binary ABI, "the mnemonic
    choice is cosmetic"; [STR_JMP_NEQ] is 23 in the producer tool's
    [OperatorCode] table and [STR_JMP_EQ] the value before it. *)
Definition ofRaw (b : RawByteCode) : option ByteCode :=
  match b with
  | 0 => Some END_SECTION
  | 1 => Some FUNCTION_CALL
  | 2 => Some FUNCTION_RETURN
  | 3 => Some PRIMITIVE_CALL
  | 4 => Some DUPLICATE
  | 5 => Some DROP
  | 6 => Some PUSH_FROM_VAR
  | 7 => Some POP_INTO_VAR
  | 8 => Some INT_ADD
  | 9 => Some INT_SUB
  | 12 => Some INT_PUSH_CONSTANT
  | 14 => Some JMP
  | 15 => Some INT_JMP_EQ
  | 16 => Some INT_JMP_NEQ
  | 17 => Some INT_JMP_GT
  | 18 => Some INT_JMP_GE
  | 19 => Some INT_JMP_LT
  | 20 => Some INT_JMP_LE
  | 21 => Some STR_PUSH_CONSTANT
  | 22 => Some STR_JMP_EQ
  | 23 => Some STR_JMP_NEQ
  | _ => None
  end.

End OldBytecode.

(** ** The interpreter and the bridge of core.cpp 495-957 *)

Module Interp.
Import Exec OldBytecode.

Section WithVM.
(** The bytecode a [switch] on [byteCode()] selects ([None]: the
    [default:] label). *)
Variable ofRaw : RawByteCode -> option ByteCode.
Variable vm : VirtualMachine.

(** [ExecutionContext::callJitFunctionWithPassParam] (core.cpp 637-711) *)
Definition callJitFunctionWithPassParam (index : Z) : Exec StackElement :=
  assert (passParam (cfg_ vm)) ;;;
  let* function := defined (getFunction vm index) in
  let* address := defined (getJitAddress vm index) in
  match address with
  | None => assert false ;;; undefined
  | Some jitFunction =>
      match nargs function with
      | 0 => jitFunction []
      | 1 =>
          let* p1 := pop in
          jitFunction [ArgValue p1]
      | 2 =>
          let* p2 := pop in
          let* p1 := pop in
          jitFunction [ArgValue p1; ArgValue p2]
      | 3 =>
          let* p3 := pop in
          let* p2 := pop in
          let* p1 := pop in
          jitFunction [ArgValue p1; ArgValue p2; ArgValue p3]
      | 4 =>
          let* p4 := pop in
          let* p3 := pop in
          let* p2 := pop in
          let* p1 := pop in
          jitFunction [ArgValue p1; ArgValue p2; ArgValue p3; ArgValue p4]
      | 5 =>
          let* p5 := pop in
          let* p4 := pop in
          let* p3 := pop in
          let* p2 := pop in
          let* p1 := pop in
          jitFunction [ArgValue p1; ArgValue p2; ArgValue p3; ArgValue p4;
                       ArgValue p5]
      | 6 =>
          let* p6 := pop in
          let* p5 := pop in
          let* p4 := pop in
          let* p3 := pop in
          let* p2 := pop in
          let* p1 := pop in
          jitFunction [ArgValue p1; ArgValue p2; ArgValue p3; ArgValue p4;
                       ArgValue p5; ArgValue p6]
      | 7 =>
          let* p7 := pop in
          let* p6 := pop in
          let* p5 := pop in
          let* p4 := pop in
          let* p3 := pop in
          let* p2 := pop in
          let* p1 := pop in
          jitFunction [ArgValue p1; ArgValue p2; ArgValue p3; ArgValue p4;
                       ArgValue p5; ArgValue p6; ArgValue p7]
      | _ =>
          throw (runtime_error
            "Interpreter to JIT transition failed: too many arguments")
      end
  end.

(** [ExecutionContext::callJitFunction] (core.cpp 620-635) *)
Definition callJitFunction (index : Z) : Exec StackElement :=
  assert (jit (cfg_ vm)) ;;;
  if passParam (cfg_ vm)
  then callJitFunctionWithPassParam index
  else
    let* address := defined (getJitAddress vm index) in
    match address with
    | None => assert false ;;; undefined
    | Some jitFunction => jitFunction [ArgContext; ArgIndex index]
    end.

Section Loop.
(** The bridge, as the loop calls it for [FUNCTION_CALL]. *)
Variable callFunction : Z -> Exec StackElement.

(** One turn of the [switch] of [interpretFunction]
    (core.cpp 541-613). *)
Definition dispatch (args : Z) (instructionPointer : Z)
           (instruction : Instruction) : Exec (Dispatch StackElement) :=
  let next := ret (Break instructionPointer) in
  match ofRaw (byteCode instruction) with
  | Some FUNCTION_CALL =>
      let* result := callFunction (to_size_t (parameter instruction)) in
      push result ;;; next
  | Some FUNCTION_RETURN =>
      let* result := top in
      setStackPointer args ;;;
      ret (Returned result)
  | Some PRIMITIVE_CALL => primitiveCall vm (parameter instruction) ;;; next
  | Some JMP => ret (Break (instructionPointer + parameter instruction))
  | Some DUPLICATE => next (* TODO *)
  | Some DROP => drop ;;; next
  | Some PUSH_FROM_VAR => pushFromVar args (parameter instruction) ;;; next
  | Some POP_INTO_VAR => pushIntoVar args (parameter instruction) ;;; next
  | Some INT_ADD => intAdd ;;; next
  | Some INT_SUB => intSub ;;; next
  | Some INT_PUSH_CONSTANT => intPushConstant (parameter instruction) ;;; next
  | Some INT_JMP_EQ =>
      let* d := intJmpEq (parameter instruction) in
      ret (Break (instructionPointer + d))
  | Some INT_JMP_NEQ =>
      let* d := intJmpNeq (parameter instruction) in
      ret (Break (instructionPointer + d))
  | Some INT_JMP_GT =>
      let* d := intJmpGt (parameter instruction) in
      ret (Break (instructionPointer + d))
  | Some INT_JMP_GE =>
      let* d := intJmpGe (parameter instruction) in
      ret (Break (instructionPointer + d))
  | Some INT_JMP_LT =>
      let* d := intJmpLt (parameter instruction) in
      ret (Break (instructionPointer + d))
  | Some INT_JMP_LE =>
      let* d := intJmpLe (parameter instruction) in
      ret (Break (instructionPointer + d))
  | Some STR_PUSH_CONSTANT => strPushConstant vm (parameter instruction) ;;; next
  | Some STR_JMP_EQ => next (* TODO *)
  | Some STR_JMP_NEQ => next (* TODO *)
  | Some END_SECTION | None => assert false ;;; next
  end.

(** The [while] loop of [interpretFunction] and the [return] after
    it (core.cpp 540-617). *)
Fixpoint interpretLoop (fuel : nat) (function : FunctionSpec)
         (args : Z) (instructionPointer : Z) : Exec StackElement :=
  match fuel with
  | O => out_of_fuel
  | S fuel' =>
      let* instruction := defined (fetch function instructionPointer) in
      if instruction_eqb instruction END_SECTION_INSTRUCTION
      then top
      else
        let* d := dispatch args instructionPointer instruction in
        match d with
        | Returned result => ret result
        | Break instructionPointer' =>
            incrementProgramCounter ;;;
            interpretLoop fuel' function args (instructionPointer' + 1)
        end
  end.

(** [ExecutionContext::interpretFunction] (core.cpp 530-618) *)
Definition interpretFunctionWith (fuel : nat) (index : Z) : Exec StackElement :=
  let* function := defined (getFunction vm index) in
  let* c := get in
  let args := stackPointer_ c - nargs function in
  setStackPointer (stackPointer_ c + nregs function) ;;;
  interpretLoop fuel function args 0.

End Loop.

(** [ExecutionContext::callFunction] (core.cpp 517-528) *)
Fixpoint callFunction (fuel : nat) (index : Z) : Exec StackElement :=
  match fuel with
  | O => out_of_fuel
  | S fuel' =>
      let* jitFunction := defined (getJitAddress vm index) in
      match jitFunction with
      | Some _ => callJitFunction index
      | None => interpretFunctionWith (callFunction fuel') fuel' index
      end
  end.

Definition interpretFunction (fuel : nat) (index : Z) : Exec StackElement :=
  interpretFunctionWith (callFunction fuel) fuel index.

(** [jitToInterpreterCall] (core.cpp 838-842) *)
Definition jitToInterpreterCall (fuel : nat) (value : Z) : Exec StackElement :=
  callFunction fuel value.

(** [VirtualMachine::run(functionIndex, usrArgs)] (core.cpp 924-955) *)
Definition run (fuel : nat) (functionIndex : Z)
           (usrArgs : list StackElement) : Exec StackElement :=
  let* function := defined (getFunction vm functionIndex) in
  let argsCount := nargs function in
  if negb (argsCount =? size usrArgs)
  then throw (BadFunctionCallException (badCallMessage function (size usrArgs)))
  else
    pushArguments argsCount usrArgs (Z.to_nat argsCount) 0 ;;;
    let* result := callFunction fuel functionIndex in
    reset ;;;
    ret result.

End WithVM.

End Interp.

(** ** The interpreter of core.cpp 1-494 *)

Module Legacy.
Import Exec OldBytecode.

Section WithVM.
(** [Instructions::getByteCode], [Instructions::getParameter] and
    [NO_MORE_BYTECODES] are declared in b9/core.hpp, which is not among
    the sources: the decoding and the sentinel are parameters. *)
Variable getByteCode : Instruction -> option ByteCode.
Variable getParameter : Instruction -> Param.
Variable NO_MORE_BYTECODES : Instruction.
Variable vm : VirtualMachine.

(** The transition to compiled code at the head of [interpret]
    (core.cpp 188-238).  The [default:] label of the [switch] on
    [argsCount] prints a notice and leaves [result] as initialised. *)
Definition callJit (jitedcode : JitFunction) (functionIndex : Z)
           (argsCount : Z) : Exec StackElement :=
  let result := 0 in
  if passParam (cfg_ vm)
  then
    match argsCount with
    | 0 => jitedcode []
    | 1 =>
        let* p1 := pop in
        jitedcode [ArgValue p1]
    | 2 =>
        let* p2 := pop in
        let* p1 := pop in
        jitedcode [ArgValue p1; ArgValue p2]
    | 3 =>
        let* p3 := pop in
        let* p2 := pop in
        let* p1 := pop in
        jitedcode [ArgValue p1; ArgValue p2; ArgValue p3]
    | _ => ret result
    end
  else jitedcode [ArgContext; ArgIndex functionIndex].

Section Loop.
Variable interpret : Z -> Exec StackElement.

(** [ExecutionContext::functionCall] (core.cpp 25-29) *)
Definition functionCall (value : Param) : Exec unit :=
  let* result := interpret (to_size_t value) in
  push result.

(** One turn of the [switch] of [interpret] (core.cpp 250-315). *)
Definition dispatch (args : Z) (instructionPointer : Z)
           (instruction : Instruction) : Exec (Dispatch StackElement) :=
  let next := ret (Break instructionPointer) in
  let param := getParameter instruction in
  match getByteCode instruction with
  | Some INT_PUSH_CONSTANT => intPushConstant param ;;; next
  | Some STR_PUSH_CONSTANT => strPushConstant vm param ;;; next
  | Some DROP => drop ;;; next
  | Some INT_ADD => intAdd ;;; next
  | Some INT_SUB => intSub ;;; next
  | Some JMP => ret (Break (instructionPointer + param))
  | Some INT_JMP_EQ =>
      let* d := intJmpEq param in ret (Break (instructionPointer + d))
  | Some INT_JMP_NEQ =>
      let* d := intJmpNeq param in ret (Break (instructionPointer + d))
  | Some INT_JMP_GT =>
      let* d := intJmpGt param in ret (Break (instructionPointer + d))
  | Some INT_JMP_GE =>
      let* d := intJmpGe param in ret (Break (instructionPointer + d))
  | Some INT_JMP_LT =>
      let* d := intJmpLt param in ret (Break (instructionPointer + d))
  | Some INT_JMP_LE =>
      let* d := intJmpLe param in ret (Break (instructionPointer + d))
  | Some FUNCTION_CALL => functionCall param ;;; next
  | Some PUSH_FROM_VAR => pushFromVar args param ;;; next
  | Some POP_INTO_VAR => pushIntoVar args param ;;; next
  | Some FUNCTION_RETURN =>
      let* result := top in
      setStackPointer args ;;;
      ret (Returned result)
  | Some PRIMITIVE_CALL => primitiveCall vm param ;;; next
  | _ => assert false ;;; next
  end.

(** The [while] loop of [interpret] and the [return] after it
    (core.cpp 245-319). *)
Fixpoint interpretLoop (fuel : nat) (function : FunctionSpec)
         (args : Z) (instructionPointer : Z) : Exec StackElement :=
  match fuel with
  | O => out_of_fuel
  | S fuel' =>
      let* instruction := defined (fetch function instructionPointer) in
      if instruction_eqb instruction NO_MORE_BYTECODES
      then top
      else
        let* d := dispatch args instructionPointer instruction in
        match d with
        | Returned result => ret result
        | Break instructionPointer' =>
            incrementProgramCounter ;;;
            interpretLoop fuel' function args (instructionPointer' + 1)
        end
  end.

End Loop.

(** [ExecutionContext::interpret] (core.cpp 183-320) *)
Fixpoint interpret (fuel : nat) (functionIndex : Z) : Exec StackElement :=
  match fuel with
  | O => out_of_fuel
  | S fuel' =>
      let* function := defined (getFunction vm functionIndex) in
      let argsCount := nargs function in
      let* address := defined (getJitAddress vm functionIndex) in
      match address with
      | Some jitedcode => callJit jitedcode functionIndex argsCount
      | None =>
          let* c := get in
          let args := stackPointer_ c - nargs function in
          setStackPointer (stackPointer_ c + nregs function) ;;;
          interpretLoop (interpret fuel') fuel' function args 0
      end
  end.

(** [VirtualMachine::run(functionIndex, usrArgs)] (core.cpp 387-422) *)
Definition run (fuel : nat) (functionIndex : Z)
           (usrArgs : list StackElement) : Exec StackElement :=
  let* function := defined (getFunction vm functionIndex) in
  let argsCount := nargs function in
  if negb (argsCount =? size usrArgs)
  then throw (BadFunctionCallException (badCallMessage function (size usrArgs)))
  else
    pushArguments argsCount usrArgs (Z.to_nat argsCount) 0 ;;;
    reset ;;;
    let* result := interpret fuel functionIndex in
    reset ;;;
    ret result.

End WithVM.

(** Modelled from the spec: a decoding for [getByteCode] and
    [getParameter], "(opcode:8 | immediate:24) ... Immediates are
    sign-extended from 24 to 32 bits on decode", and the sentinel "that
    terminates every function's bytecode array". *)
Definition getByteCode (i : Instruction) : option ByteCode :=
  OldBytecode.ofRaw (byteCode i).
Definition getParameter (i : Instruction) : Param := parameter i.
Definition NO_MORE_BYTECODES : Instruction := END_SECTION_INSTRUCTION.

End Legacy.

(** ** The interpreter of core.cpp 958-1348 *)

Module Om.

(** Modelled from the spec: [Om::Value] (OMR/Om/Value.hpp) is not among
    the sources.  "Value - a 64-bit word carrying a 3-bit tag
    discriminating at minimum: signed 48-bit integer, object reference,
    boxed double, singleton (undefined/false/true)." *)
Inductive Value : Type :=
| VInteger (i : Z)
| VPtr (p : Z)
| VDouble (bits : Z)
| VSingleton (k : Z).

Definition StackElement := Value.

(** Modelled from the spec: [isPtr()], the tag test for an object
    reference. *)
Definition isPtr (v : Value) : bool :=
  match v with VPtr _ => true | _ => false end.

(** Modelled from the spec: [getPtr<Om::Object>()]; reading the payload of
    a value of another kind is left undefined ([None]). *)
Definition getPtr (v : Value) : option Z :=
  match v with VPtr p => Some p | _ => None end.

(** Modelled from the spec: [getInteger()]; reading the payload of a value
    of another kind is left undefined ([None]). *)
Definition getInteger (v : Value) : option Z :=
  match v with VInteger i => Some i | _ => None end.

(** Modelled from the spec: [setInteger(i)], the integer value [i]. *)
Definition setInteger (i : Z) : Value := VInteger i.

(** Modelled from the spec: the operand stack class is not among the
    sources.  "a fixed-capacity array with a stack pointer";
    "Operations: push(v), pop() -> v, peek() -> v, pushN(n) reserving
    (zero-filled) slots for locals, restore(p) resetting to a saved
    pointer.  Overflow and underflow are programming errors."  [top_] is
    counted in elements from the base of the array; an access outside the
    array is undefined. *)
Record OperandStack : Type := mkStack {
  top_ : Z;
  cells : list Value
}.

(** Modelled from the spec: [push(v)]. *)
Definition Stack_push (v : Value) (s : OperandStack) : option OperandStack :=
  if (0 <=? top_ s) && (top_ s <? size (cells s))
  then Some (mkStack (top_ s + 1) (<[Z.to_nat (top_ s) := v]> (cells s)))
  else None.

(** Modelled from the spec: [peek() -> v]. *)
Definition Stack_peek (s : OperandStack) : option Value :=
  vector_at (cells s) (top_ s - 1).

(** Modelled from the spec: [pop() -> v]. *)
Definition Stack_pop (s : OperandStack) : option (Value * OperandStack) :=
  match vector_at (cells s) (top_ s - 1) with
  | Some v => Some (v, mkStack (top_ s - 1) (cells s))
  | None => None
  end.

(** Modelled from the spec: [restore(p)], "resetting to a saved pointer". *)
Definition Stack_restore (p : Z) (s : OperandStack) : OperandStack :=
  mkStack p (cells s).

(** Modelled from the spec: [reset()], the stack pointer back at the base
    of the stack. *)
Definition Stack_reset (s : OperandStack) : OperandStack :=
  mkStack 0 (cells s).

(** [n] cells from [start] on are overwritten with [v]. *)
Definition fill (start n : nat) (v : Value) (l : list Value) : list Value :=
  foldr (fun k acc => <[(start + k)%nat := v]> acc) l (seq 0 n).

(** Modelled from the spec: [pushN(n)], "reserving (zero-filled) slots for
    locals"; [zeroed] is the value of a zero-filled cell. *)
Definition Stack_pushn (zeroed : Value) (n : Z) (s : OperandStack)
  : option OperandStack :=
  if (0 <=? top_ s) && (0 <=? n) && (top_ s + n <=? size (cells s))
  then Some (mkStack (top_ s + n)
                     (fill (Z.to_nat (top_ s)) (Z.to_nat n) zeroed (cells s)))
  else None.

(** [class ExecutionContext] (the members core.cpp 984-1346 uses);
    [Heap] is the object heap behind [omContext_]. *)
Record ExecutionContext (Heap : Type) : Type := mkContext {
  stack_ : OperandStack;
  programCounter_ : Z;
  omContext_ : Heap
}.
Arguments mkContext {Heap} _ _ _.
Arguments stack_ {Heap} _.
Arguments programCounter_ {Heap} _.
Arguments omContext_ {Heap} _.

(** OMR/Om is not among the sources: the object heap, a slot descriptor,
    the value of a zero-filled stack cell and the object operations the
    interpreter calls are the members of a runtime.  Each operation runs
    on the context: [Object::allocate], [Object::lookup] (the descriptor
    when found), [Object::getValue], [Object::setValue],
    [Object::transition] followed by [root.get()] ([None]: no map), and
    [OMR_GC_SystemCollect]. *)
Record Runtime : Type := mkRuntime {
  Heap : Type;
  SlotDescriptor : Type;
  zeroed : Value;
  Object_allocate : M (ExecutionContext Heap) Z;
  Object_lookup : Z -> Z -> M (ExecutionContext Heap) (option SlotDescriptor);
  Object_getValue : Z -> SlotDescriptor -> M (ExecutionContext Heap) Value;
  Object_setValue : Z -> SlotDescriptor -> Value -> M (ExecutionContext Heap) unit;
  Object_transition : Z -> Z -> M (ExecutionContext Heap) (option Z);
  defaultDescriptor : SlotDescriptor;
  OMR_GC_SystemCollect : M (ExecutionContext Heap) unit
}.

Section WithRuntime.
Variable rt : Runtime.

Definition Context : Type := ExecutionContext (Heap rt).
Definition Exec (A : Type) : Type := M Context A.

Definition PrimitiveFunction : Type := Exec unit.

(** A compiled entry, called with its register arguments (a [Value]
    travels as its raw word and the word returned is read back as a
    [Value], core.cpp 1013-1034). *)
Definition JitFunction : Type := list (NativeArg Value) -> Exec Value.

Definition VirtualMachine : Type := VM.VirtualMachine JitFunction PrimitiveFunction.

Definition liftStack (f : OperandStack -> option OperandStack) : Exec unit :=
  fun c =>
    match f (stack_ c) with
    | Some s' => Ok tt (mkContext s' (programCounter_ c) (omContext_ c))
    | None => Undefined
    end.

(** [stack_.push(v)] / [ExecutionContext::push] (core.cpp 1146) *)
Definition push (value : StackElement) : Exec unit :=
  liftStack (Stack_push value).

(** [stack_.pop()] / [ExecutionContext::pop] (core.cpp 1148) *)
Definition pop : Exec StackElement :=
  fun c =>
    match Stack_pop (stack_ c) with
    | Some (v, s') => Ok v (mkContext s' (programCounter_ c) (omContext_ c))
    | None => Undefined
    end.

(** [stack_.peek()] *)
Definition peek : Exec StackElement :=
  fun c => defined (Stack_peek (stack_ c)) c.

(** [stack_.pushn(n)] *)
Definition pushn (n : Z) : Exec unit := liftStack (Stack_pushn (zeroed rt) n).

(** [stack_.restore(p)] *)
Definition restore (p : Z) : Exec unit :=
  liftStack (fun s => Some (Stack_restore p s)).

(** [args[offset]] as an rvalue and as the target of an assignment;
    [args] points into the stack's array. *)
Definition load (i : Z) : Exec Value :=
  fun c => defined (vector_at (cells (stack_ c)) i) c.

Definition store (i : Z) (value : Value) : Exec unit :=
  liftStack (fun s =>
    if (0 <=? i) && (i <? size (cells s))
    then Some (mkStack (top_ s) (<[Z.to_nat i := value]> (cells s)))
    else None).

(** [programCounter_++] *)
Definition incrementProgramCounter : Exec unit :=
  fun c => Ok tt (mkContext (stack_ c) (programCounter_ c + 1) (omContext_ c)).

(** [ExecutionContext::reset] (core.cpp 993-996) *)
Definition reset : Exec unit :=
  fun c => Ok tt (mkContext (Stack_reset (stack_ c)) 0 (omContext_ c)).

(** [std::int32_t x = stack_.pop().getInteger()] *)
Definition popInteger : Exec Z :=
  let* v := pop in
  let* i := defined (getInteger v) in
  ret (int32 i).

(** [ExecutionContext::doDuplicate] (core.cpp 1167-1169) *)
Definition doDuplicate : Exec unit :=
  let* v := peek in push v.

(** [ExecutionContext::doDrop] *)
Definition doDrop : Exec unit := pop ;;; ret tt.

(** [ExecutionContext::doPushFromVar] *)
Definition doPushFromVar (args : Z) (offset : Param) : Exec unit :=
  let* v := load (args + offset) in push v.

(** [ExecutionContext::doPushIntoVar] *)
Definition doPushIntoVar (args : Z) (offset : Param) : Exec unit :=
  let* v := pop in store (args + offset) v.

(** [ExecutionContext::doAdd], [doSub], [doMul]: [std::int32_t]
    arithmetic, taken with wrap-around. *)
Definition doAdd : Exec unit :=
  let* right := popInteger in
  let* left := popInteger in
  push (setInteger (int32 (left + right))).

Definition doSub : Exec unit :=
  let* right := popInteger in
  let* left := popInteger in
  push (setInteger (int32 (left - right))).

Definition doMul : Exec unit :=
  let* right := popInteger in
  let* left := popInteger in
  push (setInteger (int32 (left * right))).

(** The C++ expression [left / right] on [std::int32_t]: the quotient
    truncated towards zero; undefined when [right] is zero or the
    quotient is not representable. *)
Definition int32_div (left right : Z) : option Z :=
  if right =? 0 then None
  else if (left =? INT32_MIN) && (right =? -1) then None
  else Some (Z.quot left right).

(** [ExecutionContext::doDiv] (core.cpp 1205-1211) *)
Definition doDiv : Exec unit :=
  let* right := popInteger in
  let* left := popInteger in
  let* quotient := defined (int32_div left right) in
  push (setInteger quotient).

(** [ExecutionContext::doIntPushConstant] *)
Definition doIntPushConstant (value : Param) : Exec unit :=
  push (setInteger value).

(** [ExecutionContext::doNot] *)
Definition doNot : Exec unit :=
  let* i := popInteger in
  push (setInteger (if i =? 0 then 1 else 0)).

(** A conditional jump (core.cpp 1224-1279): both operands are popped,
    the result is the offset to add to the instruction pointer. *)
Definition doJmpIf (test : Z -> Z -> bool) (delta : Param) : Exec Param :=
  let* right := popInteger in
  let* left := popInteger in
  if test left right then ret delta else ret 0.

Definition doJmpEq : Param -> Exec Param := doJmpIf Z.eqb.
Definition doJmpNeq : Param -> Exec Param := doJmpIf (fun l r => negb (l =? r)).
Definition doJmpGt : Param -> Exec Param := doJmpIf Z.gtb.
Definition doJmpGe : Param -> Exec Param := doJmpIf Z.geb.
Definition doJmpLt : Param -> Exec Param := doJmpIf Z.ltb.
Definition doJmpLe : Param -> Exec Param := doJmpIf Z.leb.

(** [ExecutionContext::doStrPushConstant] *)
Definition doStrPushConstant (param : Param) : Exec unit :=
  push (setInteger param).

(** [ExecutionContext::doNewObject] *)
Definition doNewObject : Exec unit :=
  let* ref := Object_allocate rt in push (VPtr ref).

(** [ExecutionContext::doPushFromObject] (core.cpp 1293-1308) *)
Definition doPushFromObject (slotId : Z) : Exec unit :=
  let* value := pop in
  if negb (isPtr value)
  then throw (runtime_error "Accessing non-object value as an object.")
  else
    let* obj := defined (getPtr value) in
    let* found := Object_lookup rt obj slotId in
    match found with
    | Some descriptor =>
        let* result := Object_getValue rt obj descriptor in
        push result
    | None =>
        throw (runtime_error "Accessing an object's field that doesn't exist.")
    end.

(** [ExecutionContext::doPopIntoObject] (core.cpp 1311-1337) *)
Definition doPopIntoObject (slotId : Z) : Exec unit :=
  let* topValue := peek in
  if negb (isPtr topValue)
  then throw (runtime_error "Accessing non-object as an object")
  else
    let* popped := pop in
    let* object := defined (getPtr popped) in
    let* found := Object_lookup rt object slotId in
    let* target :=
      match found with
      | Some descriptor => ret (object, descriptor)
      | None =>
          let* moved := Object_transition rt object slotId in
          match moved with
          | None => assert false ;;; undefined
          | Some object' =>
              let* again := Object_lookup rt object slotId in
              ret (object', default (defaultDescriptor rt) again)
          end
      end in
    let* val := pop in
    Object_setValue rt (fst target) (snd target) val.

(** [ExecutionContext::doCallIndirect] *)
Definition doCallIndirect : Exec unit := assert false.

(** [ExecutionContext::doSystemCollect] *)
Definition doSystemCollect : Exec unit := OMR_GC_SystemCollect rt.

Section WithVM.
Variable vm : VirtualMachine.

(** [ExecutionContext::doPrimitiveCall] *)
Definition doPrimitiveCall (value : Param) : Exec unit :=
  let* entry := defined (getPrimitive vm (to_size_t value)) in
  let* primitive := defined entry in
  primitive.

(** [ExecutionContext::callJitFunction] (core.cpp 998-1035) *)
Definition callJitFunction (jitFunction : JitFunction) (nargs : Z)
  : Exec Value :=
  if passParam (cfg_ vm)
  then
    match nargs with
    | 0 => jitFunction [ArgContext]
    | 1 =>
        let* p1 := pop in
        jitFunction [ArgContext; ArgValue p1]
    | 2 =>
        let* p2 := pop in
        let* p1 := pop in
        jitFunction [ArgContext; ArgValue p1; ArgValue p2]
    | 3 =>
        let* p3 := pop in
        let* p2 := pop in
        let* p1 := pop in
        jitFunction [ArgContext; ArgValue p1; ArgValue p2; ArgValue p3]
    | _ => throw (runtime_error "Need to add handlers for more parameters")
    end
  else jitFunction [ArgContext].

Section Loop.
Variable interpret : Z -> Exec StackElement.

(** [ExecutionContext::doFunctionCall] (core.cpp 1150-1154) *)
Definition doFunctionCall (value : Param) : Exec unit :=
  let* result := interpret (to_size_t value) in
  push result.

(** One turn of the [switch] of [interpret] (core.cpp 1053-1139). *)
Definition dispatch (args : Z) (instructionPointer : Z)
           (instruction : Instruction) : Exec (Dispatch StackElement) :=
  let next := ret (Break instructionPointer) in
  let param := parameter instruction in
  match ofRaw (byteCode instruction) with
  | Some FUNCTION_CALL => doFunctionCall param ;;; next
  | Some FUNCTION_RETURN =>
      let* result := pop in
      restore args ;;;
      ret (Returned result)
  | Some PRIMITIVE_CALL => doPrimitiveCall param ;;; next
  | Some JMP => ret (Break (instructionPointer + param))
  | Some DUPLICATE => doDuplicate ;;; next
  | Some DROP => doDrop ;;; next
  | Some PUSH_FROM_VAR => doPushFromVar args param ;;; next
  | Some POP_INTO_VAR => doPushIntoVar args param ;;; next
  | Some ADD => doAdd ;;; next
  | Some SUB => doSub ;;; next
  | Some MUL => doMul ;;; next
  | Some DIV => doDiv ;;; next
  | Some INT_PUSH_CONSTANT => doIntPushConstant param ;;; next
  | Some NOT => doNot ;;; next
  | Some JMP_EQ_EQ =>
      let* d := doJmpEq param in ret (Break (instructionPointer + d))
  | Some JMP_EQ_NEQ =>
      let* d := doJmpNeq param in ret (Break (instructionPointer + d))
  | Some JMP_EQ_GT =>
      let* d := doJmpGt param in ret (Break (instructionPointer + d))
  | Some JMP_EQ_GE =>
      let* d := doJmpGe param in ret (Break (instructionPointer + d))
  | Some JMP_EQ_LT =>
      let* d := doJmpLt param in ret (Break (instructionPointer + d))
  | Some JMP_EQ_LE =>
      let* d := doJmpLe param in ret (Break (instructionPointer + d))
  | Some STR_PUSH_CONSTANT => doStrPushConstant param ;;; next
  | Some NEW_OBJECT => doNewObject ;;; next
  | Some PUSH_FROM_OBJECT => doPushFromObject param ;;; next
  | Some POP_INTO_OBJECT => doPopIntoObject param ;;; next
  | Some CALL_INDIRECT => doCallIndirect ;;; next
  | Some SYSTEM_COLLECT => doSystemCollect ;;; next
  | Some END_SECTION | None => assert false ;;; next
  end.

(** The [while] loop of [interpret] and the [throw] after it
    (core.cpp 1052-1143). *)
Fixpoint interpretLoop (fuel : nat) (function : FunctionSpec)
         (args : Z) (instructionPointer : Z) : Exec StackElement :=
  match fuel with
  | O => out_of_fuel
  | S fuel' =>
      let* instruction := defined (fetch function instructionPointer) in
      if instruction_eqb instruction END_SECTION_INSTRUCTION
      then throw (runtime_error "Reached end of function")
      else
        let* d := dispatch args instructionPointer instruction in
        match d with
        | Returned result => ret result
        | Break instructionPointer' =>
            incrementProgramCounter ;;;
            interpretLoop fuel' function args (instructionPointer' + 1)
        end
  end.

End Loop.

(** [ExecutionContext::interpret] (core.cpp 1037-1144) *)
Fixpoint interpret (fuel : nat) (functionIndex : Z) : Exec StackElement :=
  match fuel with
  | O => out_of_fuel
  | S fuel' =>
      let* function := defined (getFunction vm functionIndex) in
      let argsCount := nargs function in
      let* address := defined (getJitAddress vm functionIndex) in
      match address with
      | Some jitFunction => callJitFunction jitFunction argsCount
      | None =>
          let* c := get in
          let args := top_ (stack_ c) - nargs function in
          pushn (nregs function) ;;;
          interpretLoop (interpret fuel') fuel' function args 0
      end
  end.

End WithVM.

End WithRuntime.

End Om.

(** ** Vocabulary of the properties *)

Module Props.

(** The cell [i] of the operand stack of a context, counted from the base. *)
Definition omCell {Heap} (c : Om.ExecutionContext Heap) (i : Z) : option Om.Value :=
  vector_at (Om.cells (Om.stack_ c)) i.

(** The stack pointer of a context, counted from the base. *)
Definition omTop {Heap} (c : Om.ExecutionContext Heap) : Z :=
  Om.top_ (Om.stack_ c).

(** The context [c] with its stack pointer moved to [p]. *)
Definition omSetTop {Heap} (c : Om.ExecutionContext Heap) (p : Z)
  : Om.ExecutionContext Heap :=
  Om.mkContext (Om.mkStack p (Om.cells (Om.stack_ c)))
               (Om.programCounter_ c) (Om.omContext_ c).

(** The context [c] after one more turn of an interpreter loop. *)
Definition omTick {Heap} (c : Om.ExecutionContext Heap) : Om.ExecutionContext Heap :=
  Om.mkContext (Om.stack_ c) (Om.programCounter_ c + 1) (Om.omContext_ c).

(** The comparison a conditional jump makes between its operands [l]
    (pushed first) and [r] (on top); [None] for any other bytecode. *)
Definition comparison (bc : Bytecode.ByteCode) : option (Z -> Z -> Prop) :=
  match bc with
  | JMP_EQ_EQ => Some (fun l r => l = r)
  | JMP_EQ_NEQ => Some (fun l r => l <> r)
  | JMP_EQ_GT => Some (fun l r => l > r)
  | JMP_EQ_GE => Some (fun l r => l >= r)
  | JMP_EQ_LT => Some (fun l r => l < r)
  | JMP_EQ_LE => Some (fun l r => l <= r)
  | _ => None
  end.

(** [runs turn n (ip, c) (ip', c')]: an interpreter loop whose turn at the
    instruction [ip] in the context [c] is [turn ip c] takes [n] turns,
    none of which leaves the loop, and then stands at [ip'] in [c']. *)
Inductive runs {Ctx : Type} (turn : Z -> Ctx -> option (Z * Ctx))
  : nat -> Z * Ctx -> Z * Ctx -> Prop :=
| runs_here (s : Z * Ctx) : runs turn 0 s s
| runs_turn (n : nat) (ip : Z) (c : Ctx) (s1 s' : Z * Ctx) :
    turn ip c = Some s1 ->
    runs turn n s1 s' ->
    runs turn (S n) (ip, c) s'.

(** A turn of the loop of [Om.interpret] that stays in the loop: the
    instruction at [ip] is not the sentinel, the [switch] breaks with the
    instruction pointer [ip1], and the loop increments it and the program
    counter. *)
Definition omTurn (rt : Om.Runtime) (vm : Om.VirtualMachine rt)
           (interpret : Z -> Om.Exec rt Om.Value) (f : FunctionSpec) (args : Z)
           (ip : Z) (c : Om.Context rt) : option (Z * Om.Context rt) :=
  match fetch f ip with
  | Some i =>
      if instruction_eqb i END_SECTION_INSTRUCTION then None
      else
        match Om.dispatch rt vm interpret args ip i c with
        | Ok (Break ip1) c1 => Some (ip1 + 1, omTick c1)
        | _ => None
        end
  | None => None
  end.

(** The cell [i] of the raw stack array of a context. *)
Definition cell (c : Exec.ExecutionContext) (i : Z) : option Exec.StackElement :=
  vector_at (Exec.stack_ c) i.

(** The context [c] with its stack pointer moved to [p]. *)
Definition setTop (c : Exec.ExecutionContext) (p : Z) : Exec.ExecutionContext :=
  Exec.mkContext p (Exec.stack_ c) (Exec.programCounter_ c).

(** A context as [reset()] leaves it: the stack pointer at the base of the
    stack and the program counter zero. *)
Definition isReset (c : Exec.ExecutionContext) : Prop :=
  Exec.stackPointer_ c = 0 /\ Exec.programCounter_ c = 0.

(** The cells from [p] upwards hold the values [ps], in this order. *)
Fixpoint cellsFrom (c : Exec.ExecutionContext) (p : Z)
         (ps : list Exec.StackElement) : Prop :=
  match ps with
  | [] => True
  | a :: rest => cell c p = Some a /\ cellsFrom c (p + 1) rest
  end.

(** The values [ps] are the last pushed: [ps] lies under the stack
    pointer, its last element on top. *)
Definition onTop (c : Exec.ExecutionContext) (ps : list Exec.StackElement) : Prop :=
  cellsFrom c (Exec.stackPointer_ c - size ps) ps.

(** The context [c] after one more turn of an interpreter loop. *)
Definition tick (c : Exec.ExecutionContext) : Exec.ExecutionContext :=
  Exec.mkContext (Exec.stackPointer_ c) (Exec.stack_ c) (Exec.programCounter_ c + 1).

(** A turn of the loop of [Interp.interpretFunction] that stays in the
    loop. *)
Definition interpTurn (ofRaw : RawByteCode -> option OldBytecode.ByteCode)
           (vm : Exec.VirtualMachine)
           (callFunction : Z -> Exec.Exec Exec.StackElement)
           (f : FunctionSpec) (args : Z)
           (ip : Z) (c : Exec.ExecutionContext)
  : option (Z * Exec.ExecutionContext) :=
  match fetch f ip with
  | Some i =>
      if instruction_eqb i END_SECTION_INSTRUCTION then None
      else
        match Interp.dispatch ofRaw vm callFunction args ip i c with
        | Ok (Break ip1) c1 => Some (ip1 + 1, tick c1)
        | _ => None
        end
  | None => None
  end.

(** A turn of the loop of [Legacy.interpret] that stays in the loop. *)
Definition legacyTurn (getByteCode : Instruction -> option OldBytecode.ByteCode)
           (getParameter : Instruction -> Param)
           (NO_MORE_BYTECODES : Instruction)
           (vm : Exec.VirtualMachine)
           (interpret : Z -> Exec.Exec Exec.StackElement)
           (f : FunctionSpec) (args : Z)
           (ip : Z) (c : Exec.ExecutionContext)
  : option (Z * Exec.ExecutionContext) :=
  match fetch f ip with
  | Some i =>
      if instruction_eqb i NO_MORE_BYTECODES then None
      else
        match Legacy.dispatch getByteCode getParameter vm interpret args ip i c with
        | Ok (Break ip1) c1 => Some (ip1 + 1, tick c1)
        | _ => None
        end
  | None => None
  end.

(** A computation that, whatever the state, does not end in a
    [BadFunctionCallException]. *)
Definition quiet {S A : Type} (m : M S A) : Prop :=
  forall s, is_BadFunctionCall (m s) = false.

(** No primitive and no compiled entry of the virtual machine throws a
    [BadFunctionCallException]. *)
Definition quietNatives (vm : Exec.VirtualMachine) : Prop :=
  (forall i p, getPrimitive vm i = Some (Some p) -> quiet p) /\
  (forall i j args, getJitAddress vm i = Some (Some j) -> quiet (j args)).

End Props.
Import Props.

(** ** Sample programs *)

Module Samples.

Definition noConfig : Config := mkConfig 1 false false false false false false.
Definition jitPassParam : Config := mkConfig 1 true false true false false false.

Definition op (bc : Bytecode.ByteCode) (p : Param) : Instruction :=
  mkInstruction (toRaw bc) p.

(** The older mnemonics, encoded with the values [OldBytecode.ofRaw]
    reads. *)
Definition oldRaw (bc : OldBytecode.ByteCode) : RawByteCode :=
  match bc with
  | OldBytecode.END_SECTION => 0
  | OldBytecode.FUNCTION_CALL => 1
  | OldBytecode.FUNCTION_RETURN => 2
  | OldBytecode.PRIMITIVE_CALL => 3
  | OldBytecode.DUPLICATE => 4
  | OldBytecode.DROP => 5
  | OldBytecode.PUSH_FROM_VAR => 6
  | OldBytecode.POP_INTO_VAR => 7
  | OldBytecode.INT_ADD => 8
  | OldBytecode.INT_SUB => 9
  | OldBytecode.INT_PUSH_CONSTANT => 12
  | OldBytecode.JMP => 14
  | OldBytecode.INT_JMP_EQ => 15
  | OldBytecode.INT_JMP_NEQ => 16
  | OldBytecode.INT_JMP_GT => 17
  | OldBytecode.INT_JMP_GE => 18
  | OldBytecode.INT_JMP_LT => 19
  | OldBytecode.INT_JMP_LE => 20
  | OldBytecode.STR_PUSH_CONSTANT => 21
  | OldBytecode.STR_JMP_EQ => 22
  | OldBytecode.STR_JMP_NEQ => 23
  end.

Definition old (bc : OldBytecode.ByteCode) (p : Param) : Instruction :=
  mkInstruction (oldRaw bc) p.

(** *** Programs for the interpreter over [Om::Value] *)

(** An object runtime without objects: nothing is allocated, no slot is
    found, collection does nothing. *)
Definition noObjects : Om.Runtime :=
  Om.mkRuntime unit unit (Om.VInteger 0)
    (ret 0) (fun _ _ => ret None) (fun _ _ => ret (Om.VInteger 0))
    (fun _ _ _ => ret tt) (fun _ _ => ret None) tt (ret tt).

(** A fresh context with a stack of eight cells. *)
Definition omContext : Om.Context noObjects :=
  Om.mkContext (Om.mkStack 0 (replicate 8 (Om.VInteger 0))) 0 tt.


(** S1: [f() { return 2 + 3; }] *)
Definition f_add : FunctionSpec :=
  mkFunctionSpec "f" 0 0
    [ op INT_PUSH_CONSTANT 2; op INT_PUSH_CONSTANT 3; op ADD 0;
      op FUNCTION_RETURN 0; END_SECTION_INSTRUCTION ].

(** S3: [g(x) { return x + 1; }], [f() { return g(41); }] *)
Definition g_succ : FunctionSpec :=
  mkFunctionSpec "g" 1 0
    [ op PUSH_FROM_VAR 0; op INT_PUSH_CONSTANT 1; op ADD 0;
      op FUNCTION_RETURN 0; END_SECTION_INSTRUCTION ].
Definition f_call : FunctionSpec :=
  mkFunctionSpec "f" 0 0
    [ op INT_PUSH_CONSTANT 41; op FUNCTION_CALL 1; op FUNCTION_RETURN 0;
      END_SECTION_INSTRUCTION ].

(** A body that runs into its sentinel: [h() { 7; }] with one local. *)
Definition h_fallthrough : FunctionSpec :=
  mkFunctionSpec "h" 0 1
    [ op INT_PUSH_CONSTANT 7; END_SECTION_INSTRUCTION ].

(** [d(l, r) { return l / r; }] *)
Definition d_div : FunctionSpec :=
  mkFunctionSpec "d" 2 0
    [ op PUSH_FROM_VAR 0; op PUSH_FROM_VAR 1; op DIV 0;
      op FUNCTION_RETURN 0; END_SECTION_INSTRUCTION ].

(** S2: [sumto(n) { var i = 0; var s = 0; while (i < n) { i = i + 1;
    s = s + i; } return s; }], the test placed after the body. *)
Definition sumto : FunctionSpec :=
  mkFunctionSpec "sumto" 1 2
    [ op INT_PUSH_CONSTANT 0; op POP_INTO_VAR 1;
      op INT_PUSH_CONSTANT 0; op POP_INTO_VAR 2;
      op JMP 8;
      op PUSH_FROM_VAR 1; op INT_PUSH_CONSTANT 1; op ADD 0; op POP_INTO_VAR 1;
      op PUSH_FROM_VAR 2; op PUSH_FROM_VAR 1; op ADD 0; op POP_INTO_VAR 2;
      op PUSH_FROM_VAR 1; op PUSH_FROM_VAR 0; op JMP_EQ_LT (-11);
      op PUSH_FROM_VAR 2; op FUNCTION_RETURN 0; END_SECTION_INSTRUCTION ].

Definition omVM : Om.VirtualMachine noObjects :=
  mkVM noConfig
       (mkModule [f_call; g_succ; f_add; h_fallthrough; d_div; sumto] [] []) [].

(** A context of [omVM] whose stack holds the values [vs], oldest first. *)
Definition omStackOf (vs : list Om.Value) : Om.Context noObjects :=
  Om.mkContext
    (Om.mkStack (size vs) (vs ++ replicate (8 - length vs) (Om.VInteger 0)))
    0 tt.

(** The context after [FUNCTION_CALL g] on a stack that holds 41. *)
Definition afterCall : Om.Context noObjects :=
  Om.mkContext
    (Om.mkStack 1 (Om.VInteger 42 :: Om.VInteger 42 :: Om.VInteger 1
                     :: replicate 5 (Om.VInteger 0)))
    3 tt.

(** [sumto(10)] at its test, [i = 3] and [s = 6]: the stack holds the
    argument, the two locals and the operands [3] and [10]. *)
Definition atTest : Om.Context noObjects :=
  omStackOf [Om.VInteger 10; Om.VInteger 3; Om.VInteger 6;
             Om.VInteger 3; Om.VInteger 10].

(** *** Programs for the two older interpreters *)

(** [h() { 7; }] with one local: the body ends at the sentinel. *)
Definition old_fallthrough : FunctionSpec :=
  mkFunctionSpec "h" 0 1
    [ old OldBytecode.INT_PUSH_CONSTANT 7; END_SECTION_INSTRUCTION ].

(** [twice]: the constant 5, [DUPLICATE], [INT_ADD], [FUNCTION_RETURN];
    one local. *)
Definition old_twice : FunctionSpec :=
  mkFunctionSpec "twice" 0 1
    [ old OldBytecode.INT_PUSH_CONSTANT 5; old OldBytecode.DUPLICATE 0;
      old OldBytecode.INT_ADD 0; old OldBytecode.FUNCTION_RETURN 0;
      END_SECTION_INSTRUCTION ].

(** [inc(x) { return x + 1; }] *)
Definition old_inc : FunctionSpec :=
  mkFunctionSpec "inc" 1 0
    [ old OldBytecode.PUSH_FROM_VAR 0; old OldBytecode.INT_PUSH_CONSTANT 1;
      old OldBytecode.INT_ADD 0; old OldBytecode.FUNCTION_RETURN 0;
      END_SECTION_INSTRUCTION ].

(** Functions of four and of eight arguments that return their first. *)
Definition old_four : FunctionSpec :=
  mkFunctionSpec "four" 4 0
    [ old OldBytecode.PUSH_FROM_VAR 0; old OldBytecode.FUNCTION_RETURN 0;
      END_SECTION_INSTRUCTION ].
Definition old_eight : FunctionSpec :=
  mkFunctionSpec "eight" 8 0
    [ old OldBytecode.PUSH_FROM_VAR 0; old OldBytecode.FUNCTION_RETURN 0;
      END_SECTION_INSTRUCTION ].

Definition oldModule : B9Module Exec.PrimitiveFunction :=
  mkModule [old_fallthrough; old_twice; old_inc; old_four; old_eight] [] [].

(** Interpretation only: the compiled-code table is empty. *)
Definition oldVM : Exec.VirtualMachine := mkVM noConfig oldModule [].

(** A native entry that returns the sum of its register arguments. *)
Definition sumArgs : Exec.JitFunction :=
  fun args =>
    ret (fold_right (fun a acc =>
                       match a with ArgValue v => v + acc | _ => acc end)
                    0 args).

(** Every function compiled, register calling convention. *)
Definition jitVM : Exec.VirtualMachine :=
  mkVM jitPassParam oldModule
       [Some sumArgs; Some sumArgs; Some sumArgs; Some sumArgs; Some sumArgs].

(** The four arguments of [four(1, 2, 3, 4)] pushed on a stack of eight
    cells. *)
Definition fourPushed : Exec.ExecutionContext :=
  Exec.mkContext 4 [1; 2; 3; 4; 0; 0; 0; 0] 0.

(** A fresh context with a stack of eight cells. *)
Definition smallContext : Exec.ExecutionContext :=
  Exec.mkContext 0 [0; 0; 0; 0; 0; 0; 0; 0] 0.

(** The eight arguments of [eight(1, ..., 8)] as [run] pushes them, the
    last argument first. *)
Definition eightPushed : Exec.ExecutionContext :=
  Exec.mkContext 8 [8; 7; 6; 5; 4; 3; 2; 1] 0.

Definition legacyInterpret : Exec.VirtualMachine -> nat -> Z -> Exec.Exec Exec.StackElement :=
  Legacy.interpret Legacy.getByteCode Legacy.getParameter Legacy.NO_MORE_BYTECODES.

Definition legacyRun : Exec.VirtualMachine -> nat -> Z -> list Exec.StackElement
                       -> Exec.Exec Exec.StackElement :=
  Legacy.run Legacy.getByteCode Legacy.getParameter Legacy.NO_MORE_BYTECODES.

End Samples.

(** ** The mutators of [Instruction] (interpreter.hpp 352-372) *)

Module Mutators.

(** [Instruction::byteCode(ByteCode bc)]: the byte is promoted to [int]
    before the shift, and the [|] with the unsigned word converts the
    result to [std::uint32_t]. *)
Definition setByteCode (i : Instruction) (bc : RawByteCode) : Instruction :=
  mkRaw (Z.lor (uint32 (Z.shiftl bc BYTECODE_SHIFT))
               (Z.land (raw i) PARAMETER_MASK)).

(** [Instruction::parameter(Parameter p)] *)
Definition setParameter (i : Instruction) (p : Param) : Instruction :=
  mkRaw (Z.lor (Z.land (raw i) BYTECODE_MASK)
               (Z.land (uint32 p) PARAMETER_MASK)).

(** The values of a [RawInstruction]. *)
Definition isRaw (i : Instruction) : Prop := 0 <= raw i < 2 ^ 32.

End Mutators.

(** ** The compiled-code table of the facade (core.cpp 329-331, 880-883,
       905-917) *)

Module Facade.

Section WithCompiler.
Context {J P : Type}.

(** The compiler (b9/jit.hpp, b9/compiler/Compiler.hpp) is not among the
    sources: the entry [compiler_->generateCode(functionIndex)] returns is
    a parameter. *)
Variable generateCode : Z -> option J.

(** [VirtualMachine::setJitAddress] (core.cpp 329-331, 880-883):
    [compiledFunctions_[functionIndex] = value]. *)
Definition setJitAddress (functionIndex : Z) (value : option J)
  : M (VirtualMachine J P) unit :=
  fun vm =>
    if (0 <=? functionIndex) && (functionIndex <? size (compiledFunctions_ vm))
    then Ok tt (mkVM (cfg_ vm) (module_ vm)
                     (<[Z.to_nat functionIndex := value]> (compiledFunctions_ vm)))
    else Undefined.

(** [compiledFunctions_.push_back(func)] *)
Definition push_back (func : option J) : M (VirtualMachine J P) unit :=
  fun vm => Ok tt (mkVM (cfg_ vm) (module_ vm) (compiledFunctions_ vm ++ [func])).

(** The [while] loop of [generateAllCode]: one turn for each function
    index from [functionIndex] on. *)
Fixpoint generateFrom (turns : nat) (functionIndex : Z)
  : M (VirtualMachine J P) unit :=
  match turns with
  | O => ret tt
  | S turns' =>
      push_back (generateCode functionIndex) ;;;
      generateFrom turns' (functionIndex + 1)
  end.

(** [VirtualMachine::generateAllCode] (core.cpp 905-917) *)
Definition generateAllCode : M (VirtualMachine J P) unit :=
  let* vm := get in
  assert (jit (cfg_ vm)) ;;;
  generateFrom (Z.to_nat (getFunctionCount vm)) 0.

End WithCompiler.

End Facade.

(** ** The entry points compiled code calls back (core.cpp 156-176) *)

Module LegacyEntry.
Import Exec.

Section WithInterpreter.
(** [context->interpret] *)
Variable interpret : Z -> Exec StackElement.

(** [interpret_0] ... [interpret_3] *)
Definition interpret_0 (functionIndex : Z) : Exec StackElement :=
  interpret functionIndex.

Definition interpret_1 (functionIndex : Z) (p1 : StackElement)
  : Exec StackElement :=
  push p1 ;;;
  interpret functionIndex.

Definition interpret_2 (functionIndex : Z) (p1 p2 : StackElement)
  : Exec StackElement :=
  push p1 ;;;
  push p2 ;;;
  interpret functionIndex.

Definition interpret_3 (functionIndex : Z) (p1 p2 p3 : StackElement)
  : Exec StackElement :=
  push p1 ;;;
  push p2 ;;;
  push p3 ;;;
  interpret functionIndex.

End WithInterpreter.

End LegacyEntry.

(** ** The producer tool (compile.js)

    The tool that turns a source program into the binary module the
    virtual machine loads.  A JavaScript object used as a map is a finite
    map together with the members every object inherits; an array is a
    list whose holes and [undefined] elements are [None]. *)

Module CompileJs.

(** The JavaScript values the tables and operands of the tool hold:
    [undefined], a Number with an integer value, or a value that is no
    number (a member inherited from [Object.prototype], or the string a
    [+] makes of one).  A value of the last kind is truthy, differs from
    [undefined], and converts to the Number [NaN]. *)
Inductive JsValue : Type :=
| JsUndefined
| JsNumber (n : Z)
| JsOther.

(** The test [if (v)]. *)
Definition truthy (v : JsValue) : bool :=
  match v with
  | JsUndefined => false
  | JsNumber n => negb (n =? 0)
  | JsOther => true
  end.

(** The conversion the bit operators [<<], [|] and [&] apply to an
    operand. *)
Definition ToInt32 (v : JsValue) : Z :=
  match v with
  | JsNumber n => to_signed 32 n
  | JsUndefined | JsOther => 0
  end.

(** What a function of the tool gives: its result, or the string it
    throws, made of [what] and of the text of [value]. *)
Inductive completion (A : Type) : Type :=
| Normal (a : A)
| Thrown (what : string) (value : option JsValue).
Arguments Normal {A} a.
Arguments Thrown {A} what value.

(** An own property of an object literal. *)
Fixpoint property {A} (object : list (string * A)) (key : string) : option A :=
  match object with
  | [] => None
  | (k, v) :: rest => if String.eqb k key then Some v else property rest key
  end.

(** [var OperatorCode = Object.freeze({...})] (compile.js 47-71) *)
Definition OperatorCode : list (string * Z) :=
  [ ("END_SECTION", 0); ("FUNCTION_CALL", 1); ("FUNCTION_RETURN", 2);
    ("PRIMITIVE_CALL", 3); ("DUPLICATE", 4); ("DROP", 5);
    ("PUSH_FROM_VAR", 6); ("POP_INTO_VAR", 7); ("ADD", 8); ("SUB", 9);
    ("MUL", 10); ("DIV", 11); ("INT_PUSH_CONSTANT", 12); ("NOT", 13);
    ("JMP", 14); ("JMP_EQ_EQ", 15); ("JMP_EQ_NEQ", 16); ("JMP_EQ_GT", 17);
    ("JMP_EQ_GE", 18); ("JMP_EQ_LT", 19); ("JMP_EQ_LE", 20);
    ("STR_PUSH_CONSTANT", 21); ("STR_JMP_NEQ", 23) ]%string.

(** [var Instruction = function (operator, operand)] (compile.js 101-115) *)
Record Instruction : Type := mkInstruction {
  operator : string;
  operand : JsValue
}.

(** [var SymbolTable = function ()] (compile.js 117-145): [this.next] and
    the own properties of [this.map]. *)
Record SymbolTable : Type := mkSymbolTable {
  next : Z;
  map : gmap string Z
}.

(** [new SymbolTable()] *)
Definition newSymbolTable : SymbolTable := mkSymbolTable 0 ∅.

(** [var LabelTable = function ()] (compile.js 147-169): [this.table]. *)
Abbreviation LabelTable := (list (option Z)).

(** [this.labels.instructionIndex(label)] for a label that is an array
    index. *)
Definition instructionIndex (label : nat) (table : LabelTable) : option Z :=
  match table !! label with
  | Some (Some offset) => Some offset
  | _ => None
  end.

(** [LabelTable.create]: [this.table.push(undefined)] returns the new
    length of the array. *)
Definition create (table : LabelTable) : nat * LabelTable :=
  (length (table ++ [None]), table ++ [None]).

(** [LabelTable.place]: [this.table[label] = offset]; an index at or
    beyond the length extends the array, leaving holes. *)
Definition place (label : nat) (offset : Z) (table : LabelTable) : LabelTable :=
  if (label <? length table)%nat
  then <[label := Some offset]> table
  else table ++ replicate (label - length table) None ++ [Some offset].

(** [function FunctionDefinition(outer)] (compile.js 179-245) *)
Record FunctionDefinition : Type := mkFunctionDefinition {
  args : SymbolTable;
  regs : SymbolTable;
  labels : LabelTable;
  instructions : list Instruction
}.

(** [new FunctionDefinition(outer)] *)
Definition newFunctionDefinition : FunctionDefinition :=
  mkFunctionDefinition newSymbolTable newSymbolTable [] [].

(** The operators [resolve] rewrites (compile.js 198-204). *)
Definition isJump (operator : string) : bool :=
  existsb (String.eqb operator)
    [ "JMP"; "JMP_EQ_EQ"; "JMP_EQ_NEQ"; "JMP_EQ_GT"; "JMP_EQ_GE";
      "JMP_EQ_LT"; "JMP_EQ_LE" ]%string.

Section WithPrototype.
(** The names of the members an object inherits from
    [Object.prototype]. *)
Variable inherited : string -> bool.

(** [OperatorCode[operator]] *)
Definition operatorCode (operator : string) : JsValue :=
  match property OperatorCode operator with
  | Some code => JsNumber code
  | None => if inherited operator then JsOther else JsUndefined
  end.

(** [Instruction.output] (compile.js 107-114): the value of [encoded]
    handed to [outputUInt32]. *)
Definition encoded (i : Instruction) : Z :=
  let encoded := to_signed 32 (Z.shiftl (ToInt32 (operatorCode (operator i))) 24) in
  let encoded :=
    if truthy (operand i)
    then to_signed 32 (Z.lor encoded (Z.land (ToInt32 (operand i)) 0x00FFFFFF))
    else encoded in
  to_signed 32 (Z.land encoded (to_signed 32 0xFFFFFFFF)).

(** [SymbolTable.lookup]: [this.map[symbol]] *)
Definition lookup (t : SymbolTable) (symbol : string) : JsValue :=
  match map t !! symbol with
  | Some id => JsNumber id
  | None => if inherited symbol then JsOther else JsUndefined
  end.

(** [SymbolTable.get]: the symbol is interned when [lookup] gives
    [undefined]. *)
Definition get (symbol : string) (t : SymbolTable) : JsValue * SymbolTable :=
  match lookup t symbol with
  | JsUndefined =>
      (JsNumber (next t),
       mkSymbolTable (next t + 1) (<[symbol := next t]> (map t)))
  | id => (id, t)
  end.

(** [this.table[label]] for the operand of an instruction. *)
Definition labelTarget (table : LabelTable) (label : JsValue) : option Z :=
  match label with
  | JsNumber n => if 0 <=? n then instructionIndex (Z.to_nat n) table else None
  | JsUndefined | JsOther => None
  end.

(** [FunctionDefinition.resolveLabel] (compile.js 186-192) *)
Definition resolveLabel (f : FunctionDefinition) (label : JsValue)
           (fromIndex : Z) : completion Z :=
  match labelTarget (labels f) label with
  | None => Thrown "Encountered label " (Some label)
  | Some target => Normal (target - fromIndex - 1)
  end.

(** The loop of [FunctionDefinition.resolve] (compile.js 195-209) from
    the instruction [index] on. *)
Fixpoint resolveFrom (f : FunctionDefinition) (index : Z)
         (rest : list Instruction) : completion (list Instruction) :=
  match rest with
  | [] => Normal []
  | instruction :: rest' =>
      let resolved :=
        if isJump (operator instruction)
        then match resolveLabel f (operand instruction) index with
             | Normal offset =>
                 Normal (mkInstruction (operator instruction) (JsNumber offset))
             | Thrown what value => Thrown what value
             end
        else Normal instruction in
      match resolved with
      | Normal instruction' =>
          match resolveFrom f (index + 1) rest' with
          | Normal rest'' => Normal (instruction' :: rest'')
          | Thrown what value => Thrown what value
          end
      | Thrown what value => Thrown what value
      end
  end.

(** [FunctionDefinition.resolve] *)
Definition resolve (f : FunctionDefinition) : completion FunctionDefinition :=
  match resolveFrom f 0 (instructions f) with
  | Normal resolved => Normal (mkFunctionDefinition (args f) (regs f) (labels f) resolved)
  | Thrown what value => Thrown what value
  end.

(** [FunctionDefinition.pushInstruction] *)
Definition pushInstruction (instruction : Instruction) (f : FunctionDefinition)
  : FunctionDefinition :=
  mkFunctionDefinition (args f) (regs f) (labels f) (instructions f ++ [instruction]).

(** [FunctionDefinition.localIndex] (compile.js 229-235): a register index
    that is truthy is returned with the number of arguments added; any
    other falls through to the lookup among the arguments. *)
Definition localIndex (f : FunctionDefinition) (name : string) : JsValue :=
  match lookup (regs f) name with
  | JsNumber index =>
      if index =? 0 then lookup (args f) name
      else JsNumber (index + next (args f))
  | JsOther => JsOther
  | JsUndefined => lookup (args f) name
  end.

(** [FunctionDefinition.placeLabel] *)
Definition placeLabel (label : nat) (f : FunctionDefinition) : FunctionDefinition :=
  mkFunctionDefinition (args f) (regs f)
    (place label (size (instructions f)) (labels f)) (instructions f).

(** [FunctionDefinition.createLabel] *)
Definition createLabel (f : FunctionDefinition) : nat * FunctionDefinition :=
  let (label, table) := create (labels f) in
  (label, mkFunctionDefinition (args f) (regs f) table (instructions f)).

(** [FirstPassCodeGen.emitPushFromVar] and [emitPopIntoVar]
    (compile.js 401-409) *)
Definition emitPushFromVar (name : string) (f : FunctionDefinition)
  : FunctionDefinition :=
  pushInstruction (mkInstruction "PUSH_FROM_VAR" (localIndex f name)) f.

Definition emitPopIntoVar (name : string) (f : FunctionDefinition)
  : FunctionDefinition :=
  pushInstruction (mkInstruction "POP_INTO_VAR" (localIndex f name)) f.

End WithPrototype.

End CompileJs.

(** ** Vocabulary of the further properties *)

Module MoreProps.

(** The comparison a conditional jump of the older revisions makes between
    its operands [l] (pushed first) and [r] (on top). *)
Definition oldComparison (bc : OldBytecode.ByteCode) : option (Z -> Z -> Prop) :=
  match bc with
  | OldBytecode.INT_JMP_EQ => Some (fun l r => l = r)
  | OldBytecode.INT_JMP_NEQ => Some (fun l r => l <> r)
  | OldBytecode.INT_JMP_GT => Some (fun l r => l > r)
  | OldBytecode.INT_JMP_GE => Some (fun l r => l >= r)
  | OldBytecode.INT_JMP_LT => Some (fun l r => l < r)
  | OldBytecode.INT_JMP_LE => Some (fun l r => l <= r)
  | _ => None
  end.

(** The values of a [std::int64_t]. *)
Definition is_int64 (x : Z) : Prop := - 2 ^ 63 <= x < 2 ^ 63.

(** The cells of an operand stack from [p] upwards hold the values [ps],
    in this order. *)
Fixpoint omCellsFrom {Heap} (c : Om.ExecutionContext Heap) (p : Z)
         (ps : list Om.Value) : Prop :=
  match ps with
  | [] => True
  | a :: rest => omCell c p = Some a /\ omCellsFrom c (p + 1) rest
  end.

(** The values [ps] are the last pushed, the last element on top. *)
Definition omOnTop {Heap} (c : Om.ExecutionContext Heap) (ps : list Om.Value) : Prop :=
  omCellsFrom c (omTop c - size ps) ps.

(** The context [c] with the cell [i] of its operand stack overwritten
    and its stack pointer moved to [p]. *)
Definition omWrite {Heap} (c : Om.ExecutionContext Heap) (p i : Z) (v : Om.Value)
  : Om.ExecutionContext Heap :=
  Om.mkContext (Om.mkStack p (<[Z.to_nat i := v]> (Om.cells (Om.stack_ c))))
               (Om.programCounter_ c) (Om.omContext_ c).

(** The invariant of a symbol table of the producer tool: the
    identifiers handed out are the numbers below [next], each to one
    symbol. *)
Definition interned (t : CompileJs.SymbolTable) : Prop :=
  0 <= CompileJs.next t /\
  (forall symbol id,
      CompileJs.map t !! symbol = Some id -> 0 <= id < CompileJs.next t) /\
  (forall symbol symbol' id,
      CompileJs.map t !! symbol = Some id ->
      CompileJs.map t !! symbol' = Some id -> symbol = symbol') /\
  (forall id, 0 <= id < CompileJs.next t ->
              exists symbol, CompileJs.map t !! symbol = Some id).

End MoreProps.
Import MoreProps.

(** ** Further sample data *)

Module MoreSamples.

(** An object runtime with one object of one slot: the heap is the value
    of the slot, every lookup finds it. *)
Definition oneSlot : Om.Runtime :=
  Om.mkRuntime Om.Value unit (Om.VInteger 0)
    (ret 0)
    (fun _ _ => ret (Some tt))
    (fun _ _ => fun c => Ok (Om.omContext_ c) c)
    (fun _ _ v => fun c => Ok tt (Om.mkContext (Om.stack_ c) (Om.programCounter_ c) v))
    (fun _ _ => ret (Some 0))
    tt
    (ret tt).

(** A context of [oneSlot] whose stack holds the values [vs], oldest
    first, and whose slot holds [slot]. *)
Definition slotContext (vs : list Om.Value) (slot : Om.Value) : Om.Context oneSlot :=
  Om.mkContext
    (Om.mkStack (size vs) (vs ++ replicate (8 - length vs) (Om.VInteger 0)))
    0 slot.

(** A native entry that returns the number of its register arguments. *)
Definition countArgs : Om.JitFunction Samples.noObjects :=
  fun args => ret (Om.VInteger (size args)).



(** The older [less]: [INT_JMP_LT] over a [DROP] to the sentinel. *)
Definition old_less : FunctionSpec :=
  mkFunctionSpec "less" 0 0
    [ Samples.old OldBytecode.INT_JMP_LT 1; Samples.old OldBytecode.DROP 0;
      END_SECTION_INSTRUCTION ].

(** [less] as the producer tool writes it: the jump to the label 1, placed
    at the instruction 2, resolved at the instruction 0 and encoded. *)
Definition compiled_less : FunctionSpec :=
  mkFunctionSpec "less" 0 0
    [ mkRaw (CompileJs.encoded (fun _ => false)
               (CompileJs.mkInstruction "JMP_EQ_LT" (CompileJs.JsNumber 1)));
      Samples.op DROP 0; Samples.op FUNCTION_RETURN 0;
      END_SECTION_INSTRUCTION ].

(** [skip]: a [JMP] to the same label, over the [DROP]. *)
Definition compiled_skip : FunctionSpec :=
  mkFunctionSpec "skip" 0 0
    [ mkRaw (CompileJs.encoded (fun _ => false)
               (CompileJs.mkInstruction "JMP" (CompileJs.JsNumber 1)));
      Samples.op DROP 0; Samples.op FUNCTION_RETURN 0;
      END_SECTION_INSTRUCTION ].

(** The labels of the two: the label 0 is not placed, the label 1 is
    placed at the instruction 2. *)
Definition placed : CompileJs.FunctionDefinition :=
  CompileJs.mkFunctionDefinition CompileJs.newSymbolTable
    CompileJs.newSymbolTable [None; Some 2] [].

End MoreSamples.

(** * Properties *)

Section InstructionFacts.

Lemma land_mask_mod (x : Z) : Z.land x PARAMETER_MASK = x mod 2 ^ 24.
Proof.
  change PARAMETER_MASK with (Z.ones 24).
  apply Z.land_ones. lia.
Qed.

Lemma toRaw_range (bc : ByteCode) : 0 <= toRaw bc < 256.
Proof. destruct bc; simpl; lia. Qed.

Lemma ofRaw_toRaw (bc : ByteCode) : ofRaw (toRaw bc) = Some bc.
Proof. destruct bc; reflexivity. Qed.

Lemma raw_mkInstruction (b p : Z) :
  0 <= b < 256 ->
  raw (mkInstruction b p) = b * 2 ^ 24 + p mod 2 ^ 24.
Proof.
  intros Hb. unfold mkInstruction, uint32, to_unsigned, BYTECODE_SHIFT.
  cbn [raw].
  rewrite land_mask_mod, Z.shiftl_mul_pow2 by lia.
  rewrite (Z.mod_small (b * 2 ^ 24)) by lia.
  replace ((p mod 2 ^ 32) mod 2 ^ 24) with (p mod 2 ^ 24).
  2:{ replace (p mod 2 ^ 32) with (p + (- (p / 2 ^ 32) * 2 ^ 8) * 2 ^ 24)
        by (pose proof (Z.div_mod p (2 ^ 32) ltac:(lia)); lia).
      rewrite Z.mod_add by lia. reflexivity. }
  rewrite <- Z.lxor_lor, <- Z.add_nocarry_lxor; try reflexivity.
  all: rewrite <- Z.shiftl_mul_pow2 by lia;
    rewrite <- (Z.land_ones p 24) by lia;
    apply Z.bits_inj'; intros n Hn;
    rewrite Z.land_spec, Z.bits_0, Z.land_spec;
    destruct (Z.ltb_spec n 24);
    [ rewrite Z.shiftl_spec_low by lia; reflexivity
    | rewrite Z.ones_spec_high by lia;
      rewrite !andb_false_r; reflexivity ].
Qed.

Lemma byteCode_mkInstruction (b p : Z) :
  0 <= b < 256 -> byteCode (mkInstruction b p) = b.
Proof.
  intros Hb. unfold byteCode. rewrite raw_mkInstruction by assumption.
  unfold uint8, to_unsigned, BYTECODE_SHIFT.
  rewrite Z.shiftr_div_pow2 by lia.
  pose proof (Z.mod_pos_bound p (2 ^ 24) ltac:(lia)).
  rewrite Z.div_add_l by lia.
  rewrite (Z.div_small (p mod 2 ^ 24)) by lia.
  rewrite Z.add_0_r. apply Z.mod_small. lia.
Qed.

Lemma land_raw_mask (b p : Z) :
  0 <= b < 256 ->
  Z.land (raw (mkInstruction b p)) PARAMETER_MASK = p mod 2 ^ 24.
Proof.
  intros Hb. rewrite raw_mkInstruction, land_mask_mod by assumption.
  rewrite Z.add_comm, Z.mod_add by lia.
  apply Z.mod_mod. lia.
Qed.

Lemma land_bit23 (x : Z) :
  0 <= x < 2 ^ 24 ->
  Z.land x 0x00800000 = if x <? 2 ^ 23 then 0 else 2 ^ 23.
Proof.
  intros Hx.
  destruct (Z.ltb_spec x (2 ^ 23)).
  - apply Z.bits_inj'; intros n Hn.
    rewrite Z.land_spec, Z.bits_0.
    destruct (Z.eq_dec n 23) as [-> | Hne].
    + rewrite (Z.bits_above_log2 x 23); [reflexivity | lia |].
      destruct (Z.eq_dec x 0) as [-> | ?]; [simpl; lia |].
      apply Z.log2_lt_pow2; lia.
    + change 0x00800000 with (2 ^ 23).
      rewrite (Z.pow2_bits_false 23 n) by lia.
      apply andb_false_r.
  - replace x with (2 ^ 23 + (x - 2 ^ 23)) at 1 by lia.
    apply Z.bits_inj'; intros n Hn.
    rewrite Z.land_spec.
    change 0x00800000 with (2 ^ 23).
    destruct (Z.eq_dec n 23) as [-> | Hne].
    + rewrite Z.pow2_bits_true by lia. rewrite andb_true_r.
      rewrite Z.testbit_eqb by lia.
      replace ((2 ^ 23 + (x - 2 ^ 23)) / 2 ^ 23) with 1.
      * reflexivity.
      * apply Z.div_unique with (r := x - 2 ^ 23); lia.
    + rewrite !(Z.pow2_bits_false 23 n) by lia.
      apply andb_false_r.
Qed.

Lemma lor_high_byte (x : Z) :
  0 <= x < 2 ^ 24 -> Z.lor x 0xFF000000 = x + 0xFF000000.
Proof.
  intros Hx.
  rewrite <- Z.lxor_lor, <- Z.add_nocarry_lxor; try reflexivity.
  all: change 0xFF000000 with (Z.shiftl 255 24);
    apply Z.bits_inj'; intros n Hn;
    rewrite Z.land_spec, Z.bits_0;
    destruct (Z.ltb_spec n 24);
    [ rewrite Z.shiftl_spec_low by lia; apply andb_false_r
    | rewrite <- (Z.mod_small x (2 ^ 24)) by lia;
      rewrite Z.mod_pow2_bits_high by lia; reflexivity ].
Qed.

Lemma int32_small (x : Z) : - 2 ^ 31 <= x < 2 ^ 31 -> int32 x = x.
Proof.
  intros Hx. unfold int32, to_signed.
  change (2 ^ (32 - 1)) with (2 ^ 31).
  destruct (Z_lt_le_dec x 0).
  - replace (x mod 2 ^ 32) with (x + 2 ^ 32).
    + destruct (Z.ltb_spec (x + 2 ^ 32) (2 ^ 31)); lia.
    + apply Z.mod_unique with (q := -1); lia.
  - rewrite Z.mod_small by lia.
    destruct (Z.ltb_spec x (2 ^ 31)); lia.
Qed.

Lemma uint32_small (x : Z) : 0 <= x < 2 ^ 32 -> uint32 x = x.
Proof. intros Hx. apply Z.mod_small. exact Hx. Qed.

Lemma int32_range (x : Z) : is_int32 (int32 x).
Proof.
  unfold is_int32, INT32_MIN, INT32_MAX, int32, to_signed.
  change (2 ^ (32 - 1)) with (2 ^ 31).
  pose proof (Z.mod_pos_bound x (2 ^ 32) ltac:(lia)).
  destruct (Z.ltb_spec (x mod 2 ^ 32) (2 ^ 31)); lia.
Qed.

Lemma parameter_mkInstruction (b p : Z) :
  0 <= b < 256 -> - 2 ^ 23 <= p < 2 ^ 23 ->
  parameter (mkInstruction b p) = p.
Proof.
  intros Hb Hp. unfold parameter.
  rewrite land_raw_mask by assumption.
  pose proof (Z.mod_pos_bound p (2 ^ 24) ltac:(lia)) as Hx.
  rewrite (int32_small (p mod 2 ^ 24)) by lia.
  rewrite land_bit23 by assumption.
  destruct (Z_lt_le_dec p 0) as [Hneg | Hpos].
  - assert (Hm : p mod 2 ^ 24 = p + 2 ^ 24)
      by (symmetry; apply Z.mod_unique with (q := -1); lia).
    rewrite Hm.
    destruct (Z.ltb_spec (p + 2 ^ 24) (2 ^ 23)); [lia |].
    change (negb (2 ^ 23 =? 0)) with true. cbv iota.
    rewrite uint32_small by lia.
    rewrite lor_high_byte by lia.
    unfold int32, to_signed.
    replace (p + 2 ^ 24 + 0xFF000000) with (p + 2 ^ 32) by lia.
    rewrite (Z.mod_small (p + 2 ^ 32)) by lia.
    change (2 ^ (32 - 1)) with (2 ^ 31).
    destruct (Z.ltb_spec (p + 2 ^ 32) (2 ^ 31)); lia.
  - rewrite (Z.mod_small p) by lia.
    destruct (Z.ltb_spec p (2 ^ 23)); [reflexivity | lia].
Qed.

End InstructionFacts.

(** C5. Encoding an instruction from an opcode and an immediate in
    [-2^23, 2^23) and decoding it with [byteCode()] and [parameter()]
    (the 24-bit immediate sign extended to 32 bits) returns the opcode and
    the immediate. *)
Theorem encode_decode_roundtrip (bc : ByteCode) (p : Param) :
  - 2 ^ 23 <= p < 2 ^ 23 ->
  decode (mkInstruction (toRaw bc) p) = (toRaw bc, p) /\
  ofRaw (byteCode (mkInstruction (toRaw bc) p)) = Some bc.
Proof.
  intros Hp. pose proof (toRaw_range bc) as Hb.
  unfold decode.
  rewrite byteCode_mkInstruction, parameter_mkInstruction by assumption.
  split; [reflexivity | apply ofRaw_toRaw].
Qed.

Lemma encode_decode_roundtrip_witness :
  - 2 ^ 23 <= -5 < 2 ^ 23 /\
  (decode (mkInstruction (toRaw JMP_EQ_LT) (-5)) = (toRaw JMP_EQ_LT, -5) /\
   ofRaw (byteCode (mkInstruction (toRaw JMP_EQ_LT) (-5))) = Some JMP_EQ_LT).
Proof.
  split; [lia | apply (encode_decode_roundtrip JMP_EQ_LT (-5)); lia].
Defined.


(** ** The result monad *)

Section OutcomeFacts.
Context {S A B : Type}.

Lemma bind_Ok (m : M S A) (k : A -> M S B) (s s' : S) (a : A) :
  m s = Ok a s' -> bind m k s = k a s'.
Proof. intros H. unfold bind. rewrite H. reflexivity. Qed.

Lemma bind_Throw (m : M S A) (k : A -> M S B) (s s' : S) (e : exn) :
  m s = Throw e s' -> bind m k s = Throw e s'.
Proof. intros H. unfold bind. rewrite H. reflexivity. Qed.

Lemma bind_Undefined (m : M S A) (k : A -> M S B) (s : S) :
  m s = Undefined -> bind m k s = Undefined.
Proof. intros H. unfold bind. rewrite H. reflexivity. Qed.

(** A sequence returns only if its first part does. *)
Lemma bind_Ok_inv (m : M S A) (k : A -> M S B) (s s'' : S) (b : B) :
  bind m k s = Ok b s'' ->
  exists a s', m s = Ok a s' /\ k a s' = Ok b s''.
Proof.
  unfold bind. destruct (m s) as [a s' | | | |]; try discriminate.
  intros H. exists a, s'. split; [reflexivity | exact H].
Qed.

(** A sequence throws where its first part does, or later. *)
Lemma bind_Throw_inv (m : M S A) (k : A -> M S B) (s s'' : S) (e : exn) :
  bind m k s = Throw e s'' ->
  m s = Throw e s'' \/ exists a s', m s = Ok a s' /\ k a s' = Throw e s''.
Proof.
  unfold bind. destruct (m s) as [a s' | e' s' | | |]; try discriminate.
  - intros H. right. exists a, s'. split; [reflexivity | exact H].
  - intros H. left. injection H as -> ->. reflexivity.
Qed.

End OutcomeFacts.

Lemma vector_at_Some {A} (v : list A) (i : Z) (x : A) :
  vector_at v i = Some x <-> 0 <= i < size v /\ v !! Z.to_nat i = Some x.
Proof.
  unfold vector_at, size.
  destruct (Z.leb_spec 0 i) as [Hlo | Hlo],
           (Z.ltb_spec i (Z.of_nat (length v))) as [Hhi | Hhi]; simpl;
    split; intros Hx; try discriminate; try lia; tauto.
Qed.

Lemma vector_at_defined {A} (v : list A) (i : Z) :
  0 <= i < size v -> exists x, vector_at v i = Some x.
Proof.
  intros Hi. unfold vector_at, size in *.
  destruct (Z.leb_spec 0 i), (Z.ltb_spec i (Z.of_nat (length v))); try lia.
  simpl. apply lookup_lt_is_Some_2. lia.
Qed.

(** ** The compiled-code table *)

Section JitTable.
Context {J P : Type}.
Variable vm : VM.VirtualMachine J P.

Lemma getJitAddress_beyond (i : Z) :
  size (compiledFunctions_ vm) <= i -> getJitAddress vm i = Some None.
Proof.
  intros Hi. unfold getJitAddress.
  destruct (Z.leb_spec (size (compiledFunctions_ vm)) i); [reflexivity | lia].
Qed.

(** For an index of type [std::size_t] the look-up never leaves the
    table. *)
Lemma getJitAddress_in_bounds (i : Z) :
  0 <= i -> exists entry, getJitAddress vm i = Some entry.
Proof.
  intros Hi. unfold getJitAddress.
  destruct (Z.leb_spec (size (compiledFunctions_ vm)) i).
  - exists None. reflexivity.
  - apply vector_at_defined. lia.
Qed.

End JitTable.

(** C10. For a function index at or beyond the number of entries of the
    compiled-code table (so for every index while the table is empty),
    [getJitAddress] returns null, [callFunction] on that index interprets
    the function, and no look-up of [getJitAddress] reads outside the
    table. *)
Theorem getJitAddress_null_beyond_table
        (ofRaw : RawByteCode -> option OldBytecode.ByteCode)
        (vm : Exec.VirtualMachine) (i : Z) :
  size (compiledFunctions_ vm) <= i ->
  getJitAddress vm i = Some None /\
  (forall fuel c,
      Interp.callFunction ofRaw vm (S fuel) i c
      = Interp.interpretFunction ofRaw vm fuel i c) /\
  (compiledFunctions_ vm = [] ->
   forall j, 0 <= j -> getJitAddress vm j = Some None) /\
  (forall j, 0 <= j -> getJitAddress vm j <> None).
Proof.
  intros Hi. split; [| split; [| split]].
  - apply getJitAddress_beyond. exact Hi.
  - intros fuel c. cbn [Interp.callFunction].
    erewrite bind_Ok.
    2:{ unfold defined. rewrite (getJitAddress_beyond vm i Hi). reflexivity. }
    reflexivity.
  - intros Hempty j Hj. apply getJitAddress_beyond.
    rewrite Hempty. exact Hj.
  - intros j Hj. destruct (getJitAddress_in_bounds vm j Hj) as [e He].
    rewrite He. discriminate.
Qed.

Lemma getJitAddress_null_beyond_table_witness :
  size (compiledFunctions_ Samples.oldVM) <= 2 /\
  getJitAddress Samples.oldVM 2 = Some None.
Proof.
  assert (H : size (compiledFunctions_ Samples.oldVM) <= 2)
    by (vm_compute; discriminate).
  split; [exact H |].
  exact (proj1 (getJitAddress_null_beyond_table
                  OldBytecode.ofRaw Samples.oldVM 2 H)).
Defined.

(** ** The operand stack of the interpreter over [Om::Value] *)

Section OmStack.
Variable rt : Om.Runtime.
Implicit Types c : Om.Context rt.

Lemma om_pop_Ok c (v : Om.Value) :
  omCell c (omTop c - 1) = Some v ->
  Om.pop rt c = Ok v (omSetTop c (omTop c - 1)).
Proof.
  intros H. unfold Om.pop, Om.Stack_pop, omCell, omTop in *.
  rewrite H. reflexivity.
Qed.

Lemma om_pop_inv c c' (v : Om.Value) :
  Om.pop rt c = Ok v c' ->
  omCell c (omTop c - 1) = Some v /\ c' = omSetTop c (omTop c - 1).
Proof.
  unfold Om.pop, Om.Stack_pop, omCell, omTop.
  destruct (vector_at (Om.cells (Om.stack_ c)) (Om.top_ (Om.stack_ c) - 1));
    [| discriminate].
  intros H. injection H as -> <-. split; reflexivity.
Qed.

Lemma om_popInteger_Ok c (i : Z) :
  omCell c (omTop c - 1) = Some (Om.VInteger i) ->
  Om.popInteger rt c = Ok (int32 i) (omSetTop c (omTop c - 1)).
Proof.
  intros H. unfold Om.popInteger.
  rewrite (bind_Ok _ _ _ _ _ (om_pop_Ok c _ H)).
  reflexivity.
Qed.

Lemma om_peek_Ok c (v : Om.Value) :
  omCell c (omTop c - 1) = Some v -> Om.peek rt c = Ok v c.
Proof.
  intros H. unfold Om.peek, Om.Stack_peek, omCell, omTop in *.
  rewrite H. reflexivity.
Qed.

Lemma om_push_Ok c (v : Om.Value) :
  0 <= omTop c < size (Om.cells (Om.stack_ c)) ->
  Om.push rt v c
  = Ok tt (Om.mkContext
             (Om.mkStack (omTop c + 1)
                         (<[Z.to_nat (omTop c) := v]> (Om.cells (Om.stack_ c))))
             (Om.programCounter_ c) (Om.omContext_ c)).
Proof.
  intros H. unfold Om.push, Om.liftStack, Om.Stack_push, omTop in *.
  destruct (Z.leb_spec 0 (Om.top_ (Om.stack_ c))); [| lia].
  destruct (Z.ltb_spec (Om.top_ (Om.stack_ c)) (size (Om.cells (Om.stack_ c))));
    [| lia].
  reflexivity.
Qed.

Lemma om_push_inv c c' (v : Om.Value) :
  Om.push rt v c = Ok tt c' ->
  omTop c' = omTop c + 1 /\ omCell c' (omTop c) = Some v.
Proof.
  unfold Om.push, Om.liftStack, Om.Stack_push, omTop, omCell.
  destruct (Z.leb_spec 0 (Om.top_ (Om.stack_ c))) as [Hlo | Hlo];
    [| discriminate].
  destruct (Z.ltb_spec (Om.top_ (Om.stack_ c)) (size (Om.cells (Om.stack_ c))))
    as [Hhi | Hhi]; [| discriminate].
  cbn [andb]. intros H. injection H as <-. cbn [Om.stack_ Om.top_ Om.cells].
  split; [reflexivity |].
  apply vector_at_Some. unfold size in *. rewrite length_insert.
  split; [lia |].
  apply list_lookup_insert_eq. lia.
Qed.

Lemma omCell_setTop c (p i : Z) : omCell (omSetTop c p) i = omCell c i.
Proof. reflexivity. Qed.

Lemma omTop_setTop c (p : Z) : omTop (omSetTop c p) = p.
Proof. reflexivity. Qed.

(** X1. [doDuplicate] pushes a second copy of the top value and leaves
    every other cell as it was (core.cpp 1167-1169). *)
Lemma om_doDuplicate c (v : Om.Value) :
  omCell c (omTop c - 1) = Some v ->
  omTop c < size (Om.cells (Om.stack_ c)) ->
  exists c',
    Om.doDuplicate rt c = Ok tt c' /\
    omTop c' = omTop c + 1 /\
    omCell c' (omTop c) = Some v /\
    omCell c' (omTop c - 1) = Some v /\
    (forall i, i <> omTop c -> omCell c' i = omCell c i) /\
    Om.programCounter_ c' = Om.programCounter_ c.
Proof.
  intros Hv Hroom.
  assert (Hpos : 0 <= omTop c - 1) by (apply vector_at_Some in Hv; lia).
  eexists. split.
  - unfold Om.doDuplicate.
    rewrite (bind_Ok _ _ _ _ _ (om_peek_Ok c v Hv)).
    apply om_push_Ok. lia.
  - set (c' := Om.mkContext _ _ _).
    assert (Hcell : forall i, omCell c' i
              = vector_at (<[Z.to_nat (omTop c) := v]> (Om.cells (Om.stack_ c))) i)
      by reflexivity.
    assert (Hother : forall i, i <> omTop c -> omCell c' i = omCell c i).
    { intros i Hi. rewrite Hcell. unfold omCell, vector_at, size.
      rewrite length_insert.
      destruct ((0 <=? i) && (i <? Z.of_nat (length (Om.cells (Om.stack_ c)))))
        eqn:Hin; [| reflexivity].
      apply andb_true_iff in Hin. destruct Hin as [Hlo Hhi].
      apply Z.leb_le in Hlo.
      apply list_lookup_insert_ne. lia. }
    split; [reflexivity |].
    split.
    { rewrite Hcell. apply vector_at_Some. unfold size in *.
      rewrite length_insert.
      split; [lia |].
      apply list_lookup_insert_eq. lia. }
    split; [rewrite Hother by lia; exact Hv |].
    split; [exact Hother | reflexivity].
Qed.

End OmStack.

Lemma om_doDuplicate_witness :
  exists c',
    Om.doDuplicate Samples.noObjects (Samples.omStackOf [Om.VInteger 5])
    = Ok tt c' /\
    omTop c' = 2 /\
    omCell c' 1 = Some (Om.VInteger 5) /\
    omCell c' 0 = Some (Om.VInteger 5).
Proof.
  destruct (om_doDuplicate Samples.noObjects
              (Samples.omStackOf [Om.VInteger 5]) (Om.VInteger 5))
    as (c' & Hrun & Htop & Hnew & Hold & _).
  - reflexivity.
  - vm_compute. reflexivity.
  - exists c'. repeat split; assumption.
Defined.

(** ** Arithmetic and comparisons of the interpreter over [Om::Value] *)

Section OmArithmetic.
Variable rt : Om.Runtime.
Implicit Types c : Om.Context rt.

Lemma int32_id (x : Z) : is_int32 x -> int32 x = x.
Proof.
  unfold is_int32, INT32_MIN, INT32_MAX. intros H.
  apply int32_small. lia.
Qed.

(** The two reads [right = pop().getInteger()], [left = pop().getInteger()]. *)
Lemma om_pop_operands {A} (k : Z -> Z -> Om.Exec rt A) c (l r : Z) :
  omCell c (omTop c - 1) = Some (Om.VInteger r) ->
  omCell c (omTop c - 2) = Some (Om.VInteger l) ->
  is_int32 l -> is_int32 r ->
  bind (Om.popInteger rt) (fun right =>
    bind (Om.popInteger rt) (fun left => k left right)) c
  = k l r (omSetTop c (omTop c - 2)).
Proof.
  intros Hr Hl Il Ir.
  rewrite (bind_Ok _ _ _ _ _ (om_popInteger_Ok rt c r Hr)).
  assert (Hl' : omCell (omSetTop c (omTop c - 1))
                       (omTop (omSetTop c (omTop c - 1)) - 1)
                = Some (Om.VInteger l)).
  { rewrite omTop_setTop, omCell_setTop.
    replace (omTop c - 1 - 1) with (omTop c - 2) by lia. exact Hl. }
  rewrite (bind_Ok _ _ _ _ _ (om_popInteger_Ok rt _ l Hl')).
  rewrite omTop_setTop.
  replace (omTop c - 1 - 1) with (omTop c - 2) by lia.
  rewrite (int32_id l Il), (int32_id r Ir).
  reflexivity.
Qed.

(** X2. For a divisor other than zero, and unless [INT32_MIN] is divided
    by -1, [doDiv] (core.cpp 1205-1211) pushes the quotient, truncated
    towards zero, in place of the two operands. *)
Lemma om_doDiv_quotient c (l r : Z) :
  omCell c (omTop c - 1) = Some (Om.VInteger r) ->
  omCell c (omTop c - 2) = Some (Om.VInteger l) ->
  is_int32 l -> is_int32 r ->
  r <> 0 -> ~ (l = INT32_MIN /\ r = -1) ->
  Om.doDiv rt c
  = Om.push rt (Om.VInteger (Z.quot l r)) (omSetTop c (omTop c - 2)).
Proof.
  intros Hr Hl Il Ir Hnz Hno. unfold Om.doDiv.
  rewrite (om_pop_operands _ c l r Hr Hl Il Ir).
  unfold Om.int32_div.
  destruct (Z.eqb_spec r 0); [contradiction |].
  destruct (Z.eqb_spec l INT32_MIN), (Z.eqb_spec r (-1)); try tauto;
    reflexivity.
Qed.

End OmArithmetic.

Lemma om_doDiv_quotient_witness :
  Om.doDiv Samples.noObjects
    (Samples.omStackOf [Om.VInteger (-7); Om.VInteger 2])
  = Om.push Samples.noObjects (Om.VInteger (-3))
      (omSetTop (Samples.omStackOf [Om.VInteger (-7); Om.VInteger 2]) 0).
Proof.
  apply (om_doDiv_quotient Samples.noObjects
           (Samples.omStackOf [Om.VInteger (-7); Om.VInteger 2]) (-7) 2).
  - reflexivity.
  - reflexivity.
  - unfold is_int32, INT32_MIN, INT32_MAX. lia.
  - unfold is_int32, INT32_MIN, INT32_MAX. lia.
  - discriminate.
  - intros [_ H]. discriminate H.
Defined.

(** C2 (the code departs from the claim).  With the divisor [r = 0] on top
    of the stack, [doDiv] evaluates the C++ expression [left / right]
    without any test of [right]: nothing is thrown, the division is
    undefined behaviour. *)
Theorem doDiv_by_zero_undefined (rt : Om.Runtime) (c : Om.Context rt) (l : Z) :
  omCell c (omTop c - 1) = Some (Om.VInteger 0) ->
  omCell c (omTop c - 2) = Some (Om.VInteger l) ->
  is_int32 l ->
  Om.doDiv rt c = Undefined /\
  (forall e c', Om.doDiv rt c <> Throw e c').
Proof.
  intros Hr Hl Il.
  assert (H : Om.doDiv rt c = Undefined).
  { unfold Om.doDiv.
    rewrite (om_pop_operands rt _ c l 0 Hr Hl Il); [reflexivity |].
    unfold is_int32, INT32_MIN, INT32_MAX. lia. }
  split; [exact H |].
  intros e c'. rewrite H. discriminate.
Qed.

Lemma doDiv_by_zero_undefined_witness :
  Om.doDiv Samples.noObjects
    (Om.mkContext (Om.mkStack 2 [Om.VInteger 1; Om.VInteger 0]) 0 tt)
  = Undefined.
Proof.
  refine (proj1 (doDiv_by_zero_undefined Samples.noObjects
            (Om.mkContext (Om.mkStack 2 [Om.VInteger 1; Om.VInteger 0]) 0 tt)
            1 _ _ _)).
  - reflexivity.
  - reflexivity.
  - unfold is_int32, INT32_MIN, INT32_MAX. lia.
Defined.

(** [d(l, r) { return l / r; }] run by [interpret]: the quotient is
    truncated towards zero, and [d(1, 0)] is undefined. *)
Example div_7_2 :
  Om.interpret Samples.noObjects Samples.omVM 10 4
    (Samples.omStackOf [Om.VInteger (-7); Om.VInteger 2])
  = Ok (Om.VInteger (-3))
       (Om.mkContext
          (Om.mkStack 0 (Om.VInteger (-7) :: Om.VInteger 2 :: Om.VInteger (-3)
                           :: Om.VInteger 2 :: replicate 4 (Om.VInteger 0)))
          3 tt).
Proof. vm_compute. reflexivity. Qed.

Example div_1_0 :
  Om.interpret Samples.noObjects Samples.omVM 10 4
    (Samples.omStackOf [Om.VInteger 1; Om.VInteger 0])
  = Undefined.
Proof. vm_compute. reflexivity. Qed.

(** ** The interpreter loop over [Om::Value] *)

(** An instruction that the [switch] reads as a bytecode other than
    [END_SECTION] is not the sentinel. *)
Lemma not_sentinel (i : Instruction) (bc : Bytecode.ByteCode) :
  ofRaw (byteCode i) = Some bc -> bc <> Bytecode.END_SECTION ->
  instruction_eqb i END_SECTION_INSTRUCTION = false.
Proof.
  intros Hbc Hne. unfold instruction_eqb.
  destruct (Z.eqb_spec (raw i) (raw END_SECTION_INSTRUCTION)) as [E |];
    [| reflexivity].
  exfalso. apply Hne.
  unfold byteCode in Hbc. rewrite E in Hbc.
  vm_compute in Hbc. congruence.
Qed.

Section OmLoop.
Variable rt : Om.Runtime.
Variable vm : Om.VirtualMachine rt.
Variable interpret : Z -> Om.Exec rt Om.Value.
Implicit Types c : Om.Context rt.

(** One turn of the loop at an instruction that is not the sentinel. *)
Lemma om_loop_turn (fuel : nat) (f : FunctionSpec) (args ip : Z)
      (i : Instruction) c :
  fetch f ip = Some i ->
  instruction_eqb i END_SECTION_INSTRUCTION = false ->
  Om.interpretLoop rt vm interpret (S fuel) f args ip c
  = bind (Om.dispatch rt vm interpret args ip i)
      (fun d =>
         match d with
         | Returned result => ret result
         | Break ip' =>
             bind (Om.incrementProgramCounter rt)
                  (fun _ => Om.interpretLoop rt vm interpret fuel f args (ip' + 1))
         end) c.
Proof.
  intros Hf Hne. cbn [Om.interpretLoop].
  unfold bind at 1. unfold defined. rewrite Hf. cbn [ret].
  rewrite Hne. reflexivity.
Qed.

(** The loop at the sentinel (core.cpp 1052, 1143). *)
Lemma om_loop_sentinel (fuel : nat) (f : FunctionSpec) (args ip : Z) c :
  fetch f ip = Some END_SECTION_INSTRUCTION ->
  Om.interpretLoop rt vm interpret (S fuel) f args ip c
  = Throw (runtime_error "Reached end of function") c.
Proof.
  intros Hf. cbn [Om.interpretLoop].
  unfold bind. unfold defined. rewrite Hf. reflexivity.
Qed.

End OmLoop.

(** S2 of the end-to-end scenarios: [sumto(10)] is 55, and the stack
    pointer is back where the argument was pushed. *)
Example sumto_10 :
  Om.interpret Samples.noObjects Samples.omVM 200 5
    (Samples.omStackOf [Om.VInteger 10])
  = Ok (Om.VInteger 55)
       (Om.mkContext
          (Om.mkStack 0 [Om.VInteger 10; Om.VInteger 10; Om.VInteger 55;
                         Om.VInteger 55; Om.VInteger 10; Om.VInteger 0;
                         Om.VInteger 0; Om.VInteger 0])
          119 tt).
Proof. vm_compute. reflexivity. Qed.

(** ** Leaving the loop of [Om.interpret] *)

Section OmReturn.
Variable rt : Om.Runtime.
Variable vm : Om.VirtualMachine rt.
Variable interpret : Z -> Om.Exec rt Om.Value.
Implicit Types c : Om.Context rt.

Ltac no_return H :=
  let a := fresh "a" in
  let s1 := fresh "s" in
  let H1 := fresh "H" in
  first
    [ discriminate H
    | apply bind_Ok_inv in H; destruct H as (a & s1 & H1 & H);
      cbv [ret] in H; discriminate H ].

(** Only the [FUNCTION_RETURN] case of the [switch] returns: the result is
    the value under the stack pointer, and the stack pointer is set to
    [args] (core.cpp 1057-1062). *)
Lemma om_dispatch_returned (args ip : Z) (i : Instruction) c c1 (v : Om.Value) :
  Om.dispatch rt vm interpret args ip i c = Ok (Returned v) c1 ->
  ofRaw (byteCode i) = Some Bytecode.FUNCTION_RETURN /\
  omCell c (omTop c - 1) = Some v /\
  c1 = omSetTop c args.
Proof.
  unfold Om.dispatch. cbv zeta.
  destruct (ofRaw (byteCode i)) as [bc |]; [destruct bc |]; intros H;
    try solve [no_return H].
  apply bind_Ok_inv in H. destruct H as (result & cp & Hpop & H).
  apply om_pop_inv in Hpop. destruct Hpop as [Hcell ->].
  apply bind_Ok_inv in H. destruct H as ([] & cr & Hrestore & H).
  cbv [ret] in H. injection H as -> ->.
  unfold Om.restore, Om.liftStack in Hrestore.
  injection Hrestore as <-.
  split; [reflexivity |]. split; [exact Hcell | reflexivity].
Qed.

Lemma om_dispatch_return (args ip : Z) (i : Instruction) c (v : Om.Value) :
  ofRaw (byteCode i) = Some Bytecode.FUNCTION_RETURN ->
  omCell c (omTop c - 1) = Some v ->
  Om.dispatch rt vm interpret args ip i c = Ok (Returned v) (omSetTop c args).
Proof.
  intros Hbc Hv. unfold Om.dispatch. rewrite Hbc. cbv zeta.
  rewrite (bind_Ok _ _ _ _ _ (om_pop_Ok rt c v Hv)).
  reflexivity.
Qed.

(** When the loop returns, it has run to a [FUNCTION_RETURN]. *)
Lemma om_loop_returns (fuel : nat) (f : FunctionSpec) (args : Z) :
  forall (ip : Z) c c' (v : Om.Value),
    Om.interpretLoop rt vm interpret fuel f args ip c = Ok v c' ->
    exists (n : nat) (ipr : Z) (pre : Om.Context rt) (i : Instruction),
      (n < fuel)%nat /\
      runs (omTurn rt vm interpret f args) n (ip, c) (ipr, pre) /\
      fetch f ipr = Some i /\
      ofRaw (byteCode i) = Some Bytecode.FUNCTION_RETURN /\
      omCell pre (omTop pre - 1) = Some v /\
      c' = omSetTop pre args.
Proof.
  induction fuel as [| fuel IH]; intros ip c c' v H; [discriminate H |].
  cbn [Om.interpretLoop] in H.
  apply bind_Ok_inv in H. destruct H as (i' & c0 & Hfetch & H).
  unfold defined in Hfetch.
  destruct (fetch f ip) as [i |] eqn:Hf; [| discriminate Hfetch].
  cbv [ret] in Hfetch. injection Hfetch as <- <-.
  destruct (instruction_eqb i END_SECTION_INSTRUCTION) eqn:Hend;
    [discriminate H |].
  apply bind_Ok_inv in H. destruct H as (d & c1 & Hd & H).
  destruct d as [ip1 | result].
  - apply bind_Ok_inv in H. destruct H as ([] & c2 & Hpc & H).
    unfold Om.incrementProgramCounter in Hpc. injection Hpc as <-.
    destruct (IH _ _ _ _ H) as (n & ipr & pre & ir & Hn & Hruns & Hrest).
    exists (S n), ipr, pre, ir. split; [lia |].
    split; [| exact Hrest].
    eapply runs_turn; [| exact Hruns].
    unfold omTurn. rewrite Hf, Hend, Hd. reflexivity.
  - cbv [ret] in H. injection H as -> ->.
    apply om_dispatch_returned in Hd. destruct Hd as (Hbc & Hv & ->).
    exists O, ip, c, i. split; [lia |].
    split; [apply runs_here |].
    split; [exact Hf |].
    split; [exact Hbc |]. split; [exact Hv | reflexivity].
Qed.

Lemma om_turn_inv (f : FunctionSpec) (args ip : Z) c (s1 : Z * Om.Context rt) :
  omTurn rt vm interpret f args ip c = Some s1 ->
  exists (i : Instruction) (ip1 : Z) (c1 : Om.Context rt),
    fetch f ip = Some i /\
    instruction_eqb i END_SECTION_INSTRUCTION = false /\
    Om.dispatch rt vm interpret args ip i c = Ok (Break ip1) c1 /\
    s1 = (ip1 + 1, omTick c1).
Proof.
  unfold omTurn.
  destruct (fetch f ip) as [i |] eqn:Hf; [| discriminate].
  destruct (instruction_eqb i END_SECTION_INSTRUCTION) eqn:Hne; [discriminate |].
  destruct (Om.dispatch rt vm interpret args ip i c) as [[ip1 | v] c1 | | | |]
    eqn:Hd; try discriminate.
  intros H. injection H as <-.
  exists i, ip1, c1. repeat split; assumption || reflexivity.
Qed.

(** A run of [n] turns that ends at the sentinel makes the loop throw, as
    soon as the budget covers the [n] turns. *)
Lemma om_loop_reaches_sentinel (f : FunctionSpec) (args : Z) (n : nat) :
  forall (fuel : nat) (ip ipe : Z) c ce,
    runs (omTurn rt vm interpret f args) n (ip, c) (ipe, ce) ->
    fetch f ipe = Some END_SECTION_INSTRUCTION ->
    (n < fuel)%nat ->
    Om.interpretLoop rt vm interpret fuel f args ip c
    = Throw (runtime_error "Reached end of function") ce.
Proof.
  induction n as [| n IH]; intros fuel ip ipe c ce Hruns Hend Hfuel;
    (destruct fuel as [| fuel]; [lia |]); inversion Hruns; subst.
  - apply om_loop_sentinel. exact Hend.
  - match goal with Ht : omTurn _ _ _ _ _ _ _ = Some _ |- _ =>
      apply om_turn_inv in Ht;
      destruct Ht as (i & ip1 & c1 & Hf & Hne & Hd & ->)
    end.
    rewrite (om_loop_turn rt vm interpret fuel f args ip i c) by assumption.
    rewrite (bind_Ok _ _ _ _ _ Hd).
    cbn [bind Om.incrementProgramCounter].
    apply (IH fuel (ip1 + 1) ipe (omTick c1) ce); [assumption | exact Hend | lia].
Qed.

End OmReturn.

(** ** One turn of the loop of [Om.interpret] and what follows it *)

Section OmTurn.
Variable rt : Om.Runtime.
Variable vm : Om.VirtualMachine rt.
Variable interpret : Z -> Om.Exec rt Om.Value.
Implicit Types c : Om.Context rt.

Lemma om_turn_of_dispatch (f : FunctionSpec) (args ip ip1 : Z)
      (i : Instruction) c c1 :
  fetch f ip = Some i ->
  instruction_eqb i END_SECTION_INSTRUCTION = false ->
  Om.dispatch rt vm interpret args ip i c = Ok (Break ip1) c1 ->
  omTurn rt vm interpret f args ip c = Some (ip1 + 1, omTick c1).
Proof. intros Hf Hne Hd. unfold omTurn. rewrite Hf, Hne, Hd. reflexivity. Qed.

(** The loop takes the turn [omTurn] describes. *)
Lemma om_turn_loop (fuel : nat) (f : FunctionSpec) (args ip ip' : Z) c c' :
  omTurn rt vm interpret f args ip c = Some (ip', c') ->
  Om.interpretLoop rt vm interpret (S fuel) f args ip c
  = Om.interpretLoop rt vm interpret fuel f args ip' c'.
Proof.
  intros Ht. apply om_turn_inv in Ht.
  destruct Ht as (i & ip1 & c1 & Hf & Hne & Hd & Heq).
  injection Heq as -> ->.
  rewrite (om_loop_turn rt vm interpret fuel f args ip i c Hf Hne).
  rewrite (bind_Ok _ _ _ _ _ Hd). reflexivity.
Qed.

(** [FUNCTION_RETURN] ends the loop with the value on top of the stack. *)
Lemma om_loop_return_here (fuel : nat) (f : FunctionSpec) (args ip : Z)
      (i : Instruction) c (v : Om.Value) :
  fetch f ip = Some i ->
  ofRaw (byteCode i) = Some Bytecode.FUNCTION_RETURN ->
  omCell c (omTop c - 1) = Some v ->
  Om.interpretLoop rt vm interpret (S fuel) f args ip c
  = Ok v (omSetTop c args).
Proof.
  intros Hf Hbc Hv.
  assert (Hne : instruction_eqb i END_SECTION_INSTRUCTION = false).
  { apply (not_sentinel i _ Hbc). discriminate. }
  rewrite (om_loop_turn rt vm interpret fuel f args ip i c Hf Hne).
  rewrite (bind_Ok _ _ _ _ _
             (om_dispatch_return rt vm interpret args ip i c v Hbc Hv)).
  reflexivity.
Qed.

(** A run of [n] turns that ends at a [FUNCTION_RETURN] makes the loop
    return the value on top of the stack, as soon as the budget covers the
    [n] turns. *)
Lemma om_loop_reaches_return (f : FunctionSpec) (args : Z) (n : nat) :
  forall (fuel : nat) (ip ipe : Z) (i : Instruction) c ce (v : Om.Value),
    runs (omTurn rt vm interpret f args) n (ip, c) (ipe, ce) ->
    fetch f ipe = Some i ->
    ofRaw (byteCode i) = Some Bytecode.FUNCTION_RETURN ->
    omCell ce (omTop ce - 1) = Some v ->
    (n < fuel)%nat ->
    Om.interpretLoop rt vm interpret fuel f args ip c
    = Ok v (omSetTop ce args).
Proof.
  induction n as [| n IH]; intros fuel ip ipe i c ce v Hruns Hf Hbc Hv Hfuel;
    (destruct fuel as [| fuel]; [lia |]); inversion Hruns; subst.
  - apply (om_loop_return_here fuel f args ipe i ce v Hf Hbc Hv).
  - match goal with Ht : omTurn _ _ _ _ _ _ _ = Some ?s |- _ =>
      destruct s as [ip' c'];
      rewrite (om_turn_loop fuel f args ip ip' c c' Ht)
    end.
    apply (IH fuel ip' ipe i c' ce v); [assumption | exact Hf | exact Hbc
                                       | exact Hv | lia].
Qed.

(** What a turn of the loop means for the loop: it goes on where the turn
    leaves it; a run from there to the sentinel makes it throw, a run from
    there to a [FUNCTION_RETURN] makes it return. *)
Lemma om_turn_then (f : FunctionSpec) (args ip ip' : Z) c c' :
  omTurn rt vm interpret f args ip c = Some (ip', c') ->
  (forall fuel : nat,
      Om.interpretLoop rt vm interpret (S fuel) f args ip c
      = Om.interpretLoop rt vm interpret fuel f args ip' c') /\
  (forall (fuel n : nat) (ipe : Z) ce,
      runs (omTurn rt vm interpret f args) n (ip', c') (ipe, ce) ->
      fetch f ipe = Some END_SECTION_INSTRUCTION ->
      (S n < fuel)%nat ->
      Om.interpretLoop rt vm interpret fuel f args ip c
      = Throw (runtime_error "Reached end of function") ce) /\
  (forall (fuel n : nat) (ipe : Z) (ir : Instruction) ce (v : Om.Value),
      runs (omTurn rt vm interpret f args) n (ip', c') (ipe, ce) ->
      fetch f ipe = Some ir ->
      ofRaw (byteCode ir) = Some Bytecode.FUNCTION_RETURN ->
      omCell ce (omTop ce - 1) = Some v ->
      (S n < fuel)%nat ->
      Om.interpretLoop rt vm interpret fuel f args ip c
      = Ok v (omSetTop ce args)).
Proof.
  intros Ht. split; [|split].
  - intros fuel. apply om_turn_loop. exact Ht.
  - intros fuel n ipe ce Hruns Hend Hfuel.
    apply (om_loop_reaches_sentinel rt vm interpret f args (S n) fuel ip ipe c ce);
      [| exact Hend | exact Hfuel].
    exact (runs_turn _ n ip c (ip', c') (ipe, ce) Ht Hruns).
  - intros fuel n ipe ir ce v Hruns Hf Hbc Hv Hfuel.
    apply (om_loop_reaches_return f args (S n) fuel ip ipe ir c ce v);
      [| exact Hf | exact Hbc | exact Hv | exact Hfuel].
    exact (runs_turn _ n ip c (ip', c') (ipe, ce) Ht Hruns).
Qed.

(** The two reads [right = pop().getInteger()], [left = pop().getInteger()]
    into [std::int32_t] variables, whatever integers the stack holds. *)
Lemma om_pop_operands_read {A} (k : Z -> Z -> Om.Exec rt A) c (vl vr : Z) :
  omCell c (omTop c - 1) = Some (Om.VInteger vr) ->
  omCell c (omTop c - 2) = Some (Om.VInteger vl) ->
  bind (Om.popInteger rt) (fun right =>
    bind (Om.popInteger rt) (fun left => k left right)) c
  = k (int32 vl) (int32 vr) (omSetTop c (omTop c - 2)).
Proof.
  intros Hr Hl.
  rewrite (bind_Ok _ _ _ _ _ (om_popInteger_Ok rt c vr Hr)).
  assert (Hl' : omCell (omSetTop c (omTop c - 1))
                       (omTop (omSetTop c (omTop c - 1)) - 1)
                = Some (Om.VInteger vl)).
  { rewrite omTop_setTop, omCell_setTop.
    replace (omTop c - 1 - 1) with (omTop c - 2) by lia. exact Hl. }
  rewrite (bind_Ok _ _ _ _ _ (om_popInteger_Ok rt _ vl Hl')).
  rewrite omTop_setTop.
  replace (omTop c - 1 - 1) with (omTop c - 2) by lia.
  reflexivity.
Qed.

Lemma om_doJmpIf_read (test : Z -> Z -> bool) (delta : Param) c (vl vr : Z) :
  omCell c (omTop c - 1) = Some (Om.VInteger vr) ->
  omCell c (omTop c - 2) = Some (Om.VInteger vl) ->
  Om.doJmpIf rt test delta c
  = Ok (if test (int32 vl) (int32 vr) then delta else 0)
       (omSetTop c (omTop c - 2)).
Proof.
  intros Hr Hl. unfold Om.doJmpIf.
  rewrite (om_pop_operands_read _ c vl vr Hr Hl).
  destruct (test (int32 vl) (int32 vr)); reflexivity.
Qed.

(** A conditional jump pops its two operands and breaks with the
    instruction pointer moved by the immediate when the comparison of the
    operands read holds. *)
Lemma om_dispatch_compare (args ip : Z) (i : Instruction)
      (bc : Bytecode.ByteCode) (holds : Z -> Z -> Prop) c (vl vr : Z) :
  ofRaw (byteCode i) = Some bc ->
  comparison bc = Some holds ->
  omCell c (omTop c - 1) = Some (Om.VInteger vr) ->
  omCell c (omTop c - 2) = Some (Om.VInteger vl) ->
  exists next : Z,
    (holds (int32 vl) (int32 vr) -> next = ip + parameter i + 1) /\
    (~ holds (int32 vl) (int32 vr) -> next = ip + 1) /\
    Om.dispatch rt vm interpret args ip i c
    = Ok (Break (next - 1)) (omSetTop c (omTop c - 2)).
Proof.
  intros Hbc Hcmp Hr Hl.
  assert (Hnext : forall taken : bool,
             (taken = true <-> holds (int32 vl) (int32 vr)) ->
             Om.dispatch rt vm interpret args ip i c
             = Ok (Break (ip + (if taken then parameter i else 0)))
                  (omSetTop c (omTop c - 2)) ->
             exists next : Z,
               (holds (int32 vl) (int32 vr) -> next = ip + parameter i + 1) /\
               (~ holds (int32 vl) (int32 vr) -> next = ip + 1) /\
               Om.dispatch rt vm interpret args ip i c
               = Ok (Break (next - 1)) (omSetTop c (omTop c - 2))).
  { intros taken Htaken Hd. rewrite Hd. destruct taken.
    - exists (ip + parameter i + 1). split; [reflexivity|]. split.
      + intros Hn. exfalso. apply Hn, Htaken. reflexivity.
      + do 2 f_equal. lia.
    - exists (ip + 1). split; [|split; [reflexivity|]].
      + intros Hh. apply Htaken in Hh. discriminate Hh.
      + do 2 f_equal. lia. }
  unfold Om.dispatch in Hnext |- *. rewrite Hbc in Hnext |- *.
  destruct bc; try discriminate; cbn in Hcmp; injection Hcmp as <-;
    unfold Om.doJmpEq, Om.doJmpNeq, Om.doJmpGt, Om.doJmpGe, Om.doJmpLt,
      Om.doJmpLe in Hnext |- *;
    rewrite (bind_Ok _ _ _ _ _ (om_doJmpIf_read _ _ c vl vr Hr Hl)) in Hnext |- *;
    cbn [ret] in Hnext |- *.
  - apply (Hnext (int32 vl =? int32 vr)); [apply Z.eqb_eq | reflexivity].
  - apply (Hnext (negb (int32 vl =? int32 vr))); [| reflexivity].
    rewrite negb_true_iff. apply Z.eqb_neq.
  - apply (Hnext (int32 vl >? int32 vr)); [| reflexivity].
    rewrite Z.gtb_ltb. rewrite Z.ltb_lt. lia.
  - apply (Hnext (int32 vl >=? int32 vr)); [| reflexivity].
    rewrite Z.geb_leb. rewrite Z.leb_le. lia.
  - apply (Hnext (int32 vl <? int32 vr)); [apply Z.ltb_lt | reflexivity].
  - apply (Hnext (int32 vl <=? int32 vr)); [apply Z.leb_le | reflexivity].
Qed.

End OmTurn.




(** ** [Om.interpret] on a function without a compiled entry *)

Section OmInterpret.
Variable rt : Om.Runtime.
Variable vm : Om.VirtualMachine rt.
Implicit Types c : Om.Context rt.

Lemma om_interpret_interpreted (fuel : nat) (index : Z) (f : FunctionSpec) c :
  getFunction vm index = Some f ->
  getJitAddress vm index = Some None ->
  Om.interpret rt vm (S fuel) index c
  = bind (Om.pushn rt (nregs f))
      (fun _ => Om.interpretLoop rt vm (Om.interpret rt vm fuel) fuel f
                  (omTop c - nargs f) 0) c.
Proof.
  intros Hf Hj. cbn [Om.interpret].
  unfold bind at 1. unfold defined at 1. rewrite Hf. cbv [ret].
  unfold bind at 1. unfold defined at 1. rewrite Hj. cbv [ret].
  reflexivity.
Qed.

(** [pushn] moves the stack pointer up by the number of locals. *)
Lemma om_pushn_inv (n : Z) c c' :
  Om.pushn rt n c = Ok tt c' -> omTop c' = omTop c + n.
Proof.
  unfold Om.pushn, Om.liftStack, Om.Stack_pushn, omTop.
  destruct ((0 <=? Om.top_ (Om.stack_ c)) && (0 <=? n)
            && (Om.top_ (Om.stack_ c) + n <=? size (Om.cells (Om.stack_ c))));
    [| discriminate].
  intros H. injection H as <-. reflexivity.
Qed.

(** A function whose run reaches the sentinel makes [interpret] throw. *)
Lemma om_interpret_reaches_sentinel (fuel n : nat) (index : Z)
      (f : FunctionSpec) c (locals ce : Om.Context rt) (ipe : Z) :
  getFunction vm index = Some f ->
  getJitAddress vm index = Some None ->
  Om.pushn rt (nregs f) c = Ok tt locals ->
  runs (omTurn rt vm (Om.interpret rt vm fuel) f (omTop c - nargs f)) n
       (0, locals) (ipe, ce) ->
  fetch f ipe = Some END_SECTION_INSTRUCTION ->
  (n < fuel)%nat ->
  Om.interpret rt vm (S fuel) index c
  = Throw (runtime_error "Reached end of function") ce.
Proof.
  intros Hf Hj Hp Hruns Hend Hn.
  rewrite (om_interpret_interpreted fuel index f c Hf Hj).
  rewrite (bind_Ok _ _ _ _ _ Hp).
  eapply om_loop_reaches_sentinel; eassumption.
Qed.

End OmInterpret.

(** C4. A function without a compiled entry that is called by
    [FUNCTION_CALL] and returns: its run reached a [FUNCTION_RETURN]; the
    value under the stack pointer at that instruction is the value
    [interpret] returns; [interpret] leaves the stack pointer at
    [args_base], the stack pointer at the entry minus [nargs]; and the
    caller pushes the value, so that the stack pointer ends one above the
    place it had before the arguments were pushed. *)
Theorem function_return_protocol (rt : Om.Runtime) (vm : Om.VirtualMachine rt)
        (fuel : nat) (value : Param) (f : FunctionSpec)
        (c c'' : Om.Context rt) :
  getFunction vm (to_size_t value) = Some f ->
  getJitAddress vm (to_size_t value) = Some None ->
  Om.doFunctionCall rt (Om.interpret rt vm fuel) value c = Ok tt c'' ->
  let args_base := omTop c - nargs f in
  exists (fuel' n : nat) (locals pre : Om.Context rt) (ip : Z)
         (i : Instruction) (v : Om.Value),
    fuel = S fuel' /\
    Om.pushn rt (nregs f) c = Ok tt locals /\
    runs (omTurn rt vm (Om.interpret rt vm fuel') f args_base) n
         (0, locals) (ip, pre) /\
    fetch f ip = Some i /\
    ofRaw (byteCode i) = Some Bytecode.FUNCTION_RETURN /\
    omCell pre (omTop pre - 1) = Some v /\
    Om.interpret rt vm fuel (to_size_t value) c = Ok v (omSetTop pre args_base) /\
    omTop c'' = args_base + 1 /\
    omCell c'' args_base = Some v.
Proof.
  intros Hf Hj Hcall args_base.
  unfold Om.doFunctionCall in Hcall.
  apply bind_Ok_inv in Hcall. destruct Hcall as (v & c' & Hint & Hpush).
  destruct fuel as [| fuel']; [discriminate Hint |].
  pose proof Hint as Hint'.
  rewrite (om_interpret_interpreted rt vm fuel' _ f c Hf Hj) in Hint.
  apply bind_Ok_inv in Hint. destruct Hint as ([] & locals & Hp & Hloop).
  apply om_loop_returns in Hloop.
  destruct Hloop as (n & ip & pre & i & Hn & Hruns & Hfetch & Hbc & Hv & ->).
  apply om_push_inv in Hpush. destruct Hpush as [Htop Hcell].
  exists fuel', n, locals, pre, ip, i, v.
  rewrite omTop_setTop in Htop, Hcell.
  repeat (split; [assumption || reflexivity |]).
  exact Hcell.
Qed.

Lemma function_return_protocol_witness :
  omTop Samples.afterCall
  = omTop (Samples.omStackOf [Om.VInteger 41]) - nargs Samples.g_succ + 1.
Proof.
  assert (Hf : getFunction Samples.omVM (to_size_t 1) = Some Samples.g_succ)
    by (vm_compute; reflexivity).
  assert (Hj : getJitAddress Samples.omVM (to_size_t 1) = Some None)
    by (vm_compute; reflexivity).
  assert (Hcall : Om.doFunctionCall Samples.noObjects
                    (Om.interpret Samples.noObjects Samples.omVM 10) 1
                    (Samples.omStackOf [Om.VInteger 41])
                  = Ok tt Samples.afterCall)
    by (vm_compute; reflexivity).
  destruct (function_return_protocol Samples.noObjects Samples.omVM 10 1
              Samples.g_succ (Samples.omStackOf [Om.VInteger 41])
              Samples.afterCall Hf Hj Hcall)
    as (fuel' & n & locals & pre & ip & i & v & _ & _ & _ & _ & _ & _ & _
        & Htop & _).
  exact Htop.
Defined.

(** S3 of the end-to-end scenarios: [f() = g(41)] with [g(x) = x + 1]
    returns 42 with the compiled-code table empty. *)
Example call_g_41 :
  Om.interpret Samples.noObjects Samples.omVM 10 0 Samples.omContext
  = Ok (Om.VInteger 42)
       (Om.mkContext
          (Om.mkStack 0 (Om.VInteger 42 :: Om.VInteger 42 :: Om.VInteger 1
                           :: replicate 5 (Om.VInteger 0)))
          5 tt).
Proof. vm_compute. reflexivity. Qed.

(** ** The raw stack of the two older revisions *)

Section ExecStack.
Implicit Types c : Exec.ExecutionContext.

Lemma exec_load_Ok c (i : Z) (v : Exec.StackElement) :
  cell c i = Some v -> Exec.load i c = Ok v c.
Proof. intros H. unfold Exec.load, cell in *. rewrite H. reflexivity. Qed.

Lemma exec_top_Ok c (v : Exec.StackElement) :
  cell c (Exec.stackPointer_ c - 1) = Some v -> Exec.top c = Ok v c.
Proof.
  intros H. unfold Exec.top, bind, get. apply exec_load_Ok. exact H.
Qed.

Lemma exec_pop_Ok c (v : Exec.StackElement) :
  cell c (Exec.stackPointer_ c - 1) = Some v ->
  Exec.pop c = Ok v (setTop c (Exec.stackPointer_ c - 1)).
Proof.
  intros H. unfold Exec.pop, bind, get, Exec.setStackPointer.
  apply (exec_load_Ok (setTop c (Exec.stackPointer_ c - 1))). exact H.
Qed.

Lemma exec_pop_inv c c' (v : Exec.StackElement) :
  Exec.pop c = Ok v c' ->
  cell c (Exec.stackPointer_ c - 1) = Some v /\
  c' = setTop c (Exec.stackPointer_ c - 1).
Proof.
  unfold Exec.pop, bind, get, Exec.setStackPointer, Exec.load, defined, cell.
  cbn [Exec.stack_].
  destruct (vector_at (Exec.stack_ c) (Exec.stackPointer_ c - 1));
    [| discriminate].
  cbv [ret]. intros H. injection H as -> <-. split; reflexivity.
Qed.

Lemma exec_push_Ok c (v : Exec.StackElement) :
  0 <= Exec.stackPointer_ c < size (Exec.stack_ c) ->
  Exec.push v c
  = Ok tt (Exec.mkContext (Exec.stackPointer_ c + 1)
             (<[Z.to_nat (Exec.stackPointer_ c) := v]> (Exec.stack_ c))
             (Exec.programCounter_ c)).
Proof.
  intros H. unfold Exec.push, bind, get, Exec.store, Exec.setStackPointer.
  destruct (Z.leb_spec 0 (Exec.stackPointer_ c)); [| lia].
  destruct (Z.ltb_spec (Exec.stackPointer_ c) (size (Exec.stack_ c))); [| lia].
  reflexivity.
Qed.

Lemma exec_push_inv c c' (v : Exec.StackElement) :
  Exec.push v c = Ok tt c' ->
  0 <= Exec.stackPointer_ c < size (Exec.stack_ c) /\
  c' = Exec.mkContext (Exec.stackPointer_ c + 1)
         (<[Z.to_nat (Exec.stackPointer_ c) := v]> (Exec.stack_ c))
         (Exec.programCounter_ c).
Proof.
  unfold Exec.push, bind, get, Exec.store, Exec.setStackPointer.
  destruct (Z.leb_spec 0 (Exec.stackPointer_ c)) as [Hlo | Hlo];
    [| discriminate].
  destruct (Z.ltb_spec (Exec.stackPointer_ c) (size (Exec.stack_ c)))
    as [Hhi | Hhi]; [| discriminate].
  cbn. intros H. injection H as <-. split; [lia | reflexivity].
Qed.

Lemma cell_setTop c (p i : Z) : cell (setTop c p) i = cell c i.
Proof. reflexivity. Qed.

Lemma setTop_setTop c (p q : Z) : setTop (setTop c p) q = setTop c q.
Proof. reflexivity. Qed.

End ExecStack.

(** ** The loop of [Interp.interpretFunction] *)

Section InterpLoop.
Variable ofRaw : RawByteCode -> option OldBytecode.ByteCode.
Variable vm : Exec.VirtualMachine.
Variable callFunction : Z -> Exec.Exec Exec.StackElement.
Implicit Types c : Exec.ExecutionContext.

Lemma interp_loop_turn (fuel : nat) (f : FunctionSpec) (args ip : Z)
      (i : Instruction) c :
  fetch f ip = Some i ->
  instruction_eqb i END_SECTION_INSTRUCTION = false ->
  Interp.interpretLoop ofRaw vm callFunction (S fuel) f args ip c
  = bind (Interp.dispatch ofRaw vm callFunction args ip i)
      (fun d =>
         match d with
         | Returned result => ret result
         | Break ip' =>
             bind Exec.incrementProgramCounter
                  (fun _ => Interp.interpretLoop ofRaw vm callFunction fuel f
                              args (ip' + 1))
         end) c.
Proof.
  intros Hf Hne. cbn [Interp.interpretLoop].
  unfold bind at 1. unfold defined. rewrite Hf. cbn [ret].
  rewrite Hne. reflexivity.
Qed.

(** The loop at the sentinel: the [while] ends and the function returns
    the element under the stack pointer (core.cpp 540, 617). *)
Lemma interp_loop_sentinel (fuel : nat) (f : FunctionSpec) (args ip : Z) c :
  fetch f ip = Some END_SECTION_INSTRUCTION ->
  Interp.interpretLoop ofRaw vm callFunction (S fuel) f args ip c
  = Exec.top c.
Proof.
  intros Hf. cbn [Interp.interpretLoop].
  unfold bind at 1. unfold defined. rewrite Hf. reflexivity.
Qed.

Lemma interp_turn_inv (f : FunctionSpec) (args ip : Z) c
      (s1 : Z * Exec.ExecutionContext) :
  interpTurn ofRaw vm callFunction f args ip c = Some s1 ->
  exists (i : Instruction) (ip1 : Z) (c1 : Exec.ExecutionContext),
    fetch f ip = Some i /\
    instruction_eqb i END_SECTION_INSTRUCTION = false /\
    Interp.dispatch ofRaw vm callFunction args ip i c = Ok (Break ip1) c1 /\
    s1 = (ip1 + 1, tick c1).
Proof.
  unfold interpTurn.
  destruct (fetch f ip) as [i |] eqn:Hf; [| discriminate].
  destruct (instruction_eqb i END_SECTION_INSTRUCTION) eqn:Hne; [discriminate |].
  destruct (Interp.dispatch ofRaw vm callFunction args ip i c)
    as [[ip1 | v] c1 | | | |] eqn:Hd; try discriminate.
  intros H. injection H as <-.
  exists i, ip1, c1. repeat split; assumption || reflexivity.
Qed.

(** A run of [n] turns that ends at the sentinel makes the loop return
    the element under the stack pointer, in the context as the run left
    it. *)
Lemma interp_loop_reaches_sentinel (f : FunctionSpec) (args : Z) (n : nat) :
  forall (fuel : nat) (ip ipe : Z) c ce,
    runs (interpTurn ofRaw vm callFunction f args) n (ip, c) (ipe, ce) ->
    fetch f ipe = Some END_SECTION_INSTRUCTION ->
    (n < fuel)%nat ->
    Interp.interpretLoop ofRaw vm callFunction fuel f args ip c = Exec.top ce.
Proof.
  induction n as [| n IH]; intros fuel ip ipe c ce Hruns Hend Hfuel;
    (destruct fuel as [| fuel]; [lia |]); inversion Hruns; subst.
  - apply interp_loop_sentinel. exact Hend.
  - match goal with Ht : interpTurn _ _ _ _ _ _ _ = Some _ |- _ =>
      apply interp_turn_inv in Ht;
      destruct Ht as (i & ip1 & c1 & Hf & Hne & Hd & ->)
    end.
    rewrite (interp_loop_turn fuel f args ip i c) by assumption.
    rewrite (bind_Ok _ _ _ _ _ Hd).
    cbn [bind Exec.incrementProgramCounter].
    apply (IH fuel (ip1 + 1) ipe (tick c1) ce); [assumption | exact Hend | lia].
Qed.

(** The [DUPLICATE] case of the [switch] is empty (core.cpp 558-560): the
    turn changes nothing but the instruction pointer and the program
    counter. *)
Lemma interp_dispatch_duplicate (args ip : Z) (i : Instruction) c :
  ofRaw (byteCode i) = Some OldBytecode.DUPLICATE ->
  Interp.dispatch ofRaw vm callFunction args ip i c = Ok (Break ip) c.
Proof.
  intros Hbc. unfold Interp.dispatch. rewrite Hbc. reflexivity.
Qed.

End InterpLoop.

Section InterpCall.
Variable ofRaw : RawByteCode -> option OldBytecode.ByteCode.
Variable vm : Exec.VirtualMachine.
Implicit Types c : Exec.ExecutionContext.

Lemma interp_callFunction_interpreted (fuel : nat) (index : Z)
      (f : FunctionSpec) c :
  getFunction vm index = Some f ->
  getJitAddress vm index = Some None ->
  Interp.callFunction ofRaw vm (S fuel) index c
  = Interp.interpretLoop ofRaw vm (Interp.callFunction ofRaw vm fuel) fuel f
      (Exec.stackPointer_ c - nargs f) 0
      (setTop c (Exec.stackPointer_ c + nregs f)).
Proof.
  intros Hf Hj. cbn [Interp.callFunction].
  unfold bind at 1. unfold defined at 1. rewrite Hj. cbv [ret].
  unfold Interp.interpretFunctionWith.
  unfold bind at 1. unfold defined at 1. rewrite Hf. cbv [ret].
  reflexivity.
Qed.

Lemma interp_callFunction_compiled (fuel : nat) (index : Z)
      (jitFunction : Exec.JitFunction) c :
  getJitAddress vm index = Some (Some jitFunction) ->
  Interp.callFunction ofRaw vm (S fuel) index c
  = Interp.callJitFunction vm index c.
Proof.
  intros Hj. cbn [Interp.callFunction].
  unfold bind at 1. unfold defined at 1. rewrite Hj. reflexivity.
Qed.

End InterpCall.

(** ** The loop of [Legacy.interpret] *)

Section LegacyLoop.
Variable getByteCode : Instruction -> option OldBytecode.ByteCode.
Variable getParameter : Instruction -> Param.
Variable NO_MORE_BYTECODES : Instruction.
Variable vm : Exec.VirtualMachine.
Implicit Types c : Exec.ExecutionContext.

Section Turns.
Variable interpret : Z -> Exec.Exec Exec.StackElement.

Lemma legacy_loop_turn (fuel : nat) (f : FunctionSpec) (args ip : Z)
      (i : Instruction) c :
  fetch f ip = Some i ->
  instruction_eqb i NO_MORE_BYTECODES = false ->
  Legacy.interpretLoop getByteCode getParameter NO_MORE_BYTECODES vm interpret
    (S fuel) f args ip c
  = bind (Legacy.dispatch getByteCode getParameter vm interpret args ip i)
      (fun d =>
         match d with
         | Returned result => ret result
         | Break ip' =>
             bind Exec.incrementProgramCounter
                  (fun _ => Legacy.interpretLoop getByteCode getParameter
                              NO_MORE_BYTECODES vm interpret fuel f args
                              (ip' + 1))
         end) c.
Proof.
  intros Hf Hne. cbn [Legacy.interpretLoop].
  unfold bind at 1. unfold defined. rewrite Hf. cbn [ret].
  rewrite Hne. reflexivity.
Qed.

(** The loop at the sentinel: the [while] ends and the function returns
    the element under the stack pointer (core.cpp 245, 319). *)
Lemma legacy_loop_sentinel (fuel : nat) (f : FunctionSpec) (args ip : Z) c :
  fetch f ip = Some NO_MORE_BYTECODES ->
  Legacy.interpretLoop getByteCode getParameter NO_MORE_BYTECODES vm interpret
    (S fuel) f args ip c
  = Exec.top c.
Proof.
  intros Hf. cbn [Legacy.interpretLoop].
  unfold bind at 1. unfold defined. rewrite Hf. cbv [ret].
  unfold instruction_eqb. rewrite Z.eqb_refl. reflexivity.
Qed.

Lemma legacy_turn_inv (f : FunctionSpec) (args ip : Z) c
      (s1 : Z * Exec.ExecutionContext) :
  legacyTurn getByteCode getParameter NO_MORE_BYTECODES vm interpret f args ip c
  = Some s1 ->
  exists (i : Instruction) (ip1 : Z) (c1 : Exec.ExecutionContext),
    fetch f ip = Some i /\
    instruction_eqb i NO_MORE_BYTECODES = false /\
    Legacy.dispatch getByteCode getParameter vm interpret args ip i c
    = Ok (Break ip1) c1 /\
    s1 = (ip1 + 1, tick c1).
Proof.
  unfold legacyTurn.
  destruct (fetch f ip) as [i |] eqn:Hf; [| discriminate].
  destruct (instruction_eqb i NO_MORE_BYTECODES) eqn:Hne; [discriminate |].
  destruct (Legacy.dispatch getByteCode getParameter vm interpret args ip i c)
    as [[ip1 | v] c1 | | | |] eqn:Hd; try discriminate.
  intros H. injection H as <-.
  exists i, ip1, c1. repeat split; assumption || reflexivity.
Qed.

Lemma legacy_loop_reaches_sentinel (f : FunctionSpec) (args : Z) (n : nat) :
  forall (fuel : nat) (ip ipe : Z) c ce,
    runs (legacyTurn getByteCode getParameter NO_MORE_BYTECODES vm interpret
            f args) n (ip, c) (ipe, ce) ->
    fetch f ipe = Some NO_MORE_BYTECODES ->
    (n < fuel)%nat ->
    Legacy.interpretLoop getByteCode getParameter NO_MORE_BYTECODES vm interpret
      fuel f args ip c
    = Exec.top ce.
Proof.
  induction n as [| n IH]; intros fuel ip ipe c ce Hruns Hend Hfuel;
    (destruct fuel as [| fuel]; [lia |]); inversion Hruns; subst.
  - apply legacy_loop_sentinel. exact Hend.
  - match goal with Ht : legacyTurn _ _ _ _ _ _ _ _ _ = Some _ |- _ =>
      apply legacy_turn_inv in Ht;
      destruct Ht as (i & ip1 & c1 & Hf & Hne & Hd & ->)
    end.
    rewrite (legacy_loop_turn fuel f args ip i c) by assumption.
    rewrite (bind_Ok _ _ _ _ _ Hd).
    cbn [bind Exec.incrementProgramCounter].
    apply (IH fuel (ip1 + 1) ipe (tick c1) ce); [assumption | exact Hend | lia].
Qed.

End Turns.

Lemma legacy_interpret_interpreted (fuel : nat) (index : Z)
      (f : FunctionSpec) c :
  getFunction vm index = Some f ->
  getJitAddress vm index = Some None ->
  Legacy.interpret getByteCode getParameter NO_MORE_BYTECODES vm (S fuel) index c
  = Legacy.interpretLoop getByteCode getParameter NO_MORE_BYTECODES vm
      (Legacy.interpret getByteCode getParameter NO_MORE_BYTECODES vm fuel)
      fuel f (Exec.stackPointer_ c - nargs f) 0
      (setTop c (Exec.stackPointer_ c + nregs f)).
Proof.
  intros Hf Hj. cbn [Legacy.interpret].
  unfold bind at 1. unfold defined at 1. rewrite Hf. cbv [ret].
  unfold bind at 1. unfold defined at 1. rewrite Hj. cbv [ret].
  reflexivity.
Qed.

Lemma legacy_interpret_compiled (fuel : nat) (index : Z) (f : FunctionSpec)
      (jitedcode : Exec.JitFunction) c :
  getFunction vm index = Some f ->
  getJitAddress vm index = Some (Some jitedcode) ->
  Legacy.interpret getByteCode getParameter NO_MORE_BYTECODES vm (S fuel) index c
  = Legacy.callJit vm jitedcode index (nargs f) c.
Proof.
  intros Hf Hj. cbn [Legacy.interpret].
  unfold bind at 1. unfold defined at 1. rewrite Hf. cbv [ret].
  unfold bind at 1. unfold defined at 1. rewrite Hj. cbv [ret].
  reflexivity.
Qed.

End LegacyLoop.

(** C1 (as the code has it).  In the interpreter over [Om::Value] a
    function whose run reaches the [END_SECTION] sentinel makes [interpret]
    throw [std::runtime_error("Reached end of function")].  In the two
    older interpreters the loop ends at the sentinel and the function
    returns the element under the stack pointer, the stack pointer left
    where the run left it. *)
Theorem reaching_the_sentinel :
  (forall (rt : Om.Runtime) (vm : Om.VirtualMachine rt) (fuel n : nat)
          (index : Z) (f : FunctionSpec) (c locals ce : Om.Context rt)
          (ipe : Z),
      getFunction vm index = Some f ->
      getJitAddress vm index = Some None ->
      Om.pushn rt (nregs f) c = Ok tt locals ->
      runs (omTurn rt vm (Om.interpret rt vm fuel) f (omTop c - nargs f)) n
           (0, locals) (ipe, ce) ->
      fetch f ipe = Some END_SECTION_INSTRUCTION ->
      (n < fuel)%nat ->
      Om.interpret rt vm (S fuel) index c
      = Throw (runtime_error "Reached end of function") ce) /\
  (forall (ofRaw : RawByteCode -> option OldBytecode.ByteCode)
          (vm : Exec.VirtualMachine) (fuel n : nat) (index : Z)
          (f : FunctionSpec) (c ce : Exec.ExecutionContext) (ipe : Z)
          (v : Exec.StackElement),
      getFunction vm index = Some f ->
      getJitAddress vm index = Some None ->
      runs (interpTurn ofRaw vm (Interp.callFunction ofRaw vm fuel) f
              (Exec.stackPointer_ c - nargs f)) n
           (0, setTop c (Exec.stackPointer_ c + nregs f)) (ipe, ce) ->
      fetch f ipe = Some END_SECTION_INSTRUCTION ->
      cell ce (Exec.stackPointer_ ce - 1) = Some v ->
      (n < fuel)%nat ->
      Interp.callFunction ofRaw vm (S fuel) index c = Ok v ce) /\
  (forall (getByteCode : Instruction -> option OldBytecode.ByteCode)
          (getParameter : Instruction -> Param) (NO_MORE_BYTECODES : Instruction)
          (vm : Exec.VirtualMachine) (fuel n : nat) (index : Z)
          (f : FunctionSpec) (c ce : Exec.ExecutionContext) (ipe : Z)
          (v : Exec.StackElement),
      getFunction vm index = Some f ->
      getJitAddress vm index = Some None ->
      runs (legacyTurn getByteCode getParameter NO_MORE_BYTECODES vm
              (Legacy.interpret getByteCode getParameter NO_MORE_BYTECODES vm fuel)
              f (Exec.stackPointer_ c - nargs f)) n
           (0, setTop c (Exec.stackPointer_ c + nregs f)) (ipe, ce) ->
      fetch f ipe = Some NO_MORE_BYTECODES ->
      cell ce (Exec.stackPointer_ ce - 1) = Some v ->
      (n < fuel)%nat ->
      Legacy.interpret getByteCode getParameter NO_MORE_BYTECODES vm (S fuel)
        index c
      = Ok v ce).
Proof.
  split; [| split].
  - intros. eapply om_interpret_reaches_sentinel; eassumption.
  - intros ofRaw vm fuel n index f c ce ipe v Hf Hj Hruns Hend Hv Hn.
    rewrite (interp_callFunction_interpreted ofRaw vm fuel index f c Hf Hj).
    rewrite (interp_loop_reaches_sentinel _ _ _ f _ n fuel 0 ipe _ ce Hruns Hend Hn).
    apply exec_top_Ok. exact Hv.
  - intros gb gp sentinel vm fuel n index f c ce ipe v Hf Hj Hruns Hend Hv Hn.
    rewrite (legacy_interpret_interpreted gb gp sentinel vm fuel index f c Hf Hj).
    rewrite (legacy_loop_reaches_sentinel gb gp sentinel vm _ f _ n fuel 0 ipe
               _ ce Hruns Hend Hn).
    apply exec_top_Ok. exact Hv.
Qed.

Lemma reaching_the_sentinel_witness :
  Om.interpret Samples.noObjects Samples.omVM 3 3 Samples.omContext
  = Throw (runtime_error "Reached end of function")
      (Om.mkContext
         (Om.mkStack 2 (Om.VInteger 0 :: Om.VInteger 7
                          :: replicate 6 (Om.VInteger 0)))
         1 tt) /\
  Interp.callFunction OldBytecode.ofRaw Samples.oldVM 3 0 Samples.smallContext
  = Ok 7 (Exec.mkContext 2 [0; 7; 0; 0; 0; 0; 0; 0] 1) /\
  Samples.legacyInterpret Samples.oldVM 3 0 Samples.smallContext
  = Ok 7 (Exec.mkContext 2 [0; 7; 0; 0; 0; 0; 0; 0] 1).
Proof.
  assert (Hf : getFunction Samples.oldVM 0 = Some Samples.old_fallthrough)
    by (vm_compute; reflexivity).
  assert (Hj : getJitAddress Samples.oldVM 0 = Some None)
    by (vm_compute; reflexivity).
  split; [| split].
  - refine (proj1 reaching_the_sentinel Samples.noObjects Samples.omVM
              2%nat 1%nat 3 Samples.h_fallthrough Samples.omContext _ _ 1
              eq_refl eq_refl eq_refl _ eq_refl _).
    + eapply runs_turn; [vm_compute; reflexivity | apply runs_here].
    + lia.
  - refine (proj1 (proj2 reaching_the_sentinel) OldBytecode.ofRaw
              Samples.oldVM 2%nat 1%nat 0 Samples.old_fallthrough
              Samples.smallContext
              (Exec.mkContext 2 [0; 7; 0; 0; 0; 0; 0; 0] 1) 1 7 Hf Hj _
              eq_refl eq_refl _).
    + eapply runs_turn; [vm_compute; reflexivity | apply runs_here].
    + lia.
  - refine (proj2 (proj2 reaching_the_sentinel) Legacy.getByteCode
              Legacy.getParameter Legacy.NO_MORE_BYTECODES
              Samples.oldVM 2%nat 1%nat 0 Samples.old_fallthrough
              Samples.smallContext
              (Exec.mkContext 2 [0; 7; 0; 0; 0; 0; 0; 0] 1) 1 7 Hf Hj _
              eq_refl eq_refl _).
    + eapply runs_turn; [vm_compute; reflexivity | apply runs_here].
    + lia.
Defined.

(** The claim C1 as stated fails on the older interpreters: the body of
    [h] is [INT_PUSH_CONSTANT 7] followed by the sentinel, without a
    [FUNCTION_RETURN]; [interpret] (core.cpp 183-320) returns 7, and leaves
    the stack pointer above the local and the constant. *)
Lemma fallthrough_returns_normally :
  address Samples.old_fallthrough
  = [Samples.old OldBytecode.INT_PUSH_CONSTANT 7; Legacy.NO_MORE_BYTECODES] /\
  Samples.legacyInterpret Samples.oldVM 3 0 Exec.newContext
  = Ok 7 (Exec.mkContext 2 (<[1%nat := 7]> (Exec.stack_ Exec.newContext)) 1) /\
  Interp.callFunction OldBytecode.ofRaw Samples.oldVM 3 0 Exec.newContext
  = Ok 7 (Exec.mkContext 2 (<[1%nat := 7]> (Exec.stack_ Exec.newContext)) 1).
Proof.
  split; [reflexivity |]. split; vm_compute; reflexivity.
Qed.

(** C9 (the code departs from the claim).  In [interpretFunction] the
    [DUPLICATE] case of the [switch] is empty: the turn leaves the stack
    pointer and every cell as they were, where the claim has a second copy
    of the top value pushed. *)
Theorem duplicate_not_implemented
        (ofRaw : RawByteCode -> option OldBytecode.ByteCode)
        (vm : Exec.VirtualMachine)
        (callFunction : Z -> Exec.Exec Exec.StackElement)
        (fuel : nat) (f : FunctionSpec) (args ip : Z) (i : Instruction)
        (c : Exec.ExecutionContext) :
  fetch f ip = Some i ->
  instruction_eqb i END_SECTION_INSTRUCTION = false ->
  ofRaw (byteCode i) = Some OldBytecode.DUPLICATE ->
  Interp.dispatch ofRaw vm callFunction args ip i c = Ok (Break ip) c /\
  Interp.interpretLoop ofRaw vm callFunction (S fuel) f args ip c
  = Interp.interpretLoop ofRaw vm callFunction fuel f args (ip + 1) (tick c).
Proof.
  intros Hf Hne Hbc.
  pose proof (interp_dispatch_duplicate ofRaw vm callFunction args ip i c Hbc)
    as Hd.
  split; [exact Hd |].
  rewrite (interp_loop_turn ofRaw vm callFunction fuel f args ip i c Hf Hne).
  rewrite (bind_Ok _ _ _ _ _ Hd). reflexivity.
Qed.

Lemma duplicate_not_implemented_witness :
  Interp.dispatch OldBytecode.ofRaw Samples.oldVM
    (Interp.callFunction OldBytecode.ofRaw Samples.oldVM 0) 0 1
    (Samples.old OldBytecode.DUPLICATE 0)
    (Exec.mkContext 2 [0; 5; 0; 0] 1)
  = Ok (Break 1) (Exec.mkContext 2 [0; 5; 0; 0] 1).
Proof.
  refine (proj1 (duplicate_not_implemented OldBytecode.ofRaw Samples.oldVM
            (Interp.callFunction OldBytecode.ofRaw Samples.oldVM 0) 0
            Samples.old_twice 0 1 (Samples.old OldBytecode.DUPLICATE 0)
            (Exec.mkContext 2 [0; 5; 0; 0] 1) _ _ _)); reflexivity.
Defined.

(** [twice() { 5; DUPLICATE; INT_ADD; return }] returns 5, the sum of the
    constant and of the local under it, and not 10. *)
Example twice_returns_5 :
  Interp.callFunction OldBytecode.ofRaw Samples.oldVM 6 1 Exec.newContext
  = Ok 5 (Exec.mkContext 0 (<[1%nat := 5]> (<[0%nat := 5]> (Exec.stack_ Exec.newContext))) 3).
Proof. vm_compute. reflexivity. Qed.

(** ** The transition to compiled code with register arguments *)

Section PassParam.
Implicit Types c : Exec.ExecutionContext.

Lemma setTop_id c : setTop c (Exec.stackPointer_ c) = c.
Proof. destruct c. reflexivity. Qed.

Lemma exec_pop_at c (p : Z) (v : Exec.StackElement) :
  cell c (p - 1) = Some v ->
  Exec.pop (setTop c p) = Ok v (setTop c (p - 1)).
Proof.
  intros H. apply (exec_pop_Ok (setTop c p)). exact H.
Qed.

(** A [switch] on an argument count above 7 takes the [default:] label. *)
Lemma above_seven {A} (n : Z) (a0 a1 a2 a3 a4 a5 a6 a7 d : A) :
  7 < n ->
  match n with
  | 0 => a0 | 1 => a1 | 2 => a2 | 3 => a3
  | 4 => a4 | 5 => a5 | 6 => a6 | 7 => a7
  | _ => d
  end = d.
Proof.
  intros H. destruct n as [| p | p]; [lia | | reflexivity].
  do 3 (destruct p as [p | p |]; try lia; try reflexivity).
Qed.

(** A [switch] on an argument count above 3 takes the [default:] label. *)
Lemma above_three {A} (n : Z) (a0 a1 a2 a3 d : A) :
  3 < n ->
  match n with
  | 0 => a0 | 1 => a1 | 2 => a2 | 3 => a3
  | _ => d
  end = d.
Proof.
  intros H. destruct n as [| p | p]; [lia | | reflexivity].
  do 2 (destruct p as [p | p |]; try lia; try reflexivity).
Qed.

Ltac pop_next c :=
  match goal with
  | H : cell c ?q = Some ?v |- context [bind Exec.pop _ (setTop c ?p)] =>
      rewrite (bind_Ok _ _ (setTop c p) (setTop c (p - 1)) v
                 (exec_pop_at c p v ltac:(
                    replace (p - 1) with q by lia; exact H)));
      clear H
  end.

(** X3. [callJitFunctionWithPassParam] (core.cpp 637-711): with [nargs] values
    [ps] on top of the stack, [nargs <= 7], the values are popped and the
    compiled entry is called with them as its arguments, first pushed
    first; above seven arguments the function throws, without a pop. *)
Lemma interp_passParam (vm : Exec.VirtualMachine) (index : Z)
      (f : FunctionSpec) (jitFunction : Exec.JitFunction) c :
  passParam (cfg_ vm) = true ->
  getFunction vm index = Some f ->
  getJitAddress vm index = Some (Some jitFunction) ->
  (forall ps : list Exec.StackElement,
      nargs f = size ps -> size ps <= 7 -> onTop c ps ->
      Interp.callJitFunctionWithPassParam vm index c
      = jitFunction (map ArgValue ps)
          (setTop c (Exec.stackPointer_ c - size ps))) /\
  (7 < nargs f ->
   Interp.callJitFunctionWithPassParam vm index c
   = Throw (runtime_error
              "Interpreter to JIT transition failed: too many arguments") c).
Proof.
  intros Hpp Hf Hj.
  assert (Hunfold : forall k : Exec.JitFunction -> FunctionSpec -> Exec.Exec Exec.StackElement,
             bind (assert (passParam (cfg_ vm)))
               (fun _ => bind (defined (getFunction vm index))
                 (fun function => bind (defined (getJitAddress vm index))
                   (fun address =>
                      match address with
                      | None => bind (assert false) (fun _ => undefined)
                      | Some j => k j function
                      end))) c
             = k jitFunction f c).
  { intros k. unfold bind at 1. rewrite Hpp. cbn [assert].
    unfold bind at 1. unfold defined at 1. rewrite Hf. cbv [ret].
    unfold bind at 1. unfold defined at 1. rewrite Hj. reflexivity. }
  split.
  - intros ps Hn Hle Htop.
    unfold Interp.callJitFunctionWithPassParam.
    rewrite (Hunfold (fun j function => match nargs function with
                                        | 0 => _ | 1 => _ | 2 => _ | 3 => _
                                        | 4 => _ | 5 => _ | 6 => _ | 7 => _
                                        | _ => _ end)).
    rewrite Hn. unfold onTop in Htop.
    rewrite <- (setTop_id c) at 1.
    do 8 (destruct ps as [| ? ps];
          [ match goal with
            | |- context [size ?l] =>
                let n := eval vm_compute in (size l) in
                change (size l) with n in *
            end;
            cbv iota;
            cbn [cellsFrom] in Htop;
            repeat match type of Htop with _ /\ _ =>
              let H := fresh "Hc" in destruct Htop as [H Htop] end;
            repeat pop_next c;
            cbn [map]; f_equal; f_equal; lia
          | ]).
    exfalso. unfold size in Hle. cbn [length] in Hle. lia.
  - intros Hmany.
    unfold Interp.callJitFunctionWithPassParam.
    rewrite (Hunfold (fun j function => match nargs function with
                                        | 0 => _ | 1 => _ | 2 => _ | 3 => _
                                        | 4 => _ | 5 => _ | 6 => _ | 7 => _
                                        | _ => _ end)).
    rewrite above_seven by exact Hmany. reflexivity.
Qed.

End PassParam.

Lemma interp_passParam_witness :
  Interp.callJitFunctionWithPassParam Samples.jitVM 3 Samples.fourPushed
  = Samples.sumArgs [ArgValue 1; ArgValue 2; ArgValue 3; ArgValue 4]
      (setTop Samples.fourPushed 0).
Proof.
  apply (proj1 (interp_passParam Samples.jitVM 3 Samples.old_four
                  Samples.sumArgs Samples.fourPushed eq_refl eq_refl eq_refl)
               [1; 2; 3; 4]).
  - reflexivity.
  - vm_compute. discriminate.
  - vm_compute. auto.
Defined.

(** C7 (the code departs from the claim).  In the older [interpret], with
    the register calling convention and a compiled entry for a function of
    more than three arguments, the [switch] takes its [default:] label:
    nothing is popped, the compiled entry is not called, nothing is thrown,
    and [interpret] returns 0. *)
Theorem legacy_passParam_too_many_arguments
        (getByteCode : Instruction -> option OldBytecode.ByteCode)
        (getParameter : Instruction -> Param) (NO_MORE_BYTECODES : Instruction)
        (vm : Exec.VirtualMachine) (fuel : nat) (index : Z) (f : FunctionSpec)
        (jitedcode : Exec.JitFunction) (c : Exec.ExecutionContext) :
  passParam (cfg_ vm) = true ->
  getFunction vm index = Some f ->
  getJitAddress vm index = Some (Some jitedcode) ->
  3 < nargs f ->
  Legacy.interpret getByteCode getParameter NO_MORE_BYTECODES vm (S fuel) index c
  = Ok 0 c.
Proof.
  intros Hpp Hf Hj Hmany.
  rewrite (legacy_interpret_compiled getByteCode getParameter NO_MORE_BYTECODES
             vm fuel index f jitedcode c Hf Hj).
  unfold Legacy.callJit. rewrite Hpp.
  rewrite above_three by exact Hmany. reflexivity.
Qed.

Lemma legacy_passParam_too_many_arguments_witness :
  Samples.legacyInterpret Samples.jitVM 1 3 Samples.fourPushed
  = Ok 0 Samples.fourPushed.
Proof.
  refine (legacy_passParam_too_many_arguments
            Legacy.getByteCode Legacy.getParameter Legacy.NO_MORE_BYTECODES
            Samples.jitVM 0 3 Samples.old_four Samples.sumArgs
            Samples.fourPushed eq_refl eq_refl eq_refl _).
  vm_compute. reflexivity.
Defined.

(** [run(3, {1, 2, 3, 4})] on the same virtual machine returns 0. *)
Example legacy_run_four :
  Samples.legacyRun Samples.jitVM 2 3 [1; 2; 3; 4] Exec.newContext
  = Ok 0 (Exec.mkContext 0
            (<[3%nat := 1]> (<[2%nat := 2]> (<[1%nat := 3]> (<[0%nat := 4]>
               (Exec.stack_ Exec.newContext))))) 0).
Proof. vm_compute. reflexivity. Qed.

(** The bridge of [callFunction] on the same call: the four arguments are
    popped and passed, first pushed first. *)
Example interp_passParam_four :
  Interp.callFunction OldBytecode.ofRaw Samples.jitVM 1 3 Samples.fourPushed
  = Samples.sumArgs [ArgValue 1; ArgValue 2; ArgValue 3; ArgValue 4]
      (setTop Samples.fourPushed 0).
Proof. reflexivity. Qed.

(** ** [VirtualMachine::run] *)

Section Run.
Implicit Types c : Exec.ExecutionContext.

Lemma reset_isReset c c' : Exec.reset c = Ok tt c' -> isReset c'.
Proof.
  unfold Exec.reset. intros H. injection H as <-. split; reflexivity.
Qed.

(** [run] past the test of the argument count (core.cpp 943-954). *)
Lemma interp_run_accepted (ofRaw : RawByteCode -> option OldBytecode.ByteCode)
      (vm : Exec.VirtualMachine) (fuel : nat) (index : Z) (f : FunctionSpec)
      (usrArgs : list Exec.StackElement) c :
  getFunction vm index = Some f ->
  nargs f = size usrArgs ->
  Interp.run ofRaw vm fuel index usrArgs c
  = bind (Exec.pushArguments (nargs f) usrArgs (Z.to_nat (nargs f)) 0)
      (fun _ => bind (Interp.callFunction ofRaw vm fuel index)
         (fun result => bind Exec.reset (fun _ => ret result))) c.
Proof.
  intros Hf Hn. unfold Interp.run.
  unfold bind at 1. unfold defined at 1. rewrite Hf. cbv [ret].
  rewrite <- Hn. rewrite Z.eqb_refl. reflexivity.
Qed.

(** [run] on a wrong argument count (core.cpp 935-941). *)
Lemma interp_run_rejected (ofRaw : RawByteCode -> option OldBytecode.ByteCode)
      (vm : Exec.VirtualMachine) (fuel : nat) (index : Z) (f : FunctionSpec)
      (usrArgs : list Exec.StackElement) c :
  getFunction vm index = Some f ->
  nargs f <> size usrArgs ->
  Interp.run ofRaw vm fuel index usrArgs c
  = Throw (BadFunctionCallException (Exec.badCallMessage f (size usrArgs))) c.
Proof.
  intros Hf Hn. unfold Interp.run.
  unfold bind at 1. unfold defined at 1. rewrite Hf. cbv [ret].
  destruct (Z.eqb_spec (nargs f) (size usrArgs)); [contradiction |].
  reflexivity.
Qed.

Lemma interp_run_Ok_inv (ofRaw : RawByteCode -> option OldBytecode.ByteCode)
      (vm : Exec.VirtualMachine) (fuel : nat) (index : Z)
      (usrArgs : list Exec.StackElement) c c' (v : Exec.StackElement) :
  Interp.run ofRaw vm fuel index usrArgs c = Ok v c' -> isReset c'.
Proof.
  unfold Interp.run. intros H.
  apply bind_Ok_inv in H. destruct H as (f & c0 & _ & H).
  destruct (negb (nargs f =? size usrArgs)); [discriminate H |].
  apply bind_Ok_inv in H. destruct H as ([] & c1 & _ & H).
  apply bind_Ok_inv in H. destruct H as (result & c2 & _ & H).
  apply bind_Ok_inv in H. destruct H as ([] & c3 & Hreset & H).
  cbv [ret] in H. injection H as _ <-.
  apply (reset_isReset c2). exact Hreset.
Qed.

Lemma legacy_run_Ok_inv
      (getByteCode : Instruction -> option OldBytecode.ByteCode)
      (getParameter : Instruction -> Param) (NO_MORE_BYTECODES : Instruction)
      (vm : Exec.VirtualMachine) (fuel : nat) (index : Z)
      (usrArgs : list Exec.StackElement) c c' (v : Exec.StackElement) :
  Legacy.run getByteCode getParameter NO_MORE_BYTECODES vm fuel index usrArgs c
  = Ok v c' ->
  isReset c'.
Proof.
  unfold Legacy.run. intros H.
  apply bind_Ok_inv in H. destruct H as (f & c0 & _ & H).
  destruct (negb (nargs f =? size usrArgs)); [discriminate H |].
  apply bind_Ok_inv in H. destruct H as ([] & c1 & _ & H).
  apply bind_Ok_inv in H. destruct H as ([] & c1' & _ & H).
  apply bind_Ok_inv in H. destruct H as (result & c2 & _ & H).
  apply bind_Ok_inv in H. destruct H as ([] & c3 & Hreset & H).
  cbv [ret] in H. injection H as _ <-.
  apply (reset_isReset c2). exact Hreset.
Qed.

End Run.

(** C3 (as the code has it).  When [run] returns, the execution context
    has been reset: the stack pointer is at the base of the stack and the
    program counter is zero.  When the bridge throws, [run] does not reach
    its [reset()]: the exception leaves [run] with the context as it was
    at the [throw]. *)
Theorem run_resets_on_return
        (ofRaw : RawByteCode -> option OldBytecode.ByteCode)
        (getByteCode : Instruction -> option OldBytecode.ByteCode)
        (getParameter : Instruction -> Param) (NO_MORE_BYTECODES : Instruction)
        (vm : Exec.VirtualMachine) (fuel : nat) (index : Z)
        (usrArgs : list Exec.StackElement) (c : Exec.ExecutionContext) :
  (forall v c', Interp.run ofRaw vm fuel index usrArgs c = Ok v c' -> isReset c') /\
  (forall v c',
      Legacy.run getByteCode getParameter NO_MORE_BYTECODES vm fuel index
        usrArgs c = Ok v c' -> isReset c') /\
  (forall f pushed v called,
      getFunction vm index = Some f ->
      nargs f = size usrArgs ->
      Exec.pushArguments (nargs f) usrArgs (Z.to_nat (nargs f)) 0 c
      = Ok tt pushed ->
      Interp.callFunction ofRaw vm fuel index pushed = Ok v called ->
      Interp.run ofRaw vm fuel index usrArgs c
      = Ok v (Exec.mkContext 0 (Exec.stack_ called) 0)) /\
  (forall f pushed e thrown,
      getFunction vm index = Some f ->
      nargs f = size usrArgs ->
      Exec.pushArguments (nargs f) usrArgs (Z.to_nat (nargs f)) 0 c
      = Ok tt pushed ->
      Interp.callFunction ofRaw vm fuel index pushed = Throw e thrown ->
      Interp.run ofRaw vm fuel index usrArgs c = Throw e thrown).
Proof.
  split; [| split; [| split]].
  - intros v c'. apply interp_run_Ok_inv.
  - intros v c'. apply legacy_run_Ok_inv.
  - intros f pushed v called Hf Hn Hpush Hcall.
    rewrite (interp_run_accepted ofRaw vm fuel index f usrArgs c Hf Hn).
    rewrite (bind_Ok _ _ _ _ _ Hpush).
    rewrite (bind_Ok _ _ _ _ _ Hcall).
    reflexivity.
  - intros f pushed e thrown Hf Hn Hpush Hcall.
    rewrite (interp_run_accepted ofRaw vm fuel index f usrArgs c Hf Hn).
    rewrite (bind_Ok _ _ _ _ _ Hpush).
    apply bind_Throw. exact Hcall.
Qed.

(** The claim C3 as stated fails: [run] on a compiled function of eight
    arguments, register calling convention.  The bridge throws after the
    eight arguments were pushed, and the exception leaves [run] with the
    stack pointer eight cells above the base. *)
Lemma run_not_reset_on_throw :
  exists thrown : Exec.ExecutionContext,
    Interp.run OldBytecode.ofRaw Samples.jitVM 1 4 [1; 2; 3; 4; 5; 6; 7; 8]
               Exec.newContext
    = Throw (runtime_error
               "Interpreter to JIT transition failed: too many arguments")
            thrown /\
    Exec.stackPointer_ thrown = 8 /\
    ~ isReset thrown.
Proof.
  eexists. split; [vm_compute; reflexivity |].
  split; [reflexivity |].
  unfold isReset. cbn. intros [H _]. discriminate H.
Qed.

Lemma run_resets_on_return_witness :
  isReset (Exec.mkContext 0 [41; 42; 1; 0; 0; 0; 0; 0] 0) /\
  Interp.run OldBytecode.ofRaw Samples.jitVM 1 4 [1; 2; 3; 4; 5; 6; 7; 8]
             Samples.smallContext
  = Throw (runtime_error
             "Interpreter to JIT transition failed: too many arguments")
          Samples.eightPushed.
Proof.
  split.
  - refine (proj1 (run_resets_on_return OldBytecode.ofRaw
                     Legacy.getByteCode Legacy.getParameter
                     Legacy.NO_MORE_BYTECODES Samples.oldVM 6 2 [41]
                     Samples.smallContext) 42 _ _).
    vm_compute. reflexivity.
  - refine (proj2 (proj2 (proj2 (run_resets_on_return OldBytecode.ofRaw
                     Legacy.getByteCode Legacy.getParameter
                     Legacy.NO_MORE_BYTECODES Samples.jitVM 1 4
                     [1; 2; 3; 4; 5; 6; 7; 8] Samples.smallContext)))
              Samples.old_eight Samples.eightPushed _ _ _ _ _ _);
      vm_compute; reflexivity.
Defined.

(** ** Where a [BadFunctionCallException] can come from *)

Section Quiet.
Context {S : Type}.

Lemma quiet_ret {A} (a : A) : quiet (ret a : M S A).
Proof. intros s. reflexivity. Qed.

Lemma quiet_bind {A B} (m : M S A) (k : A -> M S B) :
  quiet m -> (forall a, quiet (k a)) -> quiet (bind m k).
Proof.
  intros Hm Hk s. unfold bind. specialize (Hm s).
  destruct (m s) as [a s' | e s' | | |]; try reflexivity.
  - apply Hk.
  - exact Hm.
Qed.

Lemma quiet_defined {A} (o : option A) : quiet (defined o : M S A).
Proof. intros s. destruct o; reflexivity. Qed.

Lemma quiet_assert (b : bool) : quiet (assert b : M S unit).
Proof. intros s. destruct b; reflexivity. Qed.

Lemma quiet_undefined {A} : quiet (undefined : M S A).
Proof. intros s. reflexivity. Qed.

Lemma quiet_out_of_fuel {A} : quiet (out_of_fuel : M S A).
Proof. intros s. reflexivity. Qed.

Lemma quiet_get : quiet (get : M S S).
Proof. intros s. reflexivity. Qed.

Lemma quiet_runtime_error {A} (what : string) :
  quiet (throw (runtime_error what) : M S A).
Proof. intros s. reflexivity. Qed.

End Quiet.

Create HintDb quiet.
#[local] Hint Resolve quiet_ret quiet_defined quiet_assert quiet_undefined
  quiet_out_of_fuel quiet_get quiet_runtime_error : quiet.

Ltac quiet_step :=
  first
    [ progress auto with quiet
    | apply quiet_bind; [| intros ?]
    | match goal with
      | |- quiet (if ?b then _ else _) => destruct b
      | |- quiet (match ?x with _ => _ end) => destruct x
      | |- quiet (fun _ => _) => intros ?; reflexivity
      end ].

Ltac quiet_tac := repeat quiet_step.

Section QuietExec.

Lemma quiet_store (i : Z) (v : Exec.StackElement) : quiet (Exec.store i v).
Proof.
  intros c. unfold Exec.store.
  destruct ((0 <=? i) && (i <? size (Exec.stack_ c))); reflexivity.
Qed.

Lemma quiet_load (i : Z) : quiet (Exec.load i).
Proof.
  intros c. unfold Exec.load. apply (quiet_defined _ c).
Qed.

Lemma quiet_setStackPointer (p : Z) : quiet (Exec.setStackPointer p).
Proof. intros c. reflexivity. Qed.

Lemma quiet_incrementProgramCounter : quiet Exec.incrementProgramCounter.
Proof. intros c. reflexivity. Qed.

Lemma quiet_reset : quiet Exec.reset.
Proof. intros c. reflexivity. Qed.

Hint Resolve quiet_store quiet_load quiet_setStackPointer
  quiet_incrementProgramCounter quiet_reset : quiet.

Lemma quiet_push (v : Exec.StackElement) : quiet (Exec.push v).
Proof. unfold Exec.push. quiet_tac. Qed.

Lemma quiet_pop : quiet Exec.pop.
Proof. unfold Exec.pop. quiet_tac. Qed.

Lemma quiet_top : quiet Exec.top.
Proof. unfold Exec.top. quiet_tac. Qed.

Hint Resolve quiet_push quiet_pop quiet_top : quiet.

Lemma quiet_drop : quiet Exec.drop.
Proof. unfold Exec.drop. quiet_tac. Qed.

Lemma quiet_pushFromVar (args : Z) (offset : Param) :
  quiet (Exec.pushFromVar args offset).
Proof. unfold Exec.pushFromVar. quiet_tac. Qed.

Lemma quiet_pushIntoVar (args : Z) (offset : Param) :
  quiet (Exec.pushIntoVar args offset).
Proof. unfold Exec.pushIntoVar. quiet_tac. Qed.

Lemma quiet_intPushConstant (value : Param) : quiet (Exec.intPushConstant value).
Proof. unfold Exec.intPushConstant. quiet_tac. Qed.

Lemma quiet_intJmp (test : Z -> Z -> bool) (delta : Param) :
  quiet (Exec.intJmp test delta).
Proof. unfold Exec.intJmp. quiet_tac. Qed.

Lemma quiet_intAdd : quiet Exec.intAdd.
Proof. unfold Exec.intAdd. quiet_tac. Qed.

Lemma quiet_intSub : quiet Exec.intSub.
Proof. unfold Exec.intSub. quiet_tac. Qed.

Lemma quiet_pushArguments (argsCount : Z) (usrArgs : list Exec.StackElement)
      (turns : nat) :
  forall i, quiet (Exec.pushArguments argsCount usrArgs turns i).
Proof.
  induction turns as [| turns IH]; intros i; cbn [Exec.pushArguments].
  - quiet_tac.
  - apply quiet_bind; [quiet_tac | intros arg].
    apply quiet_bind; [quiet_tac | intros _]. apply IH.
Qed.

Hint Resolve quiet_drop quiet_pushFromVar quiet_pushIntoVar
  quiet_intPushConstant quiet_intJmp quiet_intAdd quiet_intSub
  quiet_pushArguments : quiet.

Variable ofRaw : RawByteCode -> option OldBytecode.ByteCode.
Variable vm : Exec.VirtualMachine.
Hypothesis natives : quietNatives vm.

Lemma quiet_strPushConstant (value : Param) : quiet (Exec.strPushConstant vm value).
Proof. unfold Exec.strPushConstant. quiet_tac. Qed.

Lemma quiet_primitiveCall (value : Param) : quiet (Exec.primitiveCall vm value).
Proof.
  unfold Exec.primitiveCall. intros c. unfold bind, defined.
  destruct (getPrimitive vm (to_size_t value)) as [[p |] |] eqn:Hp;
    try reflexivity.
  cbv [ret]. apply (proj1 natives _ p Hp).
Qed.

Lemma quiet_bind_defined {A B} (o : option A) (k : A -> Exec.Exec B) :
  (forall a, o = Some a -> quiet (k a)) -> quiet (bind (defined o) k).
Proof.
  intros Hk c. unfold bind, defined. destruct o as [a |]; [| reflexivity].
  cbv [ret]. apply (Hk a). reflexivity.
Qed.

Lemma quiet_callJitFunctionWithPassParam (index : Z) :
  quiet (Interp.callJitFunctionWithPassParam vm index).
Proof.
  unfold Interp.callJitFunctionWithPassParam.
  apply quiet_bind; [quiet_tac | intros _].
  apply quiet_bind; [quiet_tac | intros f].
  apply quiet_bind_defined. intros [j |] Hj; [| quiet_tac].
  pose proof (fun args => proj2 natives index j args Hj) as Hq.
  quiet_tac.
Qed.

Lemma quiet_callJitFunction (index : Z) :
  quiet (Interp.callJitFunction vm index).
Proof.
  unfold Interp.callJitFunction.
  pose proof (quiet_callJitFunctionWithPassParam index) as Hpp.
  apply quiet_bind; [quiet_tac | intros _].
  destruct (passParam (cfg_ vm)); [exact Hpp |].
  apply quiet_bind_defined. intros [j |] Hj; [| quiet_tac].
  apply (proj2 natives index j _ Hj).
Qed.

Hint Resolve quiet_strPushConstant quiet_primitiveCall
  quiet_callJitFunction : quiet.

Lemma quiet_dispatch (callFunction : Z -> Exec.Exec Exec.StackElement)
      (args ip : Z) (i : Instruction) :
  (forall index, quiet (callFunction index)) ->
  quiet (Interp.dispatch ofRaw vm callFunction args ip i).
Proof.
  intros Hcall. unfold Interp.dispatch, Exec.intJmpEq, Exec.intJmpNeq,
    Exec.intJmpGt, Exec.intJmpGe, Exec.intJmpLt, Exec.intJmpLe.
  cbv zeta. quiet_tac.
Qed.

Lemma quiet_interpretLoop (callFunction : Z -> Exec.Exec Exec.StackElement)
      (f : FunctionSpec) (args : Z) (fuel : nat) :
  (forall index, quiet (callFunction index)) ->
  forall ip, quiet (Interp.interpretLoop ofRaw vm callFunction fuel f args ip).
Proof.
  intros Hcall. induction fuel as [| fuel IH]; intros ip;
    cbn [Interp.interpretLoop]; [quiet_tac |].
  apply quiet_bind; [quiet_tac | intros i].
  destruct (instruction_eqb i END_SECTION_INSTRUCTION); [quiet_tac |].
  apply quiet_bind; [apply quiet_dispatch; exact Hcall | intros d].
  destruct d; [| quiet_tac].
  apply quiet_bind; [quiet_tac | intros _]. apply IH.
Qed.

Lemma quiet_callFunction (fuel : nat) :
  forall index, quiet (Interp.callFunction ofRaw vm fuel index).
Proof.
  induction fuel as [| fuel IH]; intros index; cbn [Interp.callFunction];
    [quiet_tac |].
  apply quiet_bind; [quiet_tac | intros [j |]]; [quiet_tac |].
  unfold Interp.interpretFunctionWith.
  apply quiet_bind; [quiet_tac | intros f].
  apply quiet_bind; [quiet_tac | intros c].
  apply quiet_bind; [quiet_tac | intros _].
  apply quiet_interpretLoop. exact IH.
Qed.

End QuietExec.

(** C6. [run(index, usrArgs)] with [usrArgs.size()] other than the
    [nargs] of the function throws [BadFunctionCallException] with the
    execution context untouched: no argument was pushed, the bridge was not
    called, and a later [run] starts from the same context.  With equal
    sizes [run] does not end in that exception (no primitive and no
    compiled entry throwing it). *)
Theorem run_checks_argument_count
        (ofRaw : RawByteCode -> option OldBytecode.ByteCode)
        (vm : Exec.VirtualMachine) (fuel : nat) (index : Z) (f : FunctionSpec)
        (usrArgs : list Exec.StackElement) (c : Exec.ExecutionContext) :
  getFunction vm index = Some f ->
  (nargs f <> size usrArgs ->
   Interp.run ofRaw vm fuel index usrArgs c
   = Throw (BadFunctionCallException (Exec.badCallMessage f (size usrArgs))) c) /\
  (nargs f = size usrArgs -> quietNatives vm ->
   is_BadFunctionCall (Interp.run ofRaw vm fuel index usrArgs c) = false).
Proof.
  intros Hf. split.
  - intros Hn. apply interp_run_rejected; assumption.
  - intros Hn Hq.
    rewrite (interp_run_accepted ofRaw vm fuel index f usrArgs c Hf Hn).
    revert c.
    change (quiet (bind (Exec.pushArguments (nargs f) usrArgs
                           (Z.to_nat (nargs f)) 0)
                     (fun _ => bind (Interp.callFunction ofRaw vm fuel index)
                        (fun result => bind Exec.reset (fun _ => ret result))))).
    apply quiet_bind; [apply quiet_pushArguments | intros _].
    apply quiet_bind; [apply quiet_callFunction; exact Hq | intros result].
    apply quiet_bind; [apply quiet_reset | intros _].
    apply quiet_ret.
Qed.

Lemma vector_at_nil {A} (i : Z) : vector_at (@nil A) i = None.
Proof.
  unfold vector_at. change (Z.of_nat (length (@nil A))) with 0.
  destruct (Z.leb_spec 0 i) as [Hlo | Hlo], (Z.ltb_spec i 0) as [Hhi | Hhi];
    reflexivity.
Qed.

(** A virtual machine without primitives and without compiled entries. *)
Lemma oldVM_quietNatives : quietNatives Samples.oldVM.
Proof.
  split.
  - intros i p H. unfold getPrimitive in H.
    cbn [module_ primitives Samples.oldVM Samples.oldModule] in H.
    rewrite vector_at_nil in H. discriminate H.
  - intros i j args H. unfold getJitAddress in H.
    cbn [compiledFunctions_ Samples.oldVM] in H.
    rewrite vector_at_nil in H.
    destruct (size [] <=? i); discriminate H.
Qed.

Lemma run_checks_argument_count_witness :
  Interp.run OldBytecode.ofRaw Samples.oldVM 6 2 [41; 3] Samples.smallContext
  = Throw (BadFunctionCallException "inc - Got 2 arguments, expected 1")
          Samples.smallContext /\
  is_BadFunctionCall
    (Interp.run OldBytecode.ofRaw Samples.oldVM 6 2 [41] Samples.smallContext)
  = false.
Proof.
  assert (Hf : getFunction Samples.oldVM 2 = Some Samples.old_inc)
    by (vm_compute; reflexivity).
  split.
  - refine (proj1 (run_checks_argument_count OldBytecode.ofRaw Samples.oldVM 6 2
                     Samples.old_inc [41; 3] Samples.smallContext Hf) _).
    vm_compute. discriminate.
  - refine (proj2 (run_checks_argument_count OldBytecode.ofRaw Samples.oldVM 6 2
                     Samples.old_inc [41] Samples.smallContext Hf) _
                  oldVM_quietNatives).
    vm_compute. reflexivity.
Defined.

(** With one argument the same call runs [inc(41)] and returns 42 in a
    reset context. *)
Example run_inc_41 :
  Interp.run OldBytecode.ofRaw Samples.oldVM 6 2 [41] Exec.newContext
  = Ok 42 (Exec.mkContext 0
             (<[2%nat := 1]> (<[1%nat := 42]> (<[0%nat := 41]>
                (Exec.stack_ Exec.newContext)))) 0).
Proof. vm_compute. reflexivity. Qed.

(** * Further properties *)

(** ** The mutators and the equality of [Instruction] *)

Section MutatorFacts.

Lemma land_uint32_mask (x : Z) :
  Z.land (uint32 x) PARAMETER_MASK = x mod 2 ^ 24.
Proof.
  rewrite land_mask_mod. unfold uint32, to_unsigned.
  apply Z.mod_mod_divide. exists (2 ^ 8). reflexivity.
Qed.

Lemma parameter_low_bits (i j : Instruction) :
  Z.land (raw i) PARAMETER_MASK = Z.land (raw j) PARAMETER_MASK ->
  parameter i = parameter j.
Proof. intros H. unfold parameter. rewrite H. reflexivity. Qed.

Lemma byteCode_high_bits (i : Instruction) :
  Mutators.isRaw i -> byteCode i = raw i / 2 ^ 24.
Proof.
  intros H. unfold byteCode, uint8, to_unsigned, BYTECODE_SHIFT.
  rewrite Z.shiftr_div_pow2 by lia.
  apply Z.mod_small. unfold Mutators.isRaw in H.
  split.
  - apply Z.div_pos; lia.
  - apply Z.div_lt_upper_bound; lia.
Qed.

Lemma land_bytecode_mask (r : Z) :
  0 <= r < 2 ^ 32 -> Z.land r BYTECODE_MASK = (r / 2 ^ 24) * 2 ^ 24.
Proof.
  intros H.
  change BYTECODE_MASK with (Z.shiftl 255 24).
  rewrite <- Z.shiftl_mul_pow2, <- Z.shiftr_div_pow2 by lia.
  apply Z.bits_inj'. intros n Hn.
  rewrite Z.land_spec.
  destruct (Z.ltb_spec n 24) as [Hlt|Hge].
  - rewrite !Z.shiftl_spec_low by lia. apply andb_false_r.
  - rewrite !Z.shiftl_spec by lia. rewrite Z.shiftr_spec by lia.
    replace (n - 24 + 24) with n by lia.
    destruct (Z.ltb_spec n 32) as [Hlt|Hge'].
    + change 255 with (Z.ones 8). rewrite Z.ones_spec_low by lia.
      apply andb_true_r.
    + change 255 with (Z.ones 8). rewrite Z.ones_spec_high by lia.
      rewrite andb_false_r. symmetry.
      destruct (Z.eqb_spec r 0) as [->|Hr]; [apply Z.bits_0|].
      apply Z.bits_above_log2; [lia|].
      apply Z.log2_lt_pow2; [lia|].
      assert (2 ^ 32 <= 2 ^ n) by (apply Z.pow_le_mono_r; lia). lia.
Qed.

Lemma setParameter_mkInstruction (i : Instruction) (p : Param) :
  Mutators.isRaw i ->
  Mutators.setParameter i p = mkInstruction (byteCode i) p.
Proof.
  intros H. unfold Mutators.setParameter, mkInstruction. f_equal. f_equal.
  rewrite land_bytecode_mask by exact H.
  rewrite byteCode_high_bits by exact H.
  unfold BYTECODE_SHIFT. rewrite Z.shiftl_mul_pow2 by lia.
  unfold Mutators.isRaw in H.
  symmetry. apply uint32_small.
  assert (0 <= raw i / 2 ^ 24 < 2 ^ 8).
  { split; [apply Z.div_pos; lia | apply Z.div_lt_upper_bound; lia]. }
  nia.
Qed.

Lemma byteCode_range (i : Instruction) : 0 <= byteCode i < 256.
Proof. unfold byteCode, uint8, to_unsigned. apply Z.mod_pos_bound. lia. Qed.

Lemma setByteCode_mkInstruction (i : Instruction) (b : RawByteCode) :
  Mutators.isRaw i ->
  Mutators.setByteCode i b = mkInstruction b (raw i).
Proof.
  intros H. unfold Mutators.setByteCode, mkInstruction. f_equal. f_equal.
  rewrite (uint32_small (raw i)) by exact H. reflexivity.
Qed.

End MutatorFacts.

(** X4. The setters of [Instruction] (interpreter.hpp 358-372): on a 32-bit
    word, [parameter(p)] with [p] in [-2^23, 2^23) makes [parameter()]
    return [p] and leaves [byteCode()] as it was; [byteCode(bc)] makes
    [byteCode()] return [bc] and leaves [parameter()] as it was. *)
Theorem setters_keep_the_other_field (i : Instruction) (bc : ByteCode) (p : Param) :
  Mutators.isRaw i ->
  - 2 ^ 23 <= p < 2 ^ 23 ->
  (parameter (Mutators.setParameter i p) = p /\
   byteCode (Mutators.setParameter i p) = byteCode i) /\
  (byteCode (Mutators.setByteCode i (toRaw bc)) = toRaw bc /\
   parameter (Mutators.setByteCode i (toRaw bc)) = parameter i).
Proof.
  intros Hi Hp. split; split.
  - rewrite setParameter_mkInstruction by exact Hi.
    apply parameter_mkInstruction; [apply byteCode_range | exact Hp].
  - rewrite setParameter_mkInstruction by exact Hi.
    apply byteCode_mkInstruction, byteCode_range.
  - rewrite setByteCode_mkInstruction by exact Hi.
    apply byteCode_mkInstruction, toRaw_range.
  - rewrite setByteCode_mkInstruction by exact Hi.
    apply parameter_low_bits.
    rewrite land_raw_mask by apply toRaw_range.
    apply eq_sym, land_mask_mod.
Qed.

Lemma setters_keep_the_other_field_witness :
  (parameter (Mutators.setParameter (mkInstruction (toRaw JMP) 7) (-3)) = -3 /\
   byteCode (Mutators.setParameter (mkInstruction (toRaw JMP) 7) (-3))
   = byteCode (mkInstruction (toRaw JMP) 7)) /\
  (byteCode (Mutators.setByteCode (mkInstruction (toRaw JMP) 7) (toRaw DROP))
   = toRaw DROP /\
   parameter (Mutators.setByteCode (mkInstruction (toRaw JMP) 7) (toRaw DROP))
   = parameter (mkInstruction (toRaw JMP) 7)).
Proof.
  apply (setters_keep_the_other_field (mkInstruction (toRaw JMP) 7) DROP (-3)).
  - unfold Mutators.isRaw. vm_compute. split; [discriminate | reflexivity].
  - lia.
Defined.

Section Wrap.

Lemma to_signed_24_range (p : Z) : - 2 ^ 23 <= to_signed 24 p < 2 ^ 23.
Proof.
  unfold to_signed.
  pose proof (Z.mod_pos_bound p (2 ^ 24) ltac:(lia)) as H.
  change (24 - 1) with 23.
  destruct (Z.ltb_spec (p mod 2 ^ 24) (2 ^ 23)); lia.
Qed.

Lemma to_signed_24_congruent (p : Z) : (to_signed 24 p - p) mod 2 ^ 24 = 0.
Proof.
  unfold to_signed. change (24 - 1) with 23.
  destruct (Z.ltb_spec (p mod 2 ^ 24) (2 ^ 23)).
  - rewrite Zminus_mod_idemp_l, Z.sub_diag. reflexivity.
  - replace (p mod 2 ^ 24 - 2 ^ 24 - p) with ((p mod 2 ^ 24 - p) + (-1) * 2 ^ 24) by lia.
    rewrite Z.mod_add by lia.
    rewrite Zminus_mod_idemp_l, Z.sub_diag. reflexivity.
Qed.

Lemma parameter_mkInstruction_wraps (b p : Z) :
  0 <= b < 256 -> parameter (mkInstruction b p) = to_signed 24 p.
Proof.
  intros Hb.
  rewrite <- (parameter_mkInstruction b (to_signed 24 p) Hb (to_signed_24_range p)).
  apply parameter_low_bits.
  rewrite !land_raw_mask by exact Hb.
  pose proof (to_signed_24_congruent p) as H.
  apply Z.mod_divide in H; [|lia]. destruct H as [k Hk].
  replace (to_signed 24 p) with (p + k * 2 ^ 24) by lia.
  symmetry. apply Z.mod_add. lia.
Qed.

End Wrap.

(** X5. An immediate outside [-2^23, 2^23) is not rejected by the
    constructor [Instruction(bc, p)]: the opcode is kept, and
    [parameter()] returns the value of the 24-bit range that differs from
    [p] by a multiple of [2^24]. *)
Theorem immediate_wraps (bc : ByteCode) (p : Param) :
  let q := parameter (mkInstruction (toRaw bc) p) in
  byteCode (mkInstruction (toRaw bc) p) = toRaw bc /\
  - 2 ^ 23 <= q < 2 ^ 23 /\
  (q - p) mod 2 ^ 24 = 0.
Proof.
  cbv zeta. rewrite parameter_mkInstruction_wraps by apply toRaw_range.
  split; [apply byteCode_mkInstruction, toRaw_range|].
  split; [apply to_signed_24_range | apply to_signed_24_congruent].
Qed.

Lemma toRaw_inj (bc bc' : ByteCode) : toRaw bc = toRaw bc' -> bc = bc'.
Proof.
  intros H. pose proof (ofRaw_toRaw bc) as H1. rewrite H, ofRaw_toRaw in H1.
  congruence.
Qed.

(** X6. [operator==] compares the raw words: two instructions built from
    enumerators and immediates of the 24-bit range are equal exactly when
    the enumerators are equal and the immediates are equal. *)
Theorem equal_instructions_decode_alike (bc bc' : ByteCode) (p p' : Param) :
  - 2 ^ 23 <= p < 2 ^ 23 ->
  - 2 ^ 23 <= p' < 2 ^ 23 ->
  instruction_eqb (mkInstruction (toRaw bc) p) (mkInstruction (toRaw bc') p') = true
  <-> bc = bc' /\ p = p'.
Proof.
  intros Hp Hp'. unfold instruction_eqb. rewrite Z.eqb_eq. split.
  - intros H.
    assert (Hi : mkInstruction (toRaw bc) p = mkInstruction (toRaw bc') p').
    { destruct (mkInstruction (toRaw bc) p), (mkInstruction (toRaw bc') p').
      cbn in H. congruence. }
    split.
    + apply toRaw_inj.
      rewrite <- (byteCode_mkInstruction (toRaw bc) p (toRaw_range bc)).
      rewrite Hi. apply byteCode_mkInstruction, toRaw_range.
    + rewrite <- (parameter_mkInstruction (toRaw bc) p (toRaw_range bc) Hp).
      rewrite Hi. apply parameter_mkInstruction; [apply toRaw_range | exact Hp'].
  - intros [-> ->]. reflexivity.
Qed.

Lemma equal_instructions_decode_alike_witness :
  instruction_eqb (mkInstruction (toRaw JMP) 5) (mkInstruction (toRaw JMP) 5) = true
  <-> JMP = JMP /\ 5 = 5.
Proof. apply (equal_instructions_decode_alike JMP JMP 5 5); lia. Defined.

Lemma sentinel_word (b p : Z) :
  0 <= b < 256 ->
  instruction_eqb (mkInstruction b p) END_SECTION_INSTRUCTION = true
  <-> b = 0 /\ p mod 2 ^ 24 = 0.
Proof.
  intros Hb. unfold instruction_eqb. rewrite Z.eqb_eq.
  rewrite raw_mkInstruction by exact Hb.
  change (raw END_SECTION_INSTRUCTION) with 0.
  pose proof (Z.mod_pos_bound p (2 ^ 24) ltac:(lia)). lia.
Qed.

(** X7. The loop of [interpret] (core.cpp 1052-1139) ends only at the word
    of [END_SECTION], opcode 0 with immediate 0.  An instruction with the
    opcode of [END_SECTION] and another immediate, or with a byte that is
    no enumerator, passes the loop test and reaches the [default:] label,
    where [assert(false)] fails. *)
Theorem stray_instruction_aborts (rt : Om.Runtime) (vm : Om.VirtualMachine rt)
        (interpret : Z -> Om.Exec rt Om.Value)
        (fuel : nat) (f : FunctionSpec) (args ip : Z)
        (b : RawByteCode) (p : Param) (c : Om.Context rt) :
  0 <= b < 256 ->
  fetch f ip = Some (mkInstruction b p) ->
  (b = toRaw END_SECTION /\ p mod 2 ^ 24 <> 0) \/ ofRaw b = None ->
  instruction_eqb (mkInstruction b p) END_SECTION_INSTRUCTION = false /\
  Om.interpretLoop rt vm interpret (S fuel) f args ip c = AssertFailed.
Proof.
  intros Hb Hf Hcase.
  assert (Hne : instruction_eqb (mkInstruction b p) END_SECTION_INSTRUCTION = false).
  { apply not_true_is_false. rewrite sentinel_word by exact Hb.
    intros [-> Hp]. destruct Hcase as [[_ Hn]|Hn]; [tauto | discriminate Hn]. }
  split; [exact Hne|].
  rewrite (om_loop_turn rt vm interpret fuel f args ip _ c Hf Hne).
  unfold bind at 1. unfold Om.dispatch.
  rewrite byteCode_mkInstruction by exact Hb.
  destruct Hcase as [[-> _] | Hn]; [|rewrite Hn]; reflexivity.
Qed.

Lemma stray_instruction_aborts_witness :
  Om.interpretLoop Samples.noObjects Samples.omVM
    (Om.interpret Samples.noObjects Samples.omVM 0) 1
    (mkFunctionSpec "stray" 0 0 [mkInstruction 0 5; END_SECTION_INSTRUCTION])
    0 0 Samples.omContext
  = AssertFailed /\
  Om.interpretLoop Samples.noObjects Samples.omVM
    (Om.interpret Samples.noObjects Samples.omVM 0) 1
    (mkFunctionSpec "stray" 0 0 [mkInstruction 0x16 0; END_SECTION_INSTRUCTION])
    0 0 Samples.omContext
  = AssertFailed.
Proof.
  split.
  - refine (proj2 (stray_instruction_aborts Samples.noObjects Samples.omVM _ 0 _ 0 0 0 5 _ _ _ _)).
    + lia.
    + reflexivity.
    + left. split; [reflexivity | discriminate].
  - refine (proj2 (stray_instruction_aborts Samples.noObjects Samples.omVM _ 0 _ 0 0 0x16 0 _ _ _ _)).
    + lia.
    + reflexivity.
    + right. reflexivity.
Defined.

(** ** The compiled-code table *)

Section FacadeFacts.
Context {J P : Type}.
Variable generateCode : Z -> option J.

Lemma getJitAddress_lookup (vm : VirtualMachine J P) (i : Z) :
  0 <= i < size (compiledFunctions_ vm) ->
  getJitAddress vm i = compiledFunctions_ vm !! Z.to_nat i.
Proof.
  intros H. unfold getJitAddress, vector_at. unfold size in *.
  destruct (Z.leb_spec (Z.of_nat (length (compiledFunctions_ vm))) i); [lia|].
  destruct (Z.leb_spec 0 i); [|lia].
  destruct (Z.ltb_spec i (Z.of_nat (length (compiledFunctions_ vm)))); [|lia].
  reflexivity.
Qed.

Lemma generateFrom_appends (turns : nat) :
  forall (k : Z) (vm : VirtualMachine J P),
    Facade.generateFrom generateCode turns k vm
    = Ok tt (mkVM (cfg_ vm) (module_ vm)
               (compiledFunctions_ vm
                  ++ List.map (fun n => generateCode (k + Z.of_nat n)) (seq 0 turns))).
Proof.
  induction turns as [|turns IH]; intros k vm.
  - cbn. rewrite app_nil_r. destruct vm; reflexivity.
  - cbn [Facade.generateFrom]. unfold bind, Facade.push_back.
    rewrite IH. cbn [cfg_ module_ compiledFunctions_].
    rewrite <- app_assoc. do 3 f_equal.
    cbn [seq List.map app]. rewrite Z.add_0_r. f_equal.
    rewrite <- seq_shift, List.map_map.
    apply List.map_ext. intros n. f_equal. lia.
Qed.

End FacadeFacts.

(** X8. [setJitAddress] (core.cpp 329-331, 880-883) overwrites one entry of
    [compiledFunctions_]: [getJitAddress] then returns the value at that
    index and what it returned before at every other, and the table keeps
    its size.  At an index at or beyond the size the assignment is an
    access outside the vector; a table that was not filled has no index
    that can be set. *)
Theorem setJitAddress_overwrites_one_entry {J P : Type}
        (vm : VirtualMachine J P) (i : Z) (value : option J) :
  (0 <= i < size (compiledFunctions_ vm) ->
   exists vm',
     Facade.setJitAddress i value vm = Ok tt vm' /\
     getJitAddress vm' i = Some value /\
     (forall j, j <> i -> getJitAddress vm' j = getJitAddress vm j) /\
     size (compiledFunctions_ vm') = size (compiledFunctions_ vm)) /\
  (size (compiledFunctions_ vm) <= i ->
   Facade.setJitAddress i value vm = Undefined).
Proof.
  split.
  - intros Hi. unfold Facade.setJitAddress.
    destruct (Z.leb_spec 0 i); [|lia].
    destruct (Z.ltb_spec i (size (compiledFunctions_ vm))); [|lia].
    cbn [andb]. eexists. split; [reflexivity|].
    assert (Hlen : size (<[Z.to_nat i := value]> (compiledFunctions_ vm))
                   = size (compiledFunctions_ vm)).
    { unfold size. rewrite length_insert. reflexivity. }
    split; [|split].
    + rewrite getJitAddress_lookup by (cbn [compiledFunctions_]; lia).
      cbn [compiledFunctions_]. apply list_lookup_insert_eq.
      unfold size in *. lia.
    + intros j Hj. unfold getJitAddress, vector_at. cbn [compiledFunctions_].
      fold (size (<[Z.to_nat i := value]> (compiledFunctions_ vm))).
      fold (size (compiledFunctions_ vm)).
      rewrite Hlen.
      destruct (size (compiledFunctions_ vm) <=? j); [reflexivity|].
      destruct (Z.leb_spec 0 j); [|reflexivity].
      destruct (j <? size (compiledFunctions_ vm)); [|reflexivity].
      cbn [andb]. apply list_lookup_insert_ne. lia.
    + exact Hlen.
  - intros Hi. unfold Facade.setJitAddress.
    destruct (Z.ltb_spec i (size (compiledFunctions_ vm))); [lia|].
    rewrite andb_false_r. reflexivity.
Qed.

Lemma setJitAddress_overwrites_one_entry_witness :
  getJitAddress
    (mkVM Samples.jitPassParam Samples.oldModule
          [Some Samples.sumArgs; None; Some Samples.sumArgs; Some Samples.sumArgs;
           Some Samples.sumArgs]) 1
  = Some None /\
  Facade.setJitAddress 0 (Some Samples.sumArgs) Samples.oldVM = Undefined.
Proof.
  split.
  - destruct (proj1 (setJitAddress_overwrites_one_entry Samples.jitVM 1 None))
      as (vm' & Hset & Hget & _).
    + vm_compute. split; [discriminate | reflexivity].
    + injection Hset as <-. exact Hget.
  - apply (proj2 (setJitAddress_overwrites_one_entry Samples.oldVM 0
                    (Some Samples.sumArgs))).
    vm_compute. discriminate.
Defined.

(** X9. [generateAllCode] (core.cpp 905-917) fails its assertion when the
    JIT is off.  Otherwise it appends one entry per function, in the order
    of the function indices, to whatever [compiledFunctions_] holds: the
    entries there before stay, and the entry [size + k] is the code
    generated for the function [k]; on an empty table [getJitAddress k] is
    then the code of the function [k]. *)
Theorem generateAllCode_appends_one_entry_per_function {J P : Type}
        (generateCode : Z -> option J) (vm : VirtualMachine J P) :
  (jit (cfg_ vm) = false ->
   Facade.generateAllCode generateCode vm = AssertFailed) /\
  (jit (cfg_ vm) = true ->
   exists vm',
     Facade.generateAllCode generateCode vm = Ok tt vm' /\
     cfg_ vm' = cfg_ vm /\ module_ vm' = module_ vm /\
     size (compiledFunctions_ vm')
     = size (compiledFunctions_ vm) + getFunctionCount vm /\
     (forall i, 0 <= i < size (compiledFunctions_ vm) ->
                getJitAddress vm' i = getJitAddress vm i) /\
     (forall k, 0 <= k < getFunctionCount vm ->
                getJitAddress vm' (size (compiledFunctions_ vm) + k)
                = Some (generateCode k))).
Proof.
  split.
  - intros Hjit. unfold Facade.generateAllCode, bind, get, assert.
    rewrite Hjit. reflexivity.
  - intros Hjit. unfold Facade.generateAllCode, bind, get, assert.
    rewrite Hjit. rewrite generateFrom_appends.
    eexists. split; [reflexivity|].
    remember (Z.to_nat (getFunctionCount vm)) as n eqn:En.
    assert (Hn : Z.of_nat n = getFunctionCount vm).
    { subst n. unfold getFunctionCount, size. lia. }
    remember (List.map (fun m => generateCode (0 + Z.of_nat m)) (seq 0 n))
      as new eqn:Enew.
    assert (Hnew : length new = n).
    { subst new. rewrite length_map, length_seq. reflexivity. }
    assert (Hsize : size (compiledFunctions_ vm ++ new)
                    = size (compiledFunctions_ vm) + getFunctionCount vm).
    { unfold size. rewrite length_app, Hnew. lia. }
    split; [reflexivity|]. split; [reflexivity|].
    split; [exact Hsize|].
    assert (Hcount : 0 <= getFunctionCount vm) by lia.
    split.
    + intros i Hi.
      rewrite (getJitAddress_lookup vm) by lia.
      rewrite getJitAddress_lookup by (cbn [compiledFunctions_]; lia).
      cbn [compiledFunctions_]. apply lookup_app_l. unfold size in Hi. lia.
    + intros k Hk.
      assert (0 <= size (compiledFunctions_ vm)) by (unfold size; lia).
      rewrite getJitAddress_lookup by (cbn [compiledFunctions_]; lia).
      cbn [compiledFunctions_].
      rewrite lookup_app_r by (unfold size; lia).
      replace (Z.to_nat (size (compiledFunctions_ vm) + k)
               - length (compiledFunctions_ vm))%nat
        with (Z.to_nat k) by (unfold size; lia).
      rewrite Enew. rewrite list_lookup_fmap.
      rewrite lookup_seq_lt by lia.
      cbn. f_equal. f_equal. lia.
Qed.

Lemma generateAllCode_appends_one_entry_per_function_witness :
  Facade.generateAllCode (fun _ => Some Samples.sumArgs) Samples.oldVM
  = AssertFailed /\
  exists vm',
    Facade.generateAllCode (fun _ => Some Samples.sumArgs)
      (mkVM Samples.jitPassParam Samples.oldModule []) = Ok tt vm' /\
    size (compiledFunctions_ vm') = 5.
Proof.
  split.
  - apply (proj1 (generateAllCode_appends_one_entry_per_function
                    (fun _ => Some Samples.sumArgs) Samples.oldVM)).
    reflexivity.
  - destruct (proj2 (generateAllCode_appends_one_entry_per_function
                       (fun _ => Some Samples.sumArgs)
                       (mkVM Samples.jitPassParam Samples.oldModule [])) eq_refl)
      as (vm' & Hgen & _ & _ & Hsize & _).
    exists vm'. split; [exact Hgen | exact Hsize].
Defined.

(** ** The execution context over the raw stack *)

Section ExecCells.
Implicit Types c : Exec.ExecutionContext.

Lemma cell_Some c (i : Z) (v : Exec.StackElement) :
  cell c i = Some v -> 0 <= i < size (Exec.stack_ c).
Proof. unfold cell. rewrite vector_at_Some. tauto. Qed.

Lemma cell_insert_eq (l : list Exec.StackElement) (p pc i : Z)
      (v : Exec.StackElement) :
  0 <= i < size l ->
  cell (Exec.mkContext p (<[Z.to_nat i := v]> l) pc) i = Some v.
Proof.
  intros H. unfold cell. cbn [Exec.stack_]. apply vector_at_Some.
  unfold size in *. rewrite length_insert. split; [lia|].
  apply list_lookup_insert_eq. lia.
Qed.

Lemma cell_insert_ne (l : list Exec.StackElement) (p pc q pc' i j : Z)
      (v : Exec.StackElement) :
  0 <= i -> j <> i ->
  cell (Exec.mkContext p (<[Z.to_nat i := v]> l) pc) j
  = cell (Exec.mkContext q l pc') j.
Proof.
  intros Hi Hj. unfold cell, vector_at. cbn [Exec.stack_].
  rewrite length_insert.
  destruct (Z.leb_spec 0 j); [|reflexivity].
  destruct (j <? Z.of_nat (length l)); [|reflexivity].
  cbn [andb]. apply list_lookup_insert_ne. lia.
Qed.

Lemma exec_store_Ok c (i : Z) (v : Exec.StackElement) :
  0 <= i < size (Exec.stack_ c) ->
  Exec.store i v c
  = Ok tt (Exec.mkContext (Exec.stackPointer_ c)
             (<[Z.to_nat i := v]> (Exec.stack_ c)) (Exec.programCounter_ c)).
Proof.
  intros H. unfold Exec.store.
  destruct (Z.leb_spec 0 i); [|lia].
  destruct (Z.ltb_spec i (size (Exec.stack_ c))); [|lia].
  reflexivity.
Qed.

Lemma exec_push_full c (v : Exec.StackElement) :
  size (Exec.stack_ c) <= Exec.stackPointer_ c -> Exec.push v c = Undefined.
Proof.
  intros H. unfold Exec.push, bind, get, Exec.store.
  destruct (Z.ltb_spec (Exec.stackPointer_ c) (size (Exec.stack_ c))); [lia|].
  rewrite andb_false_r. reflexivity.
Qed.

Lemma exec_pop_empty c :
  Exec.stackPointer_ c <= 0 -> Exec.pop c = Undefined.
Proof.
  intros H. unfold Exec.pop, bind, get, Exec.setStackPointer, Exec.load.
  cbn [Exec.stack_]. unfold vector_at.
  destruct (Z.leb_spec 0 (Exec.stackPointer_ c - 1)); [lia|]. reflexivity.
Qed.

End ExecCells.

(** X10. [push] then [pop] (core.cpp 21-23, 713-715) returns the value
    pushed and leaves the stack pointer where it was, the value written in
    the cell it points at.  [push] on a full stack and [pop] on an empty
    one are accesses outside [stack_]. *)
Theorem push_then_pop (c : Exec.ExecutionContext) (v : Exec.StackElement) :
  (0 <= Exec.stackPointer_ c < size (Exec.stack_ c) ->
   bind (Exec.push v) (fun _ => Exec.pop) c
   = Ok v (Exec.mkContext (Exec.stackPointer_ c)
             (<[Z.to_nat (Exec.stackPointer_ c) := v]> (Exec.stack_ c))
             (Exec.programCounter_ c))) /\
  (size (Exec.stack_ c) <= Exec.stackPointer_ c -> Exec.push v c = Undefined) /\
  (Exec.stackPointer_ c <= 0 -> Exec.pop c = Undefined).
Proof.
  split; [|split].
  - intros H. rewrite (bind_Ok _ _ _ _ _ (exec_push_Ok c v H)).
    rewrite (exec_pop_Ok _ v).
    + cbn [Exec.stackPointer_]. unfold setTop. cbn. do 2 f_equal. lia.
    + cbn [Exec.stackPointer_].
      replace (Exec.stackPointer_ c + 1 - 1) with (Exec.stackPointer_ c) by lia.
      apply cell_insert_eq. exact H.
  - apply exec_push_full.
  - apply exec_pop_empty.
Qed.

Lemma push_then_pop_witness :
  bind (Exec.push 9) (fun _ => Exec.pop) Samples.smallContext
  = Ok 9 (Exec.mkContext 0 [9; 0; 0; 0; 0; 0; 0; 0] 0) /\
  Exec.push 9 Samples.eightPushed = Undefined /\
  Exec.pop Samples.smallContext = Undefined.
Proof.
  split; [|split].
  - apply (proj1 (push_then_pop Samples.smallContext 9)). vm_compute.
    split; [discriminate | reflexivity].
  - apply (proj1 (proj2 (push_then_pop Samples.eightPushed 9))). vm_compute.
    discriminate.
  - apply (proj2 (proj2 (push_then_pop Samples.smallContext 9))). vm_compute.
    discriminate.
Defined.

Section ExecArithmetic.
Implicit Types c : Exec.ExecutionContext.

Lemma exec_pop_operands {A} (k : Z -> Z -> Exec.Exec A) c (l r : Z) :
  cell c (Exec.stackPointer_ c - 1) = Some r ->
  cell c (Exec.stackPointer_ c - 2) = Some l ->
  bind Exec.pop (fun right => bind Exec.pop (fun left => k left right)) c
  = k l r (setTop c (Exec.stackPointer_ c - 2)).
Proof.
  intros Hr Hl.
  rewrite (bind_Ok _ _ _ _ _ (exec_pop_Ok c r Hr)).
  rewrite (bind_Ok _ _ _ _ _
             (exec_pop_at c (Exec.stackPointer_ c - 1) l
                ltac:(replace (Exec.stackPointer_ c - 1 - 1)
                        with (Exec.stackPointer_ c - 2) by lia; exact Hl))).
  f_equal. unfold setTop. f_equal. lia.
Qed.

Lemma int64_small (x : Z) : is_int64 x -> Exec.int64 x = x.
Proof.
  unfold is_int64, Exec.int64, to_signed. intros H.
  change (64 - 1) with 63.
  destruct (Z.ltb_spec (x mod 2 ^ 64) (2 ^ 63)) as [Hlt|Hge].
  - destruct (Z.leb_spec 0 x).
    + rewrite Z.mod_small by lia. reflexivity.
    + exfalso. replace x with ((x + 2 ^ 64) + (-1) * 2 ^ 64) in Hlt by lia.
      rewrite Z.mod_add in Hlt by lia. rewrite Z.mod_small in Hlt by lia. lia.
  - destruct (Z.leb_spec 0 x).
    + rewrite Z.mod_small in Hge by lia. lia.
    + replace x with ((x + 2 ^ 64) + (-1) * 2 ^ 64) at 1 by lia.
      rewrite Z.mod_add by lia. rewrite Z.mod_small by lia. lia.
Qed.

Lemma exec_binary (op : Z -> Z -> Z) c (l r : Z) :
  cell c (Exec.stackPointer_ c - 1) = Some r ->
  cell c (Exec.stackPointer_ c - 2) = Some l ->
  bind Exec.pop (fun right => bind Exec.pop (fun left =>
    Exec.push (Exec.int64 (op left right)))) c
  = Ok tt (Exec.mkContext (Exec.stackPointer_ c - 1)
             (<[Z.to_nat (Exec.stackPointer_ c - 2) := Exec.int64 (op l r)]>
                (Exec.stack_ c))
             (Exec.programCounter_ c)).
Proof.
  intros Hr Hl. rewrite (exec_pop_operands _ c l r Hr Hl).
  pose proof (cell_Some _ _ _ Hl) as Hb.
  rewrite exec_push_Ok by (cbn; exact Hb).
  cbn. do 2 f_equal. lia.
Qed.

End ExecArithmetic.

(** X11. [intAdd] and [intSub] (core.cpp 106-119, 742-754): with [l] pushed
    before [r], both are popped and [l + r], or [l - r], is pushed: it lies
    where [l] lay and the stack pointer is one lower.  The result is the
    exact sum or difference when that is a [std::int64_t]. *)
Theorem intAdd_intSub_replace_the_operands (c : Exec.ExecutionContext) (l r : Z) :
  cell c (Exec.stackPointer_ c - 1) = Some r ->
  cell c (Exec.stackPointer_ c - 2) = Some l ->
  let result v :=
    Ok tt (Exec.mkContext (Exec.stackPointer_ c - 1)
             (<[Z.to_nat (Exec.stackPointer_ c - 2) := v]> (Exec.stack_ c))
             (Exec.programCounter_ c)) in
  (is_int64 (l + r) -> Exec.intAdd c = result (l + r)) /\
  (is_int64 (l - r) -> Exec.intSub c = result (l - r)).
Proof.
  intros Hr Hl result. split; intros Hfit.
  - unfold Exec.intAdd. rewrite (exec_binary Z.add c l r Hr Hl).
    rewrite int64_small by exact Hfit. reflexivity.
  - unfold Exec.intSub. rewrite (exec_binary Z.sub c l r Hr Hl).
    rewrite int64_small by exact Hfit. reflexivity.
Qed.

Lemma intAdd_intSub_replace_the_operands_witness :
  Exec.intAdd (Exec.mkContext 2 [5; 7; 0; 0] 0)
  = Ok tt (Exec.mkContext 1 [12; 7; 0; 0] 0) /\
  Exec.intSub (Exec.mkContext 2 [5; 7; 0; 0] 0)
  = Ok tt (Exec.mkContext 1 [-2; 7; 0; 0] 0).
Proof.
  split.
  - apply (proj1 (intAdd_intSub_replace_the_operands
                    (Exec.mkContext 2 [5; 7; 0; 0] 0) 5 7 eq_refl eq_refl)).
    vm_compute. split; [discriminate | reflexivity].
  - apply (proj2 (intAdd_intSub_replace_the_operands
                    (Exec.mkContext 2 [5; 7; 0; 0] 0) 5 7 eq_refl eq_refl)).
    vm_compute. split; [discriminate | reflexivity].
Defined.

(** X12. [pushIntoVar] then [pushFromVar] at the same offset (core.cpp
    36-42, 734-740): the value popped is back on top, the stack pointer is
    where it was, the variable holds the value, and no other cell has
    changed. *)
Theorem variable_store_then_load (c : Exec.ExecutionContext) (args : Z)
        (offset : Param) (v : Exec.StackElement) :
  cell c (Exec.stackPointer_ c - 1) = Some v ->
  0 <= args + offset < size (Exec.stack_ c) ->
  exists c',
    bind (Exec.pushIntoVar args offset)
         (fun _ => Exec.pushFromVar args offset) c = Ok tt c' /\
    Exec.stackPointer_ c' = Exec.stackPointer_ c /\
    cell c' (Exec.stackPointer_ c - 1) = Some v /\
    cell c' (args + offset) = Some v /\
    (forall i, i <> args + offset -> cell c' i = cell c i).
Proof.
  intros Hv Hvar.
  pose proof (cell_Some _ _ _ Hv) as Hsp.
  set (sp := Exec.stackPointer_ c) in *.
  set (c1 := Exec.mkContext (sp - 1)
               (<[Z.to_nat (args + offset) := v]> (Exec.stack_ c))
               (Exec.programCounter_ c)).
  assert (H1 : Exec.pushIntoVar args offset c = Ok tt c1).
  { unfold Exec.pushIntoVar.
    rewrite (bind_Ok _ _ _ _ _ (exec_pop_Ok c v Hv)).
    rewrite exec_store_Ok by (cbn; exact Hvar). reflexivity. }
  assert (Hsize : size (Exec.stack_ c1) = size (Exec.stack_ c)).
  { unfold c1, size. cbn. rewrite length_insert. reflexivity. }
  assert (Hload : cell c1 (args + offset) = Some v).
  { apply cell_insert_eq. exact Hvar. }
  set (c2 := Exec.mkContext sp
               (<[Z.to_nat (sp - 1) := v]> (Exec.stack_ c1))
               (Exec.programCounter_ c)).
  assert (H2 : Exec.pushFromVar args offset c1 = Ok tt c2).
  { unfold Exec.pushFromVar.
    rewrite (bind_Ok _ _ _ _ _ (exec_load_Ok c1 _ v Hload)).
    rewrite exec_push_Ok by (rewrite Hsize; cbn; lia).
    unfold c2. cbn. do 2 f_equal. lia. }
  exists c2. split; [rewrite (bind_Ok _ _ _ _ _ H1); exact H2|].
  split; [reflexivity|].
  assert (Htop : cell c2 (sp - 1) = Some v).
  { apply cell_insert_eq. rewrite Hsize. lia. }
  split; [exact Htop|].
  split.
  - destruct (Z.eq_dec (args + offset) (sp - 1)) as [->|Hne]; [exact Htop|].
    unfold c2. rewrite (cell_insert_ne _ _ _ (sp - 1) (Exec.programCounter_ c))
      by lia.
    exact Hload.
  - intros i Hi.
    destruct (Z.eq_dec i (sp - 1)) as [->|Hne].
    + rewrite Htop. symmetry. exact Hv.
    + unfold c2. rewrite (cell_insert_ne _ _ _ (sp - 1) (Exec.programCounter_ c))
        by lia.
      unfold c1. cbn [Exec.stack_].
      rewrite (cell_insert_ne _ _ _ sp (Exec.programCounter_ c)) by lia.
      destruct c. reflexivity.
Qed.

Lemma variable_store_then_load_witness :
  exists c',
    bind (Exec.pushIntoVar 0 1) (fun _ => Exec.pushFromVar 0 1)
         (Exec.mkContext 3 [4; 0; 9; 0] 0) = Ok tt c' /\
    Exec.stackPointer_ c' = 3 /\
    cell c' 2 = Some 9 /\
    cell c' 1 = Some 9.
Proof.
  destruct (variable_store_then_load (Exec.mkContext 3 [4; 0; 9; 0] 0) 0 1 9)
    as (c' & Hrun & Hsp & Htop & Hvar & _).
  - reflexivity.
  - vm_compute. split; [discriminate | reflexivity].
  - exists c'. repeat split; assumption.
Defined.

Section OldJumps.
Variable ofRaw : RawByteCode -> option OldBytecode.ByteCode.
Variable vm : Exec.VirtualMachine.
Variable callFunction : Z -> Exec.Exec Exec.StackElement.
Implicit Types c : Exec.ExecutionContext.

Lemma exec_intJmp (test : Z -> Z -> bool) (delta : Param) c (l r : Z) :
  cell c (Exec.stackPointer_ c - 1) = Some r ->
  cell c (Exec.stackPointer_ c - 2) = Some l ->
  Exec.intJmp test delta c
  = Ok (if test l r then delta else 0) (setTop c (Exec.stackPointer_ c - 2)).
Proof.
  intros Hr Hl. unfold Exec.intJmp.
  rewrite (exec_pop_operands _ c l r Hr Hl).
  destruct (test l r); reflexivity.
Qed.

Lemma interp_dispatch_jump (args ip : Z) (i : Instruction)
      (bc : OldBytecode.ByteCode) (holds : Z -> Z -> Prop) c (l r : Z) :
  ofRaw (byteCode i) = Some bc ->
  oldComparison bc = Some holds ->
  cell c (Exec.stackPointer_ c - 1) = Some r ->
  cell c (Exec.stackPointer_ c - 2) = Some l ->
  exists taken : bool,
    (taken = true <-> holds l r) /\
    Interp.dispatch ofRaw vm callFunction args ip i c
    = Ok (Break (ip + (if taken then parameter i else 0)))
         (setTop c (Exec.stackPointer_ c - 2)).
Proof.
  intros Hbc Hcmp Hr Hl. unfold Interp.dispatch. rewrite Hbc.
  destruct bc; try discriminate Hcmp; injection Hcmp as <-;
    unfold Exec.intJmpEq, Exec.intJmpNeq, Exec.intJmpGt, Exec.intJmpGe,
      Exec.intJmpLt, Exec.intJmpLe;
    rewrite (bind_Ok _ _ _ _ _ (exec_intJmp _ (parameter i) c l r Hr Hl));
    cbv [ret].
  - exists (l =? r). split; [apply Z.eqb_eq | reflexivity].
  - exists (negb (l =? r)). split; [|reflexivity].
    rewrite negb_true_iff, Z.eqb_neq. tauto.
  - exists (l >? r). split; [|reflexivity]. rewrite Z.gtb_ltb, Z.ltb_lt. lia.
  - exists (l >=? r). split; [|reflexivity]. rewrite Z.geb_leb, Z.leb_le. lia.
  - exists (l <? r). split; [apply Z.ltb_lt | reflexivity].
  - exists (l <=? r). split; [apply Z.leb_le | reflexivity].
Qed.

End OldJumps.

(** ** One turn of the loop of [interpretFunction] and what follows it *)

Section InterpTurn.
Variable ofRaw : RawByteCode -> option OldBytecode.ByteCode.
Variable vm : Exec.VirtualMachine.
Variable callFunction : Z -> Exec.Exec Exec.StackElement.
Implicit Types c : Exec.ExecutionContext.

Lemma interp_turn_of_dispatch (f : FunctionSpec) (args ip ip1 : Z)
      (i : Instruction) c c1 :
  fetch f ip = Some i ->
  instruction_eqb i END_SECTION_INSTRUCTION = false ->
  Interp.dispatch ofRaw vm callFunction args ip i c = Ok (Break ip1) c1 ->
  interpTurn ofRaw vm callFunction f args ip c = Some (ip1 + 1, tick c1).
Proof. intros Hf Hne Hd. unfold interpTurn. rewrite Hf, Hne, Hd. reflexivity. Qed.

(** The loop takes the turn [interpTurn] describes. *)
Lemma interp_turn_loop (fuel : nat) (f : FunctionSpec) (args ip ip' : Z) c c' :
  interpTurn ofRaw vm callFunction f args ip c = Some (ip', c') ->
  Interp.interpretLoop ofRaw vm callFunction (S fuel) f args ip c
  = Interp.interpretLoop ofRaw vm callFunction fuel f args ip' c'.
Proof.
  intros Ht. apply interp_turn_inv in Ht.
  destruct Ht as (i & ip1 & c1 & Hf & Hne & Hd & Heq).
  injection Heq as -> ->.
  rewrite (interp_loop_turn ofRaw vm callFunction fuel f args ip i c Hf Hne).
  rewrite (bind_Ok _ _ _ _ _ Hd). reflexivity.
Qed.

(** The [FUNCTION_RETURN] case of the [switch] (core.cpp 571-576). *)
Lemma interp_dispatch_return (args ip : Z) (i : Instruction) c
      (v : Exec.StackElement) :
  ofRaw (byteCode i) = Some OldBytecode.FUNCTION_RETURN ->
  cell c (Exec.stackPointer_ c - 1) = Some v ->
  Interp.dispatch ofRaw vm callFunction args ip i c
  = Ok (Returned v) (setTop c args).
Proof.
  intros Hbc Hv. unfold Interp.dispatch. rewrite Hbc.
  rewrite (bind_Ok _ _ _ _ _ (exec_top_Ok c v Hv)). reflexivity.
Qed.

(** A run of [n] turns that ends at a [FUNCTION_RETURN] makes the loop
    return the element under the stack pointer, as soon as the budget
    covers the [n] turns. *)
Lemma interp_loop_reaches_return (f : FunctionSpec) (args : Z) (n : nat) :
  forall (fuel : nat) (ip ipe : Z) (i : Instruction) c ce
         (v : Exec.StackElement),
    runs (interpTurn ofRaw vm callFunction f args) n (ip, c) (ipe, ce) ->
    fetch f ipe = Some i ->
    instruction_eqb i END_SECTION_INSTRUCTION = false ->
    ofRaw (byteCode i) = Some OldBytecode.FUNCTION_RETURN ->
    cell ce (Exec.stackPointer_ ce - 1) = Some v ->
    (n < fuel)%nat ->
    Interp.interpretLoop ofRaw vm callFunction fuel f args ip c
    = Ok v (setTop ce args).
Proof.
  induction n as [| n IH];
    intros fuel ip ipe i c ce v Hruns Hf Hne Hbc Hv Hfuel;
    (destruct fuel as [| fuel]; [lia |]); inversion Hruns; subst.
  - rewrite (interp_loop_turn ofRaw vm callFunction fuel f args ipe i ce Hf Hne).
    rewrite (bind_Ok _ _ _ _ _ (interp_dispatch_return args ipe i ce v Hbc Hv)).
    reflexivity.
  - match goal with Ht : interpTurn _ _ _ _ _ _ _ = Some ?s |- _ =>
      destruct s as [ip' c'];
      rewrite (interp_turn_loop fuel f args ip ip' c c' Ht)
    end.
    apply (IH fuel ip' ipe i c' ce v);
      [assumption | exact Hf | exact Hne | exact Hbc | exact Hv | lia].
Qed.

(** What a turn of the loop means for the loop: it goes on where the turn
    leaves it; a run from there to the sentinel or to a [FUNCTION_RETURN]
    makes it return the element then under the stack pointer. *)
Lemma interp_turn_then (f : FunctionSpec) (args ip ip' : Z) c c' :
  interpTurn ofRaw vm callFunction f args ip c = Some (ip', c') ->
  (forall fuel : nat,
      Interp.interpretLoop ofRaw vm callFunction (S fuel) f args ip c
      = Interp.interpretLoop ofRaw vm callFunction fuel f args ip' c') /\
  (forall (fuel n : nat) (ipe : Z) ce (v : Exec.StackElement),
      runs (interpTurn ofRaw vm callFunction f args) n (ip', c') (ipe, ce) ->
      fetch f ipe = Some END_SECTION_INSTRUCTION ->
      cell ce (Exec.stackPointer_ ce - 1) = Some v ->
      (S n < fuel)%nat ->
      Interp.interpretLoop ofRaw vm callFunction fuel f args ip c = Ok v ce) /\
  (forall (fuel n : nat) (ipe : Z) (ir : Instruction) ce
          (v : Exec.StackElement),
      runs (interpTurn ofRaw vm callFunction f args) n (ip', c') (ipe, ce) ->
      fetch f ipe = Some ir ->
      instruction_eqb ir END_SECTION_INSTRUCTION = false ->
      ofRaw (byteCode ir) = Some OldBytecode.FUNCTION_RETURN ->
      cell ce (Exec.stackPointer_ ce - 1) = Some v ->
      (S n < fuel)%nat ->
      Interp.interpretLoop ofRaw vm callFunction fuel f args ip c
      = Ok v (setTop ce args)).
Proof.
  intros Ht. split; [|split].
  - intros fuel. apply interp_turn_loop. exact Ht.
  - intros fuel n ipe ce v Hruns Hend Hv Hfuel.
    rewrite (interp_loop_reaches_sentinel ofRaw vm callFunction f args (S n)
               fuel ip ipe c ce
               (runs_turn _ n ip c (ip', c') (ipe, ce) Ht Hruns) Hend Hfuel).
    apply exec_top_Ok. exact Hv.
  - intros fuel n ipe ir ce v Hruns Hf Hne Hbc Hv Hfuel.
    apply (interp_loop_reaches_return f args (S n) fuel ip ipe ir c ce v);
      [| exact Hf | exact Hne | exact Hbc | exact Hv | exact Hfuel].
    exact (runs_turn _ n ip c (ip', c') (ipe, ce) Ht Hruns).
Qed.

End InterpTurn.

(** X13. The conditional jumps of [interpretFunction] (core.cpp 583-600,
    with [intJmpEq] ... [intJmpLe], 52-104 and 760-812): [r], then [l], are
    popped whatever the comparison gives, and the [switch] breaks with
    both popped; the turn of the loop leaves it at [next], the instruction
    [ip + d + 1], [d] the immediate, when the comparison of [l] with [r]
    holds, and [ip + 1] when it does not, with the program counter
    incremented once.  So [interpretFunction] goes on from there: a run
    from [next] to the sentinel or to a [FUNCTION_RETURN] makes it return
    the element then under the stack pointer. *)
Theorem old_conditional_jump
        (ofRaw : RawByteCode -> option OldBytecode.ByteCode)
        (vm : Exec.VirtualMachine)
        (callFunction : Z -> Exec.Exec Exec.StackElement)
        (f : FunctionSpec) (args ip : Z) (i : Instruction)
        (bc : OldBytecode.ByteCode) (holds : Z -> Z -> Prop)
        (c : Exec.ExecutionContext) (l r : Z) :
  fetch f ip = Some i ->
  instruction_eqb i END_SECTION_INSTRUCTION = false ->
  ofRaw (byteCode i) = Some bc ->
  oldComparison bc = Some holds ->
  cell c (Exec.stackPointer_ c - 1) = Some r ->
  cell c (Exec.stackPointer_ c - 2) = Some l ->
  let popped := setTop c (Exec.stackPointer_ c - 2) in
  exists next : Z,
    (holds l r -> next = ip + parameter i + 1) /\
    (~ holds l r -> next = ip + 1) /\
    Interp.dispatch ofRaw vm callFunction args ip i c
    = Ok (Break (next - 1)) popped /\
    interpTurn ofRaw vm callFunction f args ip c = Some (next, tick popped) /\
    (forall fuel : nat,
        Interp.interpretLoop ofRaw vm callFunction (S fuel) f args ip c
        = Interp.interpretLoop ofRaw vm callFunction fuel f args next
            (tick popped)) /\
    (forall (fuel n : nat) (ipe : Z) (ce : Exec.ExecutionContext)
            (v : Exec.StackElement),
        runs (interpTurn ofRaw vm callFunction f args) n
             (next, tick popped) (ipe, ce) ->
        fetch f ipe = Some END_SECTION_INSTRUCTION ->
        cell ce (Exec.stackPointer_ ce - 1) = Some v ->
        (S n < fuel)%nat ->
        Interp.interpretLoop ofRaw vm callFunction fuel f args ip c
        = Ok v ce) /\
    (forall (fuel n : nat) (ipe : Z) (ir : Instruction)
            (ce : Exec.ExecutionContext) (v : Exec.StackElement),
        runs (interpTurn ofRaw vm callFunction f args) n
             (next, tick popped) (ipe, ce) ->
        fetch f ipe = Some ir ->
        instruction_eqb ir END_SECTION_INSTRUCTION = false ->
        ofRaw (byteCode ir) = Some OldBytecode.FUNCTION_RETURN ->
        cell ce (Exec.stackPointer_ ce - 1) = Some v ->
        (S n < fuel)%nat ->
        Interp.interpretLoop ofRaw vm callFunction fuel f args ip c
        = Ok v (setTop ce args)).
Proof.
  intros Hf Hne Hbc Hcmp Hr Hl popped.
  destruct (interp_dispatch_jump ofRaw vm callFunction args ip i bc holds c l r
              Hbc Hcmp Hr Hl) as (taken & Htaken & Hd).
  set (next := ip + (if taken then parameter i else 0) + 1).
  replace (ip + (if taken then parameter i else 0)) with (next - 1) in Hd
    by (unfold next; lia).
  pose proof (interp_turn_of_dispatch ofRaw vm callFunction f args ip (next - 1)
                i c popped Hf Hne Hd) as Ht.
  replace (next - 1 + 1) with next in Ht by lia.
  exists next. split; [|split].
  - intros H. apply Htaken in H. unfold next. rewrite H. reflexivity.
  - intros H. unfold next. destruct taken; [|lia].
    exfalso. apply H, Htaken. reflexivity.
  - split; [exact Hd|]. split; [exact Ht|].
    exact (interp_turn_then ofRaw vm callFunction f args ip next c
             (tick popped) Ht).
Qed.

Lemma old_conditional_jump_witness :
  Interp.interpretLoop OldBytecode.ofRaw Samples.oldVM
    (Interp.callFunction OldBytecode.ofRaw Samples.oldVM 0) 2
    MoreSamples.old_less 0 0 (Exec.mkContext 4 [9; 8; 1; 2] 0)
  = Ok 8 (Exec.mkContext 2 [9; 8; 1; 2] 1) /\
  Interp.interpretLoop OldBytecode.ofRaw Samples.oldVM
    (Interp.callFunction OldBytecode.ofRaw Samples.oldVM 0) 3
    MoreSamples.old_less 0 0 (Exec.mkContext 4 [9; 8; 2; 1] 0)
  = Ok 9 (Exec.mkContext 1 [9; 8; 2; 1] 2).
Proof.
  split.
  - destruct (old_conditional_jump OldBytecode.ofRaw Samples.oldVM
                (Interp.callFunction OldBytecode.ofRaw Samples.oldVM 0)
                MoreSamples.old_less 0 0 (Samples.old OldBytecode.INT_JMP_LT 1)
                OldBytecode.INT_JMP_LT (fun l r => l < r)
                (Exec.mkContext 4 [9; 8; 1; 2] 0) 1 2
                eq_refl eq_refl eq_refl eq_refl eq_refl eq_refl)
      as (next & Htaken & _ & _ & _ & _ & Hend & _).
    assert (Hnext : next = 2) by (apply Htaken; lia).
    subst next.
    etransitivity.
    + eapply (Hend 2%nat 0%nat 2).
      * apply runs_here.
      * reflexivity.
      * vm_compute. reflexivity.
      * lia.
    + reflexivity.
  - destruct (old_conditional_jump OldBytecode.ofRaw Samples.oldVM
                (Interp.callFunction OldBytecode.ofRaw Samples.oldVM 0)
                MoreSamples.old_less 0 0 (Samples.old OldBytecode.INT_JMP_LT 1)
                OldBytecode.INT_JMP_LT (fun l r => l < r)
                (Exec.mkContext 4 [9; 8; 2; 1] 0) 2 1
                eq_refl eq_refl eq_refl eq_refl eq_refl eq_refl)
      as (next & _ & Hnot & _ & _ & _ & Hend & _).
    assert (Hnext : next = 1) by (apply Hnot; lia).
    subst next.
    etransitivity.
    + eapply (Hend 3%nat 1%nat 2).
      * eapply runs_turn; [vm_compute; reflexivity | apply runs_here].
      * reflexivity.
      * vm_compute. reflexivity.
      * lia.
    + reflexivity.
Defined.


Section CallBack.
Implicit Types c : Exec.ExecutionContext.

(** Pushing the value a cell already holds moves the stack pointer only. *)
Lemma exec_push_same c (p : Z) (v : Exec.StackElement) :
  cell c p = Some v ->
  Exec.push v (setTop c p) = Ok tt (setTop c (p + 1)).
Proof.
  intros H. pose proof (cell_Some _ _ _ H) as Hb.
  rewrite exec_push_Ok by (cbn; exact Hb).
  unfold setTop. cbn. do 2 f_equal.
  apply list_insert_id. unfold cell in H. apply vector_at_Some in H. tauto.
Qed.

End CallBack.

(** X14. The transition to compiled code (core.cpp 193-228) and the entry
    points [interpret_0] ... [interpret_3] (core.cpp 156-176) undo each
    other: when the compiled entry of a function of up to three arguments
    does nothing but call [interpret_n] with the arguments it received,
    calling it is interpreting the function on the unchanged stack. *)
Theorem compiled_code_calls_back
        (vm : Exec.VirtualMachine) (interpret : Z -> Exec.Exec Exec.StackElement)
        (jitedcode : Exec.JitFunction) (functionIndex : Z)
        (c : Exec.ExecutionContext) :
  passParam (cfg_ vm) = true ->
  (jitedcode [] = LegacyEntry.interpret_0 interpret functionIndex ->
   Legacy.callJit vm jitedcode functionIndex 0 c = interpret functionIndex c) /\
  (forall p1,
      onTop c [p1] ->
      jitedcode [ArgValue p1] = LegacyEntry.interpret_1 interpret functionIndex p1 ->
      Legacy.callJit vm jitedcode functionIndex 1 c = interpret functionIndex c) /\
  (forall p1 p2,
      onTop c [p1; p2] ->
      jitedcode [ArgValue p1; ArgValue p2]
      = LegacyEntry.interpret_2 interpret functionIndex p1 p2 ->
      Legacy.callJit vm jitedcode functionIndex 2 c = interpret functionIndex c) /\
  (forall p1 p2 p3,
      onTop c [p1; p2; p3] ->
      jitedcode [ArgValue p1; ArgValue p2; ArgValue p3]
      = LegacyEntry.interpret_3 interpret functionIndex p1 p2 p3 ->
      Legacy.callJit vm jitedcode functionIndex 3 c = interpret functionIndex c).
Proof.
  intros Hpp. unfold Legacy.callJit. rewrite Hpp.
  set (sp := Exec.stackPointer_ c).
  split; [|split; [|split]].
  - intros ->. reflexivity.
  - intros p1 Htop Hj. unfold onTop in Htop. cbn [cellsFrom] in Htop.
    change (size [p1]) with 1 in Htop. fold sp in Htop.
    destruct Htop as (H1 & _).
    rewrite (bind_Ok _ _ _ _ _ (exec_pop_Ok c p1 H1)). fold sp.
    rewrite Hj. unfold LegacyEntry.interpret_1.
    rewrite (bind_Ok _ _ _ _ _ (exec_push_same c (sp - 1) p1 H1)).
    replace (sp - 1 + 1) with sp by lia. unfold sp. rewrite setTop_id.
    reflexivity.
  - intros p1 p2 Htop Hj. unfold onTop in Htop. cbn [cellsFrom] in Htop.
    change (size [p1; p2]) with 2 in Htop. fold sp in Htop.
    destruct Htop as (H1 & H2 & _).
    replace (sp - 2 + 1) with (sp - 1) in H2 by lia.
    rewrite (bind_Ok _ _ _ _ _ (exec_pop_Ok c p2 H2)). fold sp.
    rewrite (bind_Ok _ _ _ _ _
               (exec_pop_at c (sp - 1) p1
                  ltac:(replace (sp - 1 - 1) with (sp - 2) by lia; exact H1))).
    rewrite Hj. unfold LegacyEntry.interpret_2.
    replace (sp - 1 - 1) with (sp - 2) by lia.
    rewrite (bind_Ok _ _ _ _ _ (exec_push_same c (sp - 2) p1 H1)).
    replace (sp - 2 + 1) with (sp - 1) by lia.
    rewrite (bind_Ok _ _ _ _ _ (exec_push_same c (sp - 1) p2 H2)).
    replace (sp - 1 + 1) with sp by lia. unfold sp. rewrite setTop_id.
    reflexivity.
  - intros p1 p2 p3 Htop Hj. unfold onTop in Htop. cbn [cellsFrom] in Htop.
    change (size [p1; p2; p3]) with 3 in Htop. fold sp in Htop.
    destruct Htop as (H1 & H2 & H3 & _).
    replace (sp - 3 + 1) with (sp - 2) in H2 by lia.
    replace (sp - 3 + 1 + 1) with (sp - 1) in H3 by lia.
    rewrite (bind_Ok _ _ _ _ _ (exec_pop_Ok c p3 H3)). fold sp.
    rewrite (bind_Ok _ _ _ _ _
               (exec_pop_at c (sp - 1) p2
                  ltac:(replace (sp - 1 - 1) with (sp - 2) by lia; exact H2))).
    rewrite (bind_Ok _ _ _ _ _
               (exec_pop_at c (sp - 1 - 1) p1
                  ltac:(replace (sp - 1 - 1 - 1) with (sp - 3) by lia; exact H1))).
    rewrite Hj. unfold LegacyEntry.interpret_3.
    replace (sp - 1 - 1 - 1) with (sp - 3) by lia.
    rewrite (bind_Ok _ _ _ _ _ (exec_push_same c (sp - 3) p1 H1)).
    replace (sp - 3 + 1) with (sp - 2) by lia.
    rewrite (bind_Ok _ _ _ _ _ (exec_push_same c (sp - 2) p2 H2)).
    replace (sp - 2 + 1) with (sp - 1) by lia.
    rewrite (bind_Ok _ _ _ _ _ (exec_push_same c (sp - 1) p3 H3)).
    replace (sp - 1 + 1) with sp by lia. unfold sp. rewrite setTop_id.
    reflexivity.
Qed.

Lemma compiled_code_calls_back_witness :
  Legacy.callJit Samples.jitVM
    (fun a => match a with
              | [ArgValue p1; ArgValue p2] =>
                  LegacyEntry.interpret_2 (fun _ => Exec.top) 2 p1 p2
              | _ => undefined
              end)
    2 2 (Exec.mkContext 2 [1; 2; 0; 0] 0)
  = Exec.top (Exec.mkContext 2 [1; 2; 0; 0] 0).
Proof.
  refine (proj1 (proj2 (proj2 (compiled_code_calls_back Samples.jitVM
                                 (fun _ => Exec.top) _ 2
                                 (Exec.mkContext 2 [1; 2; 0; 0] 0) _)))
                1 2 _ _).
  - reflexivity.
  - vm_compute. auto.
  - reflexivity.
Defined.

Section PushArguments.
Implicit Types c : Exec.ExecutionContext.

Lemma pushArguments_cells (argsCount : Z) (usrArgs : list Exec.StackElement)
      (turns : nat) :
  forall (i : Z) c,
    0 <= i -> i + Z.of_nat turns = argsCount -> argsCount = size usrArgs ->
    0 <= Exec.stackPointer_ c ->
    Exec.stackPointer_ c + Z.of_nat turns <= size (Exec.stack_ c) ->
    exists c',
      Exec.pushArguments argsCount usrArgs turns i c = Ok tt c' /\
      Exec.stackPointer_ c' = Exec.stackPointer_ c + Z.of_nat turns /\
      Exec.programCounter_ c' = Exec.programCounter_ c /\
      size (Exec.stack_ c') = size (Exec.stack_ c) /\
      (forall k, 0 <= k < Z.of_nat turns ->
                 cell c' (Exec.stackPointer_ c + k)
                 = vector_at usrArgs (argsCount - (i + k) - 1)) /\
      (forall j, j < Exec.stackPointer_ c -> cell c' j = cell c j).
Proof.
  induction turns as [|turns IH]; intros i c Hi Hsum Hn Hsp Hroom.
  - exists c. cbn [Exec.pushArguments]. split; [reflexivity|].
    split; [cbn; lia|]. split; [reflexivity|]. split; [reflexivity|].
    split; [intros k Hk; lia | reflexivity].
  - cbn [Exec.pushArguments].
    destruct (vector_at_defined usrArgs (argsCount - i - 1) ltac:(lia))
      as (arg & Harg).
    rewrite Harg. unfold defined. rewrite (bind_Ok _ _ c c arg) by reflexivity.
    rewrite (bind_Ok _ _ _ _ _ (exec_push_Ok c arg ltac:(lia))).
    set (c1 := Exec.mkContext (Exec.stackPointer_ c + 1)
                 (<[Z.to_nat (Exec.stackPointer_ c) := arg]> (Exec.stack_ c))
                 (Exec.programCounter_ c)).
    assert (Hsize1 : size (Exec.stack_ c1) = size (Exec.stack_ c)).
    { unfold c1, size. cbn. rewrite length_insert. reflexivity. }
    destruct (IH (i + 1) c1 ltac:(lia) ltac:(lia) Hn ltac:(cbn; lia)
                 ltac:(rewrite Hsize1; cbn; lia))
      as (c' & Hrun & Hsp' & Hpc' & Hsize' & Hcells & Hbelow).
    exists c'. split; [exact Hrun|].
    split; [rewrite Hsp'; cbn; lia|].
    split; [rewrite Hpc'; reflexivity|].
    split; [rewrite Hsize'; exact Hsize1|].
    split.
    + intros k Hk. destruct (Z.eq_dec k 0) as [->|Hk0].
      * rewrite Z.add_0_r. rewrite Hbelow by (cbn; lia).
        unfold c1. rewrite cell_insert_eq by lia.
        rewrite Z.add_0_r. symmetry. exact Harg.
      * replace (Exec.stackPointer_ c + k)
          with (Exec.stackPointer_ c1 + (k - 1)) by (cbn; lia).
        rewrite Hcells by lia. f_equal. lia.
    + intros j Hj. rewrite Hbelow by (cbn; lia).
      unfold c1.
      rewrite (cell_insert_ne _ _ _ (Exec.stackPointer_ c) (Exec.programCounter_ c))
        by lia.
      destruct c. reflexivity.
Qed.

End PushArguments.

(** X15. The loop of [run] that pushes the user's arguments (core.cpp
    407-412, 944-948): with room for them on the stack, the [n] arguments
    are pushed last first; the cell [k] of the callee's arguments holds
    [usrArgs[n - 1 - k]], the first argument is on top, and the cells below
    are unchanged. *)
Theorem run_pushes_last_argument_first
        (usrArgs : list Exec.StackElement) (c : Exec.ExecutionContext) :
  let n := size usrArgs in
  0 <= Exec.stackPointer_ c ->
  Exec.stackPointer_ c + n <= size (Exec.stack_ c) ->
  exists pushed,
    Exec.pushArguments n usrArgs (Z.to_nat n) 0 c = Ok tt pushed /\
    Exec.stackPointer_ pushed = Exec.stackPointer_ c + n /\
    (forall k, 0 <= k < n ->
               cell pushed (Exec.stackPointer_ pushed - n + k)
               = vector_at usrArgs (n - 1 - k)) /\
    (forall j, j < Exec.stackPointer_ c -> cell pushed j = cell c j).
Proof.
  intros n Hsp Hroom.
  assert (Hn : Z.of_nat (Z.to_nat n) = n) by (unfold n, size; lia).
  destruct (pushArguments_cells n usrArgs (Z.to_nat n) 0 c ltac:(lia) ltac:(lia)
              eq_refl Hsp ltac:(lia))
    as (c' & Hrun & Hsp' & _ & _ & Hcells & Hbelow).
  exists c'. rewrite Hn in *. split; [exact Hrun|]. split; [exact Hsp'|].
  split; [|exact Hbelow].
  intros k Hk. rewrite Hsp'.
  replace (Exec.stackPointer_ c + n - n + k) with (Exec.stackPointer_ c + k) by lia.
  rewrite Hcells by lia. f_equal. lia.
Qed.

Lemma run_pushes_last_argument_first_witness :
  exists pushed,
    Exec.pushArguments 3 [10; 20; 30] 3 0 Samples.smallContext = Ok tt pushed /\
    Exec.stackPointer_ pushed = 3 /\
    cell pushed 0 = Some 30 /\ cell pushed 2 = Some 10.
Proof.
  destruct (run_pushes_last_argument_first [10; 20; 30] Samples.smallContext)
    as (pushed & Hrun & Hsp & Hcells & _).
  - vm_compute. discriminate.
  - vm_compute. discriminate.
  - exists pushed. split; [exact Hrun|]. split; [exact Hsp|].
    rewrite Hsp in Hcells. split.
    + exact (Hcells 0 ltac:(vm_compute; split; [discriminate | reflexivity])).
    + exact (Hcells 2 ltac:(vm_compute; split; [discriminate | reflexivity])).
Defined.

(** X16. The older [run] (core.cpp 387-422) resets the context between
    pushing the arguments and [interpret], which takes [args] to be
    [stackPointer_ - nargs] (core.cpp 242): the arguments of the callee
    lie below [stack_].  A function with arguments whose first instruction
    reads one of them with [PUSH_FROM_VAR] accesses memory outside the
    stack. *)
Theorem legacy_run_loses_the_arguments
        (getByteCode : Instruction -> option OldBytecode.ByteCode)
        (getParameter : Instruction -> Param) (NO_MORE_BYTECODES : Instruction)
        (vm : Exec.VirtualMachine) (fuel : nat) (index : Z) (f : FunctionSpec)
        (usrArgs : list Exec.StackElement) (i : Instruction)
        (c : Exec.ExecutionContext) :
  getFunction vm index = Some f ->
  getJitAddress vm index = Some None ->
  nargs f = size usrArgs ->
  0 <= Exec.stackPointer_ c ->
  Exec.stackPointer_ c + nargs f <= size (Exec.stack_ c) ->
  fetch f 0 = Some i ->
  instruction_eqb i NO_MORE_BYTECODES = false ->
  getByteCode i = Some OldBytecode.PUSH_FROM_VAR ->
  getParameter i < nargs f ->
  Legacy.run getByteCode getParameter NO_MORE_BYTECODES vm (S (S fuel)) index
    usrArgs c
  = Undefined.
Proof.
  intros Hf Hj Hn Hsp Hroom Hi Hne Hbc Hp.
  unfold Legacy.run. unfold bind at 1. unfold defined at 1. rewrite Hf. cbv [ret].
  destruct (Z.eqb_spec (nargs f) (size usrArgs)) as [_|Hx]; [|contradiction].
  cbn [negb].
  destruct (pushArguments_cells (nargs f) usrArgs (Z.to_nat (nargs f)) 0 c
              ltac:(lia) ltac:(rewrite Hn; unfold size; lia) Hn Hsp
              ltac:(rewrite Hn in *; unfold size in *; lia))
    as (pushed & Hrun & _).
  rewrite (bind_Ok _ _ _ _ _ Hrun).
  unfold bind at 1. unfold Exec.reset at 1.
  apply bind_Undefined.
  rewrite (legacy_interpret_interpreted getByteCode getParameter
             NO_MORE_BYTECODES vm (S fuel) index f _ Hf Hj).
  cbn [Exec.stackPointer_].
  rewrite (legacy_loop_turn getByteCode getParameter NO_MORE_BYTECODES vm _ fuel
             f _ 0 i _ Hi Hne).
  apply bind_Undefined. unfold Legacy.dispatch. rewrite Hbc.
  apply bind_Undefined. unfold Exec.pushFromVar. apply bind_Undefined.
  unfold Exec.load, vector_at.
  destruct (Z.leb_spec 0 (0 - nargs f + getParameter i)); [lia|]. reflexivity.
Qed.

Lemma legacy_run_loses_the_arguments_witness :
  Samples.legacyRun Samples.oldVM 2 2 [41] Samples.smallContext = Undefined.
Proof.
  refine (legacy_run_loses_the_arguments Legacy.getByteCode Legacy.getParameter
            Legacy.NO_MORE_BYTECODES Samples.oldVM 0 2 Samples.old_inc [41]
            (Samples.old OldBytecode.PUSH_FROM_VAR 0) Samples.smallContext
            _ _ _ _ _ _ _ _ _).
  - reflexivity.
  - reflexivity.
  - reflexivity.
  - vm_compute. discriminate.
  - vm_compute. discriminate.
  - reflexivity.
  - vm_compute. reflexivity.
  - vm_compute. reflexivity.
  - vm_compute. reflexivity.
Defined.

(** ** The operations of the interpreter over [Om::Value] *)

Section OmCells.
Variable rt : Om.Runtime.
Implicit Types c : Om.Context rt.

Lemma omCell_Some c (i : Z) (v : Om.Value) :
  omCell c i = Some v -> 0 <= i < size (Om.cells (Om.stack_ c)).
Proof. unfold omCell. rewrite vector_at_Some. tauto. Qed.

Lemma omCell_write_eq c (p i : Z) (v : Om.Value) :
  0 <= i < size (Om.cells (Om.stack_ c)) ->
  omCell (omWrite c p i v) i = Some v.
Proof.
  intros H. unfold omCell, omWrite. cbn [Om.stack_ Om.cells].
  apply vector_at_Some. unfold size in *. rewrite length_insert.
  split; [lia|]. apply list_lookup_insert_eq. lia.
Qed.

Lemma omCell_write_ne c (p i j : Z) (v : Om.Value) :
  0 <= i -> j <> i -> omCell (omWrite c p i v) j = omCell c j.
Proof.
  intros Hi Hj. unfold omCell, omWrite, vector_at. cbn [Om.stack_ Om.cells].
  rewrite length_insert.
  destruct (Z.leb_spec 0 j); [|reflexivity].
  destruct (j <? Z.of_nat (length (Om.cells (Om.stack_ c)))); [|reflexivity].
  cbn [andb]. apply list_lookup_insert_ne. lia.
Qed.

Lemma om_push_at c (p : Z) (v : Om.Value) :
  0 <= p < size (Om.cells (Om.stack_ c)) ->
  Om.push rt v (omSetTop c p) = Ok tt (omWrite c (p + 1) p v).
Proof.
  intros H. rewrite om_push_Ok by exact H. reflexivity.
Qed.

Lemma om_store_Ok c (i : Z) (v : Om.Value) :
  0 <= i < size (Om.cells (Om.stack_ c)) ->
  Om.store rt i v c = Ok tt (omWrite c (omTop c) i v).
Proof.
  intros H. unfold Om.store, Om.liftStack.
  destruct (Z.leb_spec 0 i); [|lia].
  destruct (Z.ltb_spec i (size (Om.cells (Om.stack_ c)))); [|lia].
  reflexivity.
Qed.

Lemma om_load_Ok c (i : Z) (v : Om.Value) :
  omCell c i = Some v -> Om.load rt i c = Ok v c.
Proof. intros H. unfold Om.load, omCell in *. rewrite H. reflexivity. Qed.

Lemma om_binary (op : Z -> Z -> Z) c (l r : Z) :
  omCell c (omTop c - 1) = Some (Om.VInteger r) ->
  omCell c (omTop c - 2) = Some (Om.VInteger l) ->
  is_int32 l -> is_int32 r -> is_int32 (op l r) ->
  bind (Om.popInteger rt) (fun right => bind (Om.popInteger rt) (fun left =>
    Om.push rt (Om.setInteger (int32 (op left right))))) c
  = Ok tt (omWrite c (omTop c - 1) (omTop c - 2) (Om.VInteger (op l r))).
Proof.
  intros Hr Hl Il Ir Hfit.
  rewrite (om_pop_operands rt _ c l r Hr Hl Il Ir).
  rewrite int32_id by exact Hfit. unfold Om.setInteger.
  rewrite om_push_at by (apply (omCell_Some _ _ _ Hl)).
  f_equal. f_equal. lia.
Qed.

End OmCells.

(** X17. [doAdd], [doSub] and [doMul] (core.cpp 1181-1203): with the
    integers [l] and [r] on top of the stack, [l] pushed first, the two are
    popped and the result is pushed where [l] lay; it is [l + r], [l - r],
    [l * r] when that is a [std::int32_t]. *)
Theorem arithmetic_replaces_the_operands (rt : Om.Runtime) (c : Om.Context rt)
        (l r : Z) :
  omCell c (omTop c - 1) = Some (Om.VInteger r) ->
  omCell c (omTop c - 2) = Some (Om.VInteger l) ->
  is_int32 l -> is_int32 r ->
  let result v :=
    Ok tt (omWrite c (omTop c - 1) (omTop c - 2) (Om.VInteger v)) in
  (is_int32 (l + r) -> Om.doAdd rt c = result (l + r)) /\
  (is_int32 (l - r) -> Om.doSub rt c = result (l - r)) /\
  (is_int32 (l * r) -> Om.doMul rt c = result (l * r)).
Proof.
  intros Hr Hl Il Ir result. split; [|split]; intros Hfit.
  - apply (om_binary rt Z.add c l r Hr Hl Il Ir Hfit).
  - apply (om_binary rt Z.sub c l r Hr Hl Il Ir Hfit).
  - apply (om_binary rt Z.mul c l r Hr Hl Il Ir Hfit).
Qed.

Lemma arithmetic_replaces_the_operands_witness :
  Om.doAdd Samples.noObjects (Samples.omStackOf [Om.VInteger 6; Om.VInteger 7])
  = Ok tt (omWrite (Samples.omStackOf [Om.VInteger 6; Om.VInteger 7]) 1 0
             (Om.VInteger 13)) /\
  Om.doSub Samples.noObjects (Samples.omStackOf [Om.VInteger 6; Om.VInteger 7])
  = Ok tt (omWrite (Samples.omStackOf [Om.VInteger 6; Om.VInteger 7]) 1 0
             (Om.VInteger (-1))) /\
  Om.doMul Samples.noObjects (Samples.omStackOf [Om.VInteger 6; Om.VInteger 7])
  = Ok tt (omWrite (Samples.omStackOf [Om.VInteger 6; Om.VInteger 7]) 1 0
             (Om.VInteger 42)).
Proof.
  assert (I6 : is_int32 6) by (unfold is_int32, INT32_MIN, INT32_MAX; lia).
  assert (I7 : is_int32 7) by (unfold is_int32, INT32_MIN, INT32_MAX; lia).
  pose proof (arithmetic_replaces_the_operands Samples.noObjects
                (Samples.omStackOf [Om.VInteger 6; Om.VInteger 7]) 6 7
                eq_refl eq_refl I6 I7) as (Hadd & Hsub & Hmul).
  split; [|split].
  - apply Hadd. unfold is_int32, INT32_MIN, INT32_MAX. lia.
  - apply Hsub. unfold is_int32, INT32_MIN, INT32_MAX. lia.
  - apply Hmul. unfold is_int32, INT32_MIN, INT32_MAX. lia.
Defined.

(** X18. [doNot] (core.cpp 1217-1222) replaces the integer on top of the
    stack by 1 when it is zero and by 0 when it is not. *)
Theorem not_tests_for_zero (rt : Om.Runtime) (c : Om.Context rt) (i : Z) :
  omCell c (omTop c - 1) = Some (Om.VInteger i) ->
  is_int32 i ->
  exists b : Z,
    Om.doNot rt c = Ok tt (omWrite c (omTop c) (omTop c - 1) (Om.VInteger b)) /\
    (i = 0 -> b = 1) /\ (i <> 0 -> b = 0).
Proof.
  intros Hi Ii. exists (if i =? 0 then 1 else 0). split.
  - unfold Om.doNot.
    rewrite (bind_Ok _ _ _ _ _ (om_popInteger_Ok rt c i Hi)).
    rewrite int32_id by exact Ii. unfold Om.setInteger.
    rewrite om_push_at by (apply (omCell_Some _ _ _ _ Hi)).
    f_equal. f_equal. lia.
  - destruct (Z.eqb_spec i 0); split; intros; congruence.
Qed.

Lemma not_tests_for_zero_witness :
  exists b : Z,
    Om.doNot Samples.noObjects (Samples.omStackOf [Om.VInteger 5])
    = Ok tt (omWrite (Samples.omStackOf [Om.VInteger 5]) 1 0 (Om.VInteger b)) /\
    b = 0.
Proof.
  destruct (not_tests_for_zero Samples.noObjects
              (Samples.omStackOf [Om.VInteger 5]) 5 eq_refl)
    as (b & Hrun & _ & Hb).
  - unfold is_int32, INT32_MIN, INT32_MAX. lia.
  - exists b. split; [exact Hrun | apply Hb; discriminate].
Defined.

(** X19. [doPushIntoVar] then [doPushFromVar] at the same offset (core.cpp
    1173-1179): the value popped is back on top, the stack pointer is
    where it was, the variable holds the value, and no other cell, the
    program counter and the heap have not changed. *)
Theorem local_store_then_load (rt : Om.Runtime) (c : Om.Context rt)
        (args : Z) (offset : Param) (v : Om.Value) :
  omCell c (omTop c - 1) = Some v ->
  0 <= args + offset < size (Om.cells (Om.stack_ c)) ->
  exists c',
    bind (Om.doPushIntoVar rt args offset)
         (fun _ => Om.doPushFromVar rt args offset) c = Ok tt c' /\
    omTop c' = omTop c /\
    omCell c' (omTop c - 1) = Some v /\
    omCell c' (args + offset) = Some v /\
    (forall i, i <> args + offset -> omCell c' i = omCell c i) /\
    Om.programCounter_ c' = Om.programCounter_ c /\
    Om.omContext_ c' = Om.omContext_ c.
Proof.
  intros Hv Hvar.
  pose proof (omCell_Some rt _ _ _ Hv) as Hsp.
  set (c1 := omWrite c (omTop c - 1) (args + offset) v).
  assert (H1 : Om.doPushIntoVar rt args offset c = Ok tt c1).
  { unfold Om.doPushIntoVar.
    rewrite (bind_Ok _ _ _ _ _ (om_pop_Ok rt c v Hv)).
    rewrite om_store_Ok by exact Hvar. reflexivity. }
  assert (Hsize : size (Om.cells (Om.stack_ c1)) = size (Om.cells (Om.stack_ c))).
  { unfold c1, omWrite, size. cbn. rewrite length_insert. reflexivity. }
  assert (Hload : omCell c1 (args + offset) = Some v).
  { apply omCell_write_eq. exact Hvar. }
  set (c2 := omWrite c1 (omTop c) (omTop c - 1) v).
  assert (H2 : Om.doPushFromVar rt args offset c1 = Ok tt c2).
  { unfold Om.doPushFromVar.
    rewrite (bind_Ok _ _ _ _ _ (om_load_Ok rt c1 _ v Hload)).
    change c1 with (omSetTop c1 (omTop c - 1)) at 1.
    rewrite om_push_at by (rewrite Hsize; lia).
    unfold c2. f_equal. f_equal. lia. }
  exists c2. split; [rewrite (bind_Ok _ _ _ _ _ H1); exact H2|].
  split; [reflexivity|].
  assert (Htop : omCell c2 (omTop c - 1) = Some v).
  { apply omCell_write_eq. rewrite Hsize. lia. }
  split; [exact Htop|].
  split; [|split; [|split; reflexivity]].
  - destruct (Z.eq_dec (args + offset) (omTop c - 1)) as [->|Hne]; [exact Htop|].
    unfold c2. rewrite omCell_write_ne by lia. exact Hload.
  - intros i Hi.
    destruct (Z.eq_dec i (omTop c - 1)) as [->|Hne].
    + rewrite Htop. symmetry. exact Hv.
    + unfold c2. rewrite omCell_write_ne by lia.
      unfold c1. rewrite omCell_write_ne by lia. reflexivity.
Qed.

Lemma local_store_then_load_witness :
  exists c',
    bind (Om.doPushIntoVar Samples.noObjects 0 1)
         (fun _ => Om.doPushFromVar Samples.noObjects 0 1)
         (Samples.omStackOf [Om.VInteger 4; Om.VInteger 0; Om.VInteger 9])
    = Ok tt c' /\
    omTop c' = 3 /\
    omCell c' 2 = Some (Om.VInteger 9) /\
    omCell c' 1 = Some (Om.VInteger 9).
Proof.
  destruct (local_store_then_load Samples.noObjects
              (Samples.omStackOf [Om.VInteger 4; Om.VInteger 0; Om.VInteger 9])
              0 1 (Om.VInteger 9))
    as (c' & Hrun & Hsp & Htop & Hvar & _).
  - reflexivity.
  - vm_compute. split; [discriminate | reflexivity].
  - exists c'. repeat split; assumption.
Defined.

(** X20. On a value that is no object reference, [doPushFromObject]
    (core.cpp 1293-1297) throws after it has popped the value, and
    [doPopIntoObject] (core.cpp 1311-1314) throws with the stack as it
    was. *)
Theorem object_access_needs_an_object (rt : Om.Runtime) (c : Om.Context rt)
        (slotId : Z) (v : Om.Value) :
  omCell c (omTop c - 1) = Some v ->
  Om.isPtr v = false ->
  Om.doPushFromObject rt slotId c
  = Throw (runtime_error "Accessing non-object value as an object.")
          (omSetTop c (omTop c - 1)) /\
  Om.doPopIntoObject rt slotId c
  = Throw (runtime_error "Accessing non-object as an object") c.
Proof.
  intros Hv Hptr. split.
  - unfold Om.doPushFromObject.
    rewrite (bind_Ok _ _ _ _ _ (om_pop_Ok rt c v Hv)).
    rewrite Hptr. reflexivity.
  - unfold Om.doPopIntoObject.
    rewrite (bind_Ok _ _ _ _ _ (om_peek_Ok rt c v Hv)).
    rewrite Hptr. reflexivity.
Qed.

Lemma object_access_needs_an_object_witness :
  Om.doPushFromObject Samples.noObjects 0 (Samples.omStackOf [Om.VInteger 3])
  = Throw (runtime_error "Accessing non-object value as an object.")
          (omSetTop (Samples.omStackOf [Om.VInteger 3]) 0) /\
  Om.doPopIntoObject Samples.noObjects 0 (Samples.omStackOf [Om.VInteger 3])
  = Throw (runtime_error "Accessing non-object as an object")
          (Samples.omStackOf [Om.VInteger 3]).
Proof.
  apply (object_access_needs_an_object Samples.noObjects
           (Samples.omStackOf [Om.VInteger 3]) 0 (Om.VInteger 3));
    reflexivity.
Defined.

(** X21. [doPushFromObject] and [doPopIntoObject] on an object reference
    (core.cpp 1293-1337): the reference is taken from the top of the stack.
    A slot that [Object::lookup] does not find makes [doPushFromObject]
    throw; the value of one it finds is pushed.  [doPopIntoObject] stores
    in a slot found the value that lay under the reference. *)
Theorem object_slot_access (rt : Om.Runtime) (c c1 : Om.Context rt)
        (slotId obj : Z) :
  omCell c (omTop c - 1) = Some (Om.VPtr obj) ->
  (Om.Object_lookup rt obj slotId (omSetTop c (omTop c - 1)) = Ok None c1 ->
   Om.doPushFromObject rt slotId c
   = Throw (runtime_error "Accessing an object's field that doesn't exist.") c1) /\
  (forall descriptor,
      Om.Object_lookup rt obj slotId (omSetTop c (omTop c - 1))
      = Ok (Some descriptor) c1 ->
      Om.doPushFromObject rt slotId c
      = bind (Om.Object_getValue rt obj descriptor) (Om.push rt) c1) /\
  (forall descriptor val,
      Om.Object_lookup rt obj slotId (omSetTop c (omTop c - 1))
      = Ok (Some descriptor) c1 ->
      omCell c1 (omTop c1 - 1) = Some val ->
      Om.doPopIntoObject rt slotId c
      = Om.Object_setValue rt obj descriptor val (omSetTop c1 (omTop c1 - 1))).
Proof.
  intros Hobj.
  split; [|split].
  - intros Hlook. unfold Om.doPushFromObject.
    rewrite (bind_Ok _ _ _ _ _ (om_pop_Ok rt c _ Hobj)). cbn [Om.isPtr negb].
    unfold bind at 1. cbn [Om.getPtr defined]. cbv [ret].
    rewrite (bind_Ok _ _ _ _ _ Hlook). reflexivity.
  - intros descriptor Hlook. unfold Om.doPushFromObject.
    rewrite (bind_Ok _ _ _ _ _ (om_pop_Ok rt c _ Hobj)). cbn [Om.isPtr negb].
    unfold bind at 1. cbn [Om.getPtr defined]. cbv [ret].
    rewrite (bind_Ok _ _ _ _ _ Hlook). reflexivity.
  - intros descriptor val Hlook Hval. unfold Om.doPopIntoObject.
    rewrite (bind_Ok _ _ _ _ _ (om_peek_Ok rt c _ Hobj)). cbn [Om.isPtr negb].
    rewrite (bind_Ok _ _ _ _ _ (om_pop_Ok rt c _ Hobj)).
    unfold bind at 1. cbn [Om.getPtr defined]. cbv [ret].
    rewrite (bind_Ok _ _ _ _ _ Hlook). cbv [ret].
    unfold bind at 1. cbv [ret].
    rewrite (bind_Ok _ _ _ _ _ (om_pop_Ok rt c1 _ Hval)). reflexivity.
Qed.

Lemma object_slot_access_witness :
  Om.doPushFromObject Samples.noObjects 0 (Samples.omStackOf [Om.VPtr 0])
  = Throw (runtime_error "Accessing an object's field that doesn't exist.")
          (omSetTop (Samples.omStackOf [Om.VPtr 0]) 0) /\
  Om.doPopIntoObject MoreSamples.oneSlot 0
    (MoreSamples.slotContext [Om.VInteger 5; Om.VPtr 0] (Om.VInteger 0))
  = Ok tt (omSetTop (MoreSamples.slotContext [Om.VInteger 5; Om.VPtr 0]
                       (Om.VInteger 5)) 0).
Proof.
  split.
  - apply (proj1 (object_slot_access Samples.noObjects
                    (Samples.omStackOf [Om.VPtr 0])
                    (omSetTop (Samples.omStackOf [Om.VPtr 0]) 0) 0 0 eq_refl)).
    reflexivity.
  - apply (proj2 (proj2 (object_slot_access MoreSamples.oneSlot
                    (MoreSamples.slotContext [Om.VInteger 5; Om.VPtr 0] (Om.VInteger 0))
                    (omSetTop (MoreSamples.slotContext [Om.VInteger 5; Om.VPtr 0]
                                 (Om.VInteger 0)) 1)
                    0 0 eq_refl)) tt (Om.VInteger 5)).
    + reflexivity.
    + reflexivity.
Defined.

Section OmPassParam.
Variable rt : Om.Runtime.
Implicit Types c : Om.Context rt.

Lemma om_pop_at c (p : Z) (v : Om.Value) :
  omCell c (p - 1) = Some v ->
  Om.pop rt (omSetTop c p) = Ok v (omSetTop c (p - 1)).
Proof. intros H. apply (om_pop_Ok rt (omSetTop c p)). exact H. Qed.

Lemma omSetTop_id c : omSetTop c (omTop c) = c.
Proof. destruct c as [[t cs] pc h]. reflexivity. Qed.

End OmPassParam.

(** X22. [callJitFunction] (core.cpp 998-1035): without [passParam] the
    compiled entry receives the context only and the stack is not touched;
    with it, up to three arguments are popped and passed after the
    context, first pushed first; above three the function throws and pops
    nothing. *)
Theorem native_call_passes_the_arguments (rt : Om.Runtime)
        (vm : Om.VirtualMachine rt) (jitFunction : Om.JitFunction rt)
        (nargs : Z) (c : Om.Context rt) :
  (passParam (cfg_ vm) = false ->
   Om.callJitFunction rt vm jitFunction nargs c = jitFunction [ArgContext] c) /\
  (passParam (cfg_ vm) = true ->
   forall ps : list Om.Value,
     nargs = size ps -> size ps <= 3 -> omOnTop c ps ->
     Om.callJitFunction rt vm jitFunction nargs c
     = jitFunction (ArgContext :: map ArgValue ps)
         (omSetTop c (omTop c - size ps))) /\
  (passParam (cfg_ vm) = true -> 3 < nargs ->
   Om.callJitFunction rt vm jitFunction nargs c
   = Throw (runtime_error "Need to add handlers for more parameters") c).
Proof.
  unfold Om.callJitFunction. split; [|split].
  - intros ->. reflexivity.
  - intros -> ps -> Hle Htop. unfold omOnTop in Htop.
    set (sp := omTop c) in *.
    destruct ps as [|p1 [|p2 [|p3 [|p4 ps]]]].
    + change (size []) with 0. cbv iota. rewrite Z.sub_0_r.
      unfold sp. rewrite omSetTop_id. reflexivity.
    + change (size [p1]) with 1 in *. cbv iota.
      cbn [omCellsFrom] in Htop. destruct Htop as (H1 & _).
      rewrite (bind_Ok _ _ _ _ _ (om_pop_Ok rt c p1 H1)). reflexivity.
    + change (size [p1; p2]) with 2 in *. cbv iota.
      cbn [omCellsFrom] in Htop. destruct Htop as (H1 & H2 & _).
      replace (sp - 2 + 1) with (sp - 1) in H2 by lia.
      rewrite (bind_Ok _ _ _ _ _ (om_pop_Ok rt c p2 H2)). fold sp.
      rewrite (bind_Ok _ _ _ _ _
                 (om_pop_at rt c (sp - 1) p1
                    ltac:(replace (sp - 1 - 1) with (sp - 2) by lia; exact H1))).
      replace (sp - 1 - 1) with (sp - 2) by lia. reflexivity.
    + change (size [p1; p2; p3]) with 3 in *. cbv iota.
      cbn [omCellsFrom] in Htop. destruct Htop as (H1 & H2 & H3 & _).
      replace (sp - 3 + 1) with (sp - 2) in H2 by lia.
      replace (sp - 3 + 1 + 1) with (sp - 1) in H3 by lia.
      rewrite (bind_Ok _ _ _ _ _ (om_pop_Ok rt c p3 H3)). fold sp.
      rewrite (bind_Ok _ _ _ _ _
                 (om_pop_at rt c (sp - 1) p2
                    ltac:(replace (sp - 1 - 1) with (sp - 2) by lia; exact H2))).
      rewrite (bind_Ok _ _ _ _ _
                 (om_pop_at rt c (sp - 1 - 1) p1
                    ltac:(replace (sp - 1 - 1 - 1) with (sp - 3) by lia; exact H1))).
      replace (sp - 1 - 1 - 1) with (sp - 3) by lia. reflexivity.
    + exfalso. unfold size in Hle. cbn [length] in Hle. lia.
  - intros -> Hmany. rewrite above_three by exact Hmany. reflexivity.
Qed.

Lemma native_call_passes_the_arguments_witness :
  Om.callJitFunction Samples.noObjects
    (mkVM Samples.jitPassParam (mkModule [] [] []) [])
    MoreSamples.countArgs 2
    (Samples.omStackOf [Om.VInteger 1; Om.VInteger 2])
  = MoreSamples.countArgs
      [ArgContext; ArgValue (Om.VInteger 1); ArgValue (Om.VInteger 2)]
      (omSetTop (Samples.omStackOf [Om.VInteger 1; Om.VInteger 2]) 0) /\
  Om.callJitFunction Samples.noObjects
    (mkVM Samples.jitPassParam (mkModule [] [] []) [])
    MoreSamples.countArgs 4
    (Samples.omStackOf [Om.VInteger 1; Om.VInteger 2])
  = Throw (runtime_error "Need to add handlers for more parameters")
      (Samples.omStackOf [Om.VInteger 1; Om.VInteger 2]).
Proof.
  split.
  - apply (proj1 (proj2 (native_call_passes_the_arguments Samples.noObjects
                    (mkVM Samples.jitPassParam (mkModule [] [] []) [])
                    MoreSamples.countArgs 2
                    (Samples.omStackOf [Om.VInteger 1; Om.VInteger 2])))
                 eq_refl [Om.VInteger 1; Om.VInteger 2]).
    + reflexivity.
    + vm_compute. discriminate.
    + vm_compute. auto.
  - apply (proj2 (proj2 (native_call_passes_the_arguments Samples.noObjects
                    (mkVM Samples.jitPassParam (mkModule [] [] []) [])
                    MoreSamples.countArgs 4
                    (Samples.omStackOf [Om.VInteger 1; Om.VInteger 2])))
                 eq_refl).
    reflexivity.
Defined.

(** ** The producer tool *)

Section Encoding.
Variable inherited : string -> bool.

Lemma to_signed_32_small (x : Z) : 0 <= x < 2 ^ 31 -> to_signed 32 x = x.
Proof. intros H. apply int32_small. lia. Qed.

Lemma OperatorCode_range (operator : string) (code : Z) :
  CompileJs.property CompileJs.OperatorCode operator = Some code ->
  0 <= code < 24.
Proof.
  unfold CompileJs.OperatorCode. cbn [CompileJs.property].
  repeat match goal with
         | |- context [String.eqb ?a ?b] => destruct (String.eqb a b)
         end;
    intros H; try discriminate H; injection H as <-; lia.
Qed.

Lemma land_ToInt32_mask (n : Z) :
  Z.land (to_signed 32 n) 0x00FFFFFF = n mod 2 ^ 24.
Proof.
  change 0x00FFFFFF with PARAMETER_MASK. rewrite land_mask_mod.
  unfold to_signed. change (32 - 1) with 31.
  destruct (n mod 2 ^ 32 <? 2 ^ 31).
  - apply Z.mod_mod_divide. exists (2 ^ 8). reflexivity.
  - replace (n mod 2 ^ 32 - 2 ^ 32) with (n mod 2 ^ 32 + (- 2 ^ 8) * 2 ^ 24) by lia.
    rewrite Z.mod_add by lia.
    apply Z.mod_mod_divide. exists (2 ^ 8). reflexivity.
Qed.

Lemma raw_mkInstruction_lor (b p : Z) :
  0 <= b < 256 ->
  raw (mkInstruction b p) = Z.lor (b * 2 ^ 24) (p mod 2 ^ 24).
Proof.
  intros Hb. unfold mkInstruction. cbn [raw].
  rewrite land_uint32_mask.
  unfold uint32, to_unsigned, BYTECODE_SHIFT.
  rewrite Z.shiftl_mul_pow2 by lia. rewrite Z.mod_small by lia. reflexivity.
Qed.

Lemma encoded_number (operator : string) (code n : Z) :
  CompileJs.property CompileJs.OperatorCode operator = Some code ->
  CompileJs.encoded inherited (CompileJs.mkInstruction operator (CompileJs.JsNumber n))
  = raw (mkInstruction code n).
Proof.
  intros Hop. pose proof (OperatorCode_range operator code Hop) as Hc.
  assert (Hraw : 0 <= raw (mkInstruction code n) < 2 ^ 31).
  { rewrite raw_mkInstruction by lia.
    pose proof (Z.mod_pos_bound n (2 ^ 24) ltac:(lia)). lia. }
  unfold CompileJs.encoded, CompileJs.operatorCode.
  cbn [CompileJs.operator CompileJs.operand].
  rewrite Hop. cbn [CompileJs.ToInt32 CompileJs.truthy].
  rewrite (to_signed_32_small code) by lia.
  rewrite Z.shiftl_mul_pow2 by lia.
  rewrite (to_signed_32_small (code * 2 ^ 24)) by lia.
  change (to_signed 32 0xFFFFFFFF) with (-1).
  destruct (Z.eqb_spec n 0) as [->|Hn]; cbn [negb].
  - rewrite Z.land_m1_r. rewrite to_signed_32_small by lia.
    rewrite raw_mkInstruction_lor by lia.
    rewrite Z.mod_0_l by lia. rewrite Z.lor_0_r. reflexivity.
  - rewrite land_ToInt32_mask.
    rewrite <- raw_mkInstruction_lor by lia.
    rewrite (to_signed_32_small _ Hraw).
    rewrite Z.land_m1_r. apply to_signed_32_small. exact Hraw.
Qed.

End Encoding.

(** X23. The word [Instruction.output] of the producer tool encodes
    (compile.js 107-114) is the word the constructor [Instruction(bc, p)]
    of the interpreter builds from the operator's code and the operand; an
    absent operand is encoded as 0.  [byteCode()] gives back the code,
    [parameter()] the operand when it lies in [-2^23, 2^23), and every code
    of [OperatorCode] but 23, [STR_JMP_NEQ], is an enumerator of
    [ByteCode]. *)
Theorem producer_encodes_for_the_interpreter
        (inherited : string -> bool) (operator : string) (code n : Z) :
  CompileJs.property CompileJs.OperatorCode operator = Some code ->
  let word :=
    CompileJs.encoded inherited
      (CompileJs.mkInstruction operator (CompileJs.JsNumber n)) in
  word = raw (mkInstruction code n) /\
  CompileJs.encoded inherited
    (CompileJs.mkInstruction operator CompileJs.JsUndefined)
  = raw (mkInstruction code 0) /\
  byteCode (mkRaw word) = code /\
  (- 2 ^ 23 <= n < 2 ^ 23 -> parameter (mkRaw word) = n) /\
  (code <> 23 -> exists bc, ofRaw code = Some bc).
Proof.
  intros Hop word.
  pose proof (OperatorCode_range operator code Hop) as Hc.
  assert (Hword : word = raw (mkInstruction code n))
    by apply (encoded_number inherited operator code n Hop).
  assert (Hrec : mkRaw word = mkInstruction code n).
  { rewrite Hword. destruct (mkInstruction code n). reflexivity. }
  split; [exact Hword|]. split; [|split; [|split]].
  - rewrite <- (encoded_number inherited operator code 0 Hop).
    unfold CompileJs.encoded. reflexivity.
  - rewrite Hrec. apply byteCode_mkInstruction. lia.
  - intros Hn. rewrite Hrec. apply parameter_mkInstruction; lia.
  - intros H23.
    assert (Hcases : code = 0 \/ code = 1 \/ code = 2 \/ code = 3 \/ code = 4 \/
                     code = 5 \/ code = 6 \/ code = 7 \/ code = 8 \/ code = 9 \/
                     code = 10 \/ code = 11 \/ code = 12 \/ code = 13 \/
                     code = 14 \/ code = 15 \/ code = 16 \/ code = 17 \/
                     code = 18 \/ code = 19 \/ code = 20 \/ code = 21).
    { revert Hop. unfold CompileJs.OperatorCode. cbn [CompileJs.property].
      repeat match goal with
             | |- context [String.eqb ?a ?b] => destruct (String.eqb a b)
             end;
        intros H; try discriminate H; injection H as <-; lia. }
    repeat (destruct Hcases as [-> | Hcases]; [eexists; reflexivity|]).
    subst code. eexists; reflexivity.
Qed.

Lemma producer_encodes_for_the_interpreter_witness :
  CompileJs.encoded (fun _ => false)
    (CompileJs.mkInstruction "JMP_EQ_LT" (CompileJs.JsNumber (-11)))
  = raw (mkInstruction 19 (-11)) /\
  parameter (mkRaw (CompileJs.encoded (fun _ => false)
                      (CompileJs.mkInstruction "JMP_EQ_LT" (CompileJs.JsNumber (-11)))))
  = -11.
Proof.
  pose proof (producer_encodes_for_the_interpreter (fun _ => false) "JMP_EQ_LT"
                19 (-11) eq_refl) as (Hword & _ & _ & Hparam & _).
  split; [exact Hword | apply Hparam; lia].
Defined.

(** X24. An operator that [OperatorCode] does not list is encoded with the
    opcode of [END_SECTION]; with no operand, or the operand 0, its word is
    the sentinel that ends a function.  [handleUpdateExpression]
    (compile.js 561) emits such an operator, [DUP]. *)
Theorem unknown_operator_is_encoded_as_end_section
        (inherited : string -> bool) (operator : string)
        (operand : CompileJs.JsValue) :
  CompileJs.property CompileJs.OperatorCode operator = None ->
  CompileJs.encoded inherited (CompileJs.mkInstruction operator operand)
  = CompileJs.encoded inherited (CompileJs.mkInstruction "END_SECTION" operand) /\
  (CompileJs.truthy operand = false ->
   mkRaw (CompileJs.encoded inherited (CompileJs.mkInstruction operator operand))
   = END_SECTION_INSTRUCTION).
Proof.
  intros Hop.
  assert (Hcode : CompileJs.ToInt32 (CompileJs.operatorCode inherited operator) = 0).
  { unfold CompileJs.operatorCode. rewrite Hop.
    destruct (inherited operator); reflexivity. }
  assert (Heq : CompileJs.encoded inherited (CompileJs.mkInstruction operator operand)
                = CompileJs.encoded inherited
                    (CompileJs.mkInstruction "END_SECTION" operand)).
  { unfold CompileJs.encoded. cbn [CompileJs.operator CompileJs.operand].
    rewrite Hcode. reflexivity. }
  split; [exact Heq|].
  intros Hfalsy. rewrite Heq. unfold CompileJs.encoded.
  cbn [CompileJs.operator CompileJs.operand]. rewrite Hfalsy. reflexivity.
Qed.

Lemma unknown_operator_is_encoded_as_end_section_witness :
  mkRaw (CompileJs.encoded (fun _ => false)
           (CompileJs.mkInstruction "DUP" CompileJs.JsUndefined))
  = END_SECTION_INSTRUCTION.
Proof.
  apply (proj2 (unknown_operator_is_encoded_as_end_section (fun _ => false)
                  "DUP" CompileJs.JsUndefined eq_refl)).
  reflexivity.
Defined.

Section Symbols.
Variable inherited : string -> bool.

Lemma interned_new : interned CompileJs.newSymbolTable.
Proof.
  unfold interned, CompileJs.newSymbolTable. cbn.
  split; [lia|]. split; [|split].
  - intros symbol id H. rewrite lookup_empty in H. discriminate.
  - intros symbol symbol' id H. rewrite lookup_empty in H. discriminate.
  - intros id H. lia.
Qed.

Lemma lookup_own (t : CompileJs.SymbolTable) (symbol : string) (id : Z) :
  CompileJs.map t !! symbol = Some id ->
  CompileJs.lookup inherited t symbol = CompileJs.JsNumber id.
Proof. intros H. unfold CompileJs.lookup. rewrite H. reflexivity. Qed.

Lemma lookup_absent (t : CompileJs.SymbolTable) (symbol : string) :
  inherited symbol = false ->
  CompileJs.map t !! symbol = None ->
  CompileJs.lookup inherited t symbol = CompileJs.JsUndefined.
Proof. intros Hi H. unfold CompileJs.lookup. rewrite H, Hi. reflexivity. Qed.

Lemma get_interned (t : CompileJs.SymbolTable) (symbol : string) (id : Z) :
  CompileJs.map t !! symbol = Some id ->
  CompileJs.get inherited symbol t = (CompileJs.JsNumber id, t).
Proof.
  intros H. unfold CompileJs.get. rewrite (lookup_own t symbol id H). reflexivity.
Qed.

Lemma get_fresh (t : CompileJs.SymbolTable) (symbol : string) :
  inherited symbol = false ->
  CompileJs.map t !! symbol = None ->
  CompileJs.get inherited symbol t
  = (CompileJs.JsNumber (CompileJs.next t),
     CompileJs.mkSymbolTable (CompileJs.next t + 1)
       (<[symbol := CompileJs.next t]> (CompileJs.map t))).
Proof.
  intros Hi H. unfold CompileJs.get. rewrite (lookup_absent t symbol Hi H).
  reflexivity.
Qed.

Lemma interned_insert (t : CompileJs.SymbolTable) (symbol : string) :
  interned t ->
  CompileJs.map t !! symbol = None ->
  interned (CompileJs.mkSymbolTable (CompileJs.next t + 1)
              (<[symbol := CompileJs.next t]> (CompileJs.map t))).
Proof.
  intros (Hnext & Hrange & Hinj & Hsurj) Hnone.
  unfold interned. cbn [CompileJs.next CompileJs.map].
  split; [lia|]. split; [|split].
  - intros s id H. destruct (decide (s = symbol)) as [->|Hs].
    + rewrite lookup_insert_eq in H. injection H as <-. lia.
    + rewrite lookup_insert_ne in H by congruence.
      specialize (Hrange s id H). lia.
  - intros s s' id H H'.
    destruct (decide (s = symbol)) as [->|Hs];
      destruct (decide (s' = symbol)) as [->|Hs']; [reflexivity| | |].
    + rewrite lookup_insert_eq in H. injection H as <-.
      rewrite lookup_insert_ne in H' by congruence.
      specialize (Hrange s' _ H'). lia.
    + rewrite lookup_insert_eq in H'. injection H' as <-.
      rewrite lookup_insert_ne in H by congruence.
      specialize (Hrange s _ H). lia.
    + rewrite lookup_insert_ne in H by congruence.
      rewrite lookup_insert_ne in H' by congruence.
      exact (Hinj s s' id H H').
  - intros id Hid. destruct (Z.eq_dec id (CompileJs.next t)) as [->|Hne].
    + exists symbol. apply lookup_insert_eq.
    + destruct (Hsurj id ltac:(lia)) as (s & Hs). exists s.
      rewrite lookup_insert_ne; [exact Hs|]. intros <-. congruence.
Qed.

End Symbols.

(** X25. [SymbolTable.get] (compile.js 128-136) interns a symbol once.  On a
    table whose identifiers are the numbers below [next], one per symbol,
    it returns a number below the new [next], keeps that invariant,
    returns the same number when called again, and changes the lookup of
    no other symbol; a new symbol gets the identifier [next].  A symbol
    named like a member of [Object.prototype] is never interned: [get]
    returns the inherited member.  The invariant holds of a new table. *)
Theorem symbols_are_interned_once
        (inherited : string -> bool) (t : CompileJs.SymbolTable) (symbol : string) :
  interned t ->
  (inherited symbol = false ->
   exists (id : Z) (t' : CompileJs.SymbolTable),
     CompileJs.get inherited symbol t = (CompileJs.JsNumber id, t') /\
     interned t' /\
     0 <= id < CompileJs.next t' /\
     CompileJs.lookup inherited t' symbol = CompileJs.JsNumber id /\
     CompileJs.get inherited symbol t' = (CompileJs.JsNumber id, t') /\
     (forall other, other <> symbol ->
                    CompileJs.lookup inherited t' other
                    = CompileJs.lookup inherited t other) /\
     (CompileJs.lookup inherited t symbol = CompileJs.JsUndefined ->
      id = CompileJs.next t /\ CompileJs.next t' = CompileJs.next t + 1) /\
     (CompileJs.lookup inherited t symbol <> CompileJs.JsUndefined -> t' = t)) /\
  (inherited symbol = true -> CompileJs.map t !! symbol = None ->
   CompileJs.get inherited symbol t = (CompileJs.JsOther, t)) /\
  interned CompileJs.newSymbolTable.
Proof.
  intros Hwf. split; [|split].
  - intros Hi. destruct (CompileJs.map t !! symbol) as [id|] eqn:Hmap.
    + exists id, t.
      pose proof (lookup_own inherited t symbol id Hmap) as Hl.
      destruct Hwf as (Hnext & Hrange & Hrest).
      split; [apply get_interned; exact Hmap|].
      split; [exact (conj Hnext (conj Hrange Hrest))|].
      split; [exact (Hrange symbol id Hmap)|].
      split; [exact Hl|].
      split; [apply get_interned; exact Hmap|].
      split; [reflexivity|].
      split; [rewrite Hl; discriminate | reflexivity].
    + exists (CompileJs.next t).
      eexists. split; [apply get_fresh; assumption|].
      split; [apply interned_insert; assumption|].
      cbn [CompileJs.next].
      destruct Hwf as (Hnext & _).
      split; [lia|].
      split; [apply lookup_own; cbn [CompileJs.map]; apply lookup_insert_eq|].
      split; [apply get_interned; cbn [CompileJs.map]; apply lookup_insert_eq|].
      split.
      { intros other Hother. unfold CompileJs.lookup. cbn [CompileJs.map].
        rewrite lookup_insert_ne by congruence. reflexivity. }
      split; [intros _; split; reflexivity|].
      intros Hdef. exfalso. apply Hdef.
      apply lookup_absent; assumption.
  - intros Hi Hmap. unfold CompileJs.get, CompileJs.lookup.
    rewrite Hmap, Hi. reflexivity.
  - apply interned_new.
Qed.

Lemma symbols_are_interned_once_witness :
  exists (id : Z) (t' : CompileJs.SymbolTable),
    CompileJs.get (fun _ => false) "x" CompileJs.newSymbolTable
    = (CompileJs.JsNumber id, t') /\
    CompileJs.get (fun _ => false) "x" t' = (CompileJs.JsNumber id, t').
Proof.
  destruct (proj1 (symbols_are_interned_once (fun _ => false)
                     CompileJs.newSymbolTable "x" interned_new) eq_refl)
    as (id & t' & Hget & _ & _ & _ & Hagain & _).
  exists id, t'. split; assumption.
Defined.

Section Labels.

Lemma instructionIndex_app (table extra : CompileJs.LabelTable) (l : nat) :
  (l < length table)%nat ->
  CompileJs.instructionIndex l (table ++ extra) = CompileJs.instructionIndex l table.
Proof.
  intros H. unfold CompileJs.instructionIndex. rewrite lookup_app_l by exact H.
  reflexivity.
Qed.

Lemma instructionIndex_beyond (table : CompileJs.LabelTable) (l : nat) :
  (length table <= l)%nat -> CompileJs.instructionIndex l table = None.
Proof.
  intros H. unfold CompileJs.instructionIndex.
  rewrite lookup_ge_None_2 by exact H. reflexivity.
Qed.

Lemma instructionIndex_holes (n l : nat) :
  CompileJs.instructionIndex l (replicate n None) = None.
Proof.
  unfold CompileJs.instructionIndex.
  destruct (replicate n None !! l) as [o|] eqn:H; [|reflexivity].
  apply lookup_replicate in H. destruct H as [-> _]. reflexivity.
Qed.

Lemma place_length (label : nat) (offset : Z) (table : CompileJs.LabelTable) :
  length (CompileJs.place label offset table) = Nat.max (length table) (S label).
Proof.
  unfold CompileJs.place. destruct (Nat.ltb_spec label (length table)).
  - rewrite length_insert. lia.
  - rewrite !length_app, length_replicate. cbn. lia.
Qed.

Lemma place_same (label : nat) (offset : Z) (table : CompileJs.LabelTable) :
  CompileJs.instructionIndex label (CompileJs.place label offset table) = Some offset.
Proof.
  unfold CompileJs.place, CompileJs.instructionIndex.
  destruct (Nat.ltb_spec label (length table)).
  - rewrite list_lookup_insert_eq by lia. reflexivity.
  - rewrite lookup_app_r by lia.
    rewrite lookup_app_r by (rewrite length_replicate; lia).
    rewrite length_replicate.
    replace (label - length table - (label - length table))%nat with 0%nat by lia.
    reflexivity.
Qed.

Lemma place_other (label l : nat) (offset : Z) (table : CompileJs.LabelTable) :
  l <> label ->
  CompileJs.instructionIndex l (CompileJs.place label offset table)
  = CompileJs.instructionIndex l table.
Proof.
  intros Hl. unfold CompileJs.place.
  destruct (Nat.ltb_spec label (length table)).
  - unfold CompileJs.instructionIndex.
    rewrite list_lookup_insert_ne by congruence. reflexivity.
  - destruct (Nat.ltb_spec l (length table)).
    + apply instructionIndex_app. assumption.
    + rewrite (instructionIndex_beyond table l) by lia.
      unfold CompileJs.instructionIndex.
      rewrite lookup_app_r by lia.
      destruct (Nat.ltb_spec (l - length table) (label - length table)).
      * rewrite lookup_app_l by (rewrite length_replicate; lia).
        rewrite lookup_replicate_2 by lia. reflexivity.
      * rewrite lookup_app_r by (rewrite length_replicate; lia).
        rewrite length_replicate.
        destruct (l - length table - (label - length table))%nat eqn:E; [lia|].
        reflexivity.
Qed.

End Labels.

(** X26. [LabelTable] (compile.js 147-167): [create] returns a label above
    every index of the table, not yet placed, and changes the place of no
    label; [place] makes [instructionIndex] return the offset for this
    label, leaves every other label as it was and never shortens the
    table.  In a function, [createLabel] returns that label, and a label
    placed by [placeLabel] when the function holds [n] instructions is
    resolved, for a jump at [fromIndex], to the offset [n - fromIndex - 1]
    (compile.js 186-192, 237-243). *)
Theorem labels_are_fresh_and_keep_their_place
        (table : CompileJs.LabelTable) (label : nat) (offset : Z) :
  let fresh := fst (CompileJs.create table) in
  let table' := snd (CompileJs.create table) in
  ((length table < fresh)%nat /\
   length table' = fresh /\
   CompileJs.instructionIndex fresh table' = None /\
   (forall l, CompileJs.instructionIndex l table'
              = CompileJs.instructionIndex l table)) /\
  (CompileJs.instructionIndex label (CompileJs.place label offset table)
   = Some offset /\
   (forall l, l <> label ->
              CompileJs.instructionIndex l (CompileJs.place label offset table)
              = CompileJs.instructionIndex l table) /\
   (length table <= length (CompileJs.place label offset table))%nat) /\
  (forall (f : CompileJs.FunctionDefinition) (fromIndex : Z),
      fst (CompileJs.createLabel f) = fst (CompileJs.create (CompileJs.labels f)) /\
      CompileJs.instructions (CompileJs.placeLabel label f)
      = CompileJs.instructions f /\
      CompileJs.resolveLabel (CompileJs.placeLabel label f)
        (CompileJs.JsNumber (Z.of_nat label)) fromIndex
      = CompileJs.Normal (size (CompileJs.instructions f) - fromIndex - 1)).
Proof.
  cbv zeta. unfold CompileJs.create. cbn [fst snd].
  rewrite length_app. cbn [length].
  split; [split; [lia|split; [lia|split]] | split; [split; [|split]|]].
  - apply instructionIndex_beyond. rewrite length_app. cbn. lia.
  - intros l. destruct (Nat.ltb_spec l (length table)).
    + apply instructionIndex_app. assumption.
    + rewrite (instructionIndex_beyond table l) by lia.
      unfold CompileJs.instructionIndex. rewrite lookup_app_r by lia.
      destruct (l - length table)%nat; reflexivity.
  - apply place_same.
  - intros l Hl. apply place_other. exact Hl.
  - rewrite place_length. lia.
  - intros f fromIndex. split; [|split].
    + unfold CompileJs.createLabel, CompileJs.create. reflexivity.
    + reflexivity.
    + unfold CompileJs.resolveLabel, CompileJs.placeLabel, CompileJs.labelTarget.
      cbn [CompileJs.labels].
      destruct (Z.leb_spec 0 (Z.of_nat label)); [|lia].
      rewrite Nat2Z.id, place_same. reflexivity.
Qed.

(** X27. [localIndex] (compile.js 229-235): a register with an index other
    than zero is at its index plus the number of arguments, an argument at
    its own index.  The register of index 0 fails the test [if (index)]:
    when its name is no argument, [localIndex] returns [undefined], and
    the instructions [emitPushFromVar] and [emitPopIntoVar] (compile.js
    401-409) append are encoded as accesses to the variable 0. *)
Theorem localIndex_skips_the_first_register
        (inherited : string -> bool) (f : CompileJs.FunctionDefinition)
        (name : string) :
  (forall index,
      CompileJs.map (CompileJs.regs f) !! name = Some index -> index <> 0 ->
      CompileJs.localIndex inherited f name
      = CompileJs.JsNumber (index + CompileJs.next (CompileJs.args f))) /\
  (forall index,
      CompileJs.map (CompileJs.regs f) !! name = None -> inherited name = false ->
      CompileJs.map (CompileJs.args f) !! name = Some index ->
      CompileJs.localIndex inherited f name = CompileJs.JsNumber index) /\
  (CompileJs.map (CompileJs.regs f) !! name = Some 0 ->
   CompileJs.map (CompileJs.args f) !! name = None -> inherited name = false ->
   CompileJs.localIndex inherited f name = CompileJs.JsUndefined /\
   exists load store,
     CompileJs.instructions (CompileJs.emitPushFromVar inherited name f)
     = CompileJs.instructions f ++ [load] /\
     CompileJs.instructions (CompileJs.emitPopIntoVar inherited name f)
     = CompileJs.instructions f ++ [store] /\
     mkRaw (CompileJs.encoded inherited load)
     = mkInstruction (toRaw PUSH_FROM_VAR) 0 /\
     mkRaw (CompileJs.encoded inherited store)
     = mkInstruction (toRaw POP_INTO_VAR) 0).
Proof.
  split; [|split].
  - intros index Hreg Hne. unfold CompileJs.localIndex.
    rewrite (lookup_own inherited _ _ _ Hreg).
    destruct (Z.eqb_spec index 0); [contradiction | reflexivity].
  - intros index Hreg Hi Harg. unfold CompileJs.localIndex.
    rewrite (lookup_absent inherited _ _ Hi Hreg).
    apply lookup_own. exact Harg.
  - intros Hreg Harg Hi.
    assert (Hu : CompileJs.localIndex inherited f name = CompileJs.JsUndefined).
    { unfold CompileJs.localIndex.
      rewrite (lookup_own inherited _ _ _ Hreg). cbn.
      apply lookup_absent; assumption. }
    split; [exact Hu|].
    unfold CompileJs.emitPushFromVar, CompileJs.emitPopIntoVar,
      CompileJs.pushInstruction. cbn [CompileJs.instructions].
    rewrite Hu. do 2 eexists.
    split; [reflexivity|]. split; [reflexivity|]. split; reflexivity.
Qed.

Lemma localIndex_skips_the_first_register_witness :
  let f :=
    CompileJs.mkFunctionDefinition
      (snd (CompileJs.get (fun _ => false) "n" CompileJs.newSymbolTable))
      (snd (CompileJs.get (fun _ => false) "i" CompileJs.newSymbolTable))
      [] [] in
  CompileJs.localIndex (fun _ => false) f "i" = CompileJs.JsUndefined /\
  CompileJs.localIndex (fun _ => false) f "n" = CompileJs.JsNumber 0.
Proof.
  cbv zeta. split.
  - apply (proj2 (proj2 (localIndex_skips_the_first_register (fun _ => false)
             (CompileJs.mkFunctionDefinition
                (snd (CompileJs.get (fun _ => false) "n" CompileJs.newSymbolTable))
                (snd (CompileJs.get (fun _ => false) "i" CompileJs.newSymbolTable))
                [] []) "i"))); reflexivity.
  - apply (proj1 (proj2 (localIndex_skips_the_first_register (fun _ => false)
             (CompileJs.mkFunctionDefinition
                (snd (CompileJs.get (fun _ => false) "n" CompileJs.newSymbolTable))
                (snd (CompileJs.get (fun _ => false) "i" CompileJs.newSymbolTable))
                [] []) "n")) 0); reflexivity.
Defined.

Section Resolve.

Lemma resolveFrom_spec (f : CompileJs.FunctionDefinition)
      (rest : list CompileJs.Instruction) :
  forall (index : Z) (resolved : list CompileJs.Instruction),
    CompileJs.resolveFrom f index rest = CompileJs.Normal resolved ->
    length resolved = length rest /\
    forall (k : nat) (instruction : CompileJs.Instruction),
      rest !! k = Some instruction ->
      (CompileJs.isJump (CompileJs.operator instruction) = false ->
       resolved !! k = Some instruction) /\
      (CompileJs.isJump (CompileJs.operator instruction) = true ->
       exists target,
         CompileJs.labelTarget (CompileJs.labels f) (CompileJs.operand instruction)
         = Some target /\
         resolved !! k
         = Some (CompileJs.mkInstruction (CompileJs.operator instruction)
                   (CompileJs.JsNumber (target - (index + Z.of_nat k) - 1)))).
Proof.
  induction rest as [|i rest IH]; intros index resolved H.
  - cbn in H. injection H as <-. split; [reflexivity|].
    intros k instruction Hk. rewrite lookup_nil in Hk. discriminate.
  - cbn [CompileJs.resolveFrom] in H.
    destruct (CompileJs.isJump (CompileJs.operator i)) eqn:Hjump.
    + unfold CompileJs.resolveLabel in H.
      destruct (CompileJs.labelTarget (CompileJs.labels f) (CompileJs.operand i))
        as [target|] eqn:Htarget; [|discriminate H].
      destruct (CompileJs.resolveFrom f (index + 1) rest) as [rest'|] eqn:Hrest;
        [|discriminate H].
      injection H as <-. destruct (IH _ _ Hrest) as (Hlen & Hall).
      split; [cbn; rewrite Hlen; reflexivity|].
      intros [|k] instruction Hk.
      * cbn in Hk. injection Hk as <-. split; [congruence|].
        intros _. exists target. split; [exact Htarget|].
        cbn. do 3 f_equal. lia.
      * cbn in Hk. destruct (Hall k instruction Hk) as (Hplain & Hj).
        split; [exact Hplain|].
        intros Hyes. destruct (Hj Hyes) as (t & Ht & Hres).
        exists t. split; [exact Ht|].
        etransitivity; [exact Hres|]. do 3 f_equal. lia.
    + destruct (CompileJs.resolveFrom f (index + 1) rest) as [rest'|] eqn:Hrest;
        [|discriminate H].
      injection H as <-. destruct (IH _ _ Hrest) as (Hlen & Hall).
      split; [cbn; rewrite Hlen; reflexivity|].
      intros [|k] instruction Hk.
      * cbn in Hk. injection Hk as <-. split; [reflexivity | congruence].
      * cbn in Hk. destruct (Hall k instruction Hk) as (Hplain & Hj).
        split; [exact Hplain|].
        intros Hyes. destruct (Hj Hyes) as (t & Ht & Hres).
        exists t. split; [exact Ht|].
        etransitivity; [exact Hres|]. do 3 f_equal. lia.
Qed.

Lemma resolveFrom_throws (f : CompileJs.FunctionDefinition)
      (rest : list CompileJs.Instruction) :
  forall (index : Z) (k : nat) (instruction : CompileJs.Instruction),
    rest !! k = Some instruction ->
    CompileJs.isJump (CompileJs.operator instruction) = true ->
    CompileJs.labelTarget (CompileJs.labels f) (CompileJs.operand instruction) = None ->
    exists value,
      CompileJs.resolveFrom f index rest
      = CompileJs.Thrown "Encountered label " value.
Proof.
  induction rest as [|i rest IH]; intros index k instruction Hk Hjump Hnone.
  - rewrite lookup_nil in Hk. discriminate.
  - cbn [CompileJs.resolveFrom]. destruct k as [|k].
    + cbn in Hk. injection Hk as ->. rewrite Hjump.
      unfold CompileJs.resolveLabel. rewrite Hnone. eexists. reflexivity.
    + cbn in Hk. destruct (IH (index + 1) k instruction Hk Hjump Hnone)
        as (value & Hthrow).
      rewrite Hthrow.
      destruct (CompileJs.isJump (CompileJs.operator i)).
      * unfold CompileJs.resolveLabel.
        destruct (CompileJs.labelTarget (CompileJs.labels f) (CompileJs.operand i));
          eexists; reflexivity.
      * eexists. reflexivity.
Qed.

End Resolve.

(** X28. [resolve] (compile.js 194-210) keeps every instruction that is no
    jump and replaces the label of the jump at the index [k] by
    [target - k - 1], [target] the place of the label; it throws when a
    jump names a label that was not placed. *)
Theorem resolve_turns_labels_into_offsets (f : CompileJs.FunctionDefinition) :
  (forall f',
      CompileJs.resolve f = CompileJs.Normal f' ->
      length (CompileJs.instructions f') = length (CompileJs.instructions f) /\
      CompileJs.labels f' = CompileJs.labels f /\
      forall (k : nat) (instruction : CompileJs.Instruction),
        CompileJs.instructions f !! k = Some instruction ->
        (CompileJs.isJump (CompileJs.operator instruction) = false ->
         CompileJs.instructions f' !! k = Some instruction) /\
        (CompileJs.isJump (CompileJs.operator instruction) = true ->
         exists target,
           CompileJs.labelTarget (CompileJs.labels f) (CompileJs.operand instruction)
           = Some target /\
           CompileJs.instructions f' !! k
           = Some (CompileJs.mkInstruction (CompileJs.operator instruction)
                     (CompileJs.JsNumber (target - Z.of_nat k - 1))))) /\
  (forall (k : nat) (instruction : CompileJs.Instruction),
      CompileJs.instructions f !! k = Some instruction ->
      CompileJs.isJump (CompileJs.operator instruction) = true ->
      CompileJs.labelTarget (CompileJs.labels f) (CompileJs.operand instruction) = None ->
      exists value,
        CompileJs.resolve f = CompileJs.Thrown "Encountered label " value).
Proof.
  split.
  - intros f' H. unfold CompileJs.resolve in H.
    destruct (CompileJs.resolveFrom f 0 (CompileJs.instructions f))
      as [resolved|] eqn:Hres; [|discriminate H].
    injection H as <-. cbn [CompileJs.instructions CompileJs.labels].
    destruct (resolveFrom_spec f _ _ _ Hres) as (Hlen & Hall).
    split; [exact Hlen|]. split; [reflexivity|].
    intros k instruction Hk. destruct (Hall k instruction Hk) as (Hplain & Hj).
    split; [exact Hplain|]. intros Hyes.
    destruct (Hj Hyes) as (t & Ht & Hr). exists t. split; [exact Ht|].
    rewrite Hr. reflexivity.
  - intros k instruction Hk Hjump Hnone. unfold CompileJs.resolve.
    destruct (resolveFrom_throws f _ 0 k instruction Hk Hjump Hnone)
      as (value & ->).
    exists value. reflexivity.
Qed.

Lemma resolve_turns_labels_into_offsets_witness :
  CompileJs.resolve
    (CompileJs.mkFunctionDefinition CompileJs.newSymbolTable CompileJs.newSymbolTable
       [None; None; Some 0]
       [CompileJs.mkInstruction "INT_PUSH_CONSTANT" (CompileJs.JsNumber 1);
        CompileJs.mkInstruction "JMP" (CompileJs.JsNumber 2)])
  = CompileJs.Normal
      (CompileJs.mkFunctionDefinition CompileJs.newSymbolTable CompileJs.newSymbolTable
         [None; None; Some 0]
         [CompileJs.mkInstruction "INT_PUSH_CONSTANT" (CompileJs.JsNumber 1);
          CompileJs.mkInstruction "JMP" (CompileJs.JsNumber (-2))]) /\
  exists value,
    CompileJs.resolve
      (CompileJs.mkFunctionDefinition CompileJs.newSymbolTable
         CompileJs.newSymbolTable [None]
         [CompileJs.mkInstruction "JMP" (CompileJs.JsNumber 1)])
    = CompileJs.Thrown "Encountered label " value.
Proof.
  split; [reflexivity|].
  apply (proj2 (resolve_turns_labels_into_offsets
                  (CompileJs.mkFunctionDefinition CompileJs.newSymbolTable
                     CompileJs.newSymbolTable [None]
                     [CompileJs.mkInstruction "JMP" (CompileJs.JsNumber 1)]))
               0%nat (CompileJs.mkInstruction "JMP" (CompileJs.JsNumber 1)));
    reflexivity.
Defined.

Section Landing.
Variable inherited : string -> bool.
Variable rt : Om.Runtime.
Variable vm : Om.VirtualMachine rt.
Variable interpret : Z -> Om.Exec rt Om.Value.

Lemma om_dispatch_jmp (args ip : Z) (i : Instruction) (c : Om.Context rt) :
  ofRaw (byteCode i) = Some JMP ->
  Om.dispatch rt vm interpret args ip i c = Ok (Break (ip + parameter i)) c.
Proof. intros H. unfold Om.dispatch. rewrite H. reflexivity. Qed.

Lemma encoded_decodes (operator : string) (bc : ByteCode) (offset : Z) :
  CompileJs.property CompileJs.OperatorCode operator = Some (toRaw bc) ->
  - 2 ^ 23 <= offset < 2 ^ 23 ->
  let i := mkRaw (CompileJs.encoded inherited
                    (CompileJs.mkInstruction operator (CompileJs.JsNumber offset))) in
  ofRaw (byteCode i) = Some bc /\ parameter i = offset.
Proof.
  intros Hop Hoff i.
  assert (Hi : i = mkInstruction (toRaw bc) offset).
  { unfold i. rewrite (encoded_number inherited operator (toRaw bc) offset Hop).
    destruct (mkInstruction (toRaw bc) offset). reflexivity. }
  rewrite Hi. split.
  - rewrite byteCode_mkInstruction by apply toRaw_range. apply ofRaw_toRaw.
  - apply parameter_mkInstruction; [apply toRaw_range | exact Hoff].
Qed.

End Landing.

(** X29. The offset [resolveLabel] computes (compile.js 186-192), encoded by
    [Instruction.output] and decoded by the interpreter, takes [interpret]
    (core.cpp 1052-1142) to the instruction the label was placed at.  After
    [JMP] the [switch] breaks with the stack untouched and the turn of the
    loop leaves it at the target.  After a conditional jump both operands
    are popped and, read into the [std::int32_t] variables [l] and [r],
    compared: the turn leaves the loop at the target when the comparison
    holds and at the next instruction when it does not.  In both cases [interpret] goes
    on from there: a run from that instruction to the sentinel makes it
    throw, and a run to a [FUNCTION_RETURN] makes it return the value then
    on top of the stack. *)
Theorem resolved_jump_lands_on_its_label
        (inherited : string -> bool)
        (rt : Om.Runtime) (vm : Om.VirtualMachine rt)
        (interpret : Z -> Om.Exec rt Om.Value)
        (g : CompileJs.FunctionDefinition) (label : CompileJs.JsValue)
        (from offset : Z) (operator : string) (bc : ByteCode)
        (f : FunctionSpec) (args : Z) (c : Om.Context rt) :
  CompileJs.resolveLabel g label from = CompileJs.Normal offset ->
  - 2 ^ 23 <= offset < 2 ^ 23 ->
  CompileJs.property CompileJs.OperatorCode operator = Some (toRaw bc) ->
  let i := mkRaw (CompileJs.encoded inherited
                    (CompileJs.mkInstruction operator (CompileJs.JsNumber offset))) in
  fetch f from = Some i ->
  exists target : Z,
    CompileJs.labelTarget (CompileJs.labels g) label = Some target /\
    (bc = JMP ->
     Om.dispatch rt vm interpret args from i c = Ok (Break (target - 1)) c /\
     omTurn rt vm interpret f args from c = Some (target, omTick c) /\
     (forall fuel : nat,
         Om.interpretLoop rt vm interpret (S fuel) f args from c
         = Om.interpretLoop rt vm interpret fuel f args target (omTick c)) /\
     (forall (fuel n : nat) (ipe : Z) (ce : Om.Context rt),
         runs (omTurn rt vm interpret f args) n (target, omTick c) (ipe, ce) ->
         fetch f ipe = Some END_SECTION_INSTRUCTION ->
         (S n < fuel)%nat ->
         Om.interpretLoop rt vm interpret fuel f args from c
         = Throw (runtime_error "Reached end of function") ce) /\
     (forall (fuel n : nat) (ipe : Z) (ir : Instruction) (ce : Om.Context rt)
             (v : Om.Value),
         runs (omTurn rt vm interpret f args) n (target, omTick c) (ipe, ce) ->
         fetch f ipe = Some ir ->
         ofRaw (byteCode ir) = Some Bytecode.FUNCTION_RETURN ->
         omCell ce (omTop ce - 1) = Some v ->
         (S n < fuel)%nat ->
         Om.interpretLoop rt vm interpret fuel f args from c
         = Ok v (omSetTop ce args))) /\
    (forall (holds : Z -> Z -> Prop) (vl vr : Z),
        comparison bc = Some holds ->
        omCell c (omTop c - 1) = Some (Om.VInteger vr) ->
        omCell c (omTop c - 2) = Some (Om.VInteger vl) ->
        let l := int32 vl in
        let r := int32 vr in
        let popped := omSetTop c (omTop c - 2) in
        exists next : Z,
          (holds l r -> next = target) /\
          (~ holds l r -> next = from + 1) /\
          Om.dispatch rt vm interpret args from i c
          = Ok (Break (next - 1)) popped /\
          omTurn rt vm interpret f args from c = Some (next, omTick popped) /\
          (forall fuel : nat,
              Om.interpretLoop rt vm interpret (S fuel) f args from c
              = Om.interpretLoop rt vm interpret fuel f args next
                  (omTick popped)) /\
          (forall (fuel n : nat) (ipe : Z) (ce : Om.Context rt),
              runs (omTurn rt vm interpret f args) n (next, omTick popped)
                   (ipe, ce) ->
              fetch f ipe = Some END_SECTION_INSTRUCTION ->
              (S n < fuel)%nat ->
              Om.interpretLoop rt vm interpret fuel f args from c
              = Throw (runtime_error "Reached end of function") ce) /\
          (forall (fuel n : nat) (ipe : Z) (ir : Instruction)
                  (ce : Om.Context rt) (v : Om.Value),
              runs (omTurn rt vm interpret f args) n (next, omTick popped)
                   (ipe, ce) ->
              fetch f ipe = Some ir ->
              ofRaw (byteCode ir) = Some Bytecode.FUNCTION_RETURN ->
              omCell ce (omTop ce - 1) = Some v ->
              (S n < fuel)%nat ->
              Om.interpretLoop rt vm interpret fuel f args from c
              = Ok v (omSetTop ce args))).
Proof.
  intros Hres Hoff Hop i Hf.
  unfold CompileJs.resolveLabel in Hres.
  destruct (CompileJs.labelTarget (CompileJs.labels g) label) as [target|];
    [|discriminate Hres].
  injection Hres as Hoffset. exists target. split; [reflexivity|].
  destruct (encoded_decodes inherited operator bc offset Hop Hoff) as (Hbc & Hp).
  fold i in Hbc, Hp.
  split.
  - intros ->.
    assert (Hne : instruction_eqb i END_SECTION_INSTRUCTION = false).
    { apply (not_sentinel i JMP Hbc). discriminate. }
    assert (Hd : Om.dispatch rt vm interpret args from i c
                 = Ok (Break (target - 1)) c).
    { rewrite (om_dispatch_jmp rt vm interpret args from i c Hbc), Hp.
      do 2 f_equal. lia. }
    pose proof (om_turn_of_dispatch rt vm interpret f args from (target - 1) i
                  c c Hf Hne Hd) as Ht.
    replace (target - 1 + 1) with target in Ht by lia.
    split; [exact Hd|]. split; [exact Ht|].
    exact (om_turn_then rt vm interpret f args from target c (omTick c) Ht).
  - intros holds vl vr Hcmp Hr Hl l r popped.
    assert (Hne : instruction_eqb i END_SECTION_INSTRUCTION = false).
    { apply (not_sentinel i bc Hbc). intros ->. discriminate. }
    destruct (om_dispatch_compare rt vm interpret args from i bc holds c vl vr
                Hbc Hcmp Hr Hl) as (next & Htaken & Hnot & Hd).
    pose proof (om_turn_of_dispatch rt vm interpret f args from (next - 1) i c
                  popped Hf Hne Hd) as Ht.
    replace (next - 1 + 1) with next in Ht by lia.
    exists next. split; [|split; [exact Hnot|]].
    + intros Hh. rewrite (Htaken Hh), Hp. lia.
    + split; [exact Hd|]. split; [exact Ht|].
      exact (om_turn_then rt vm interpret f args from next c (omTick popped) Ht).
Qed.

Lemma resolved_jump_lands_on_its_label_witness :
  CompileJs.resolveLabel MoreSamples.placed (CompileJs.JsNumber 1) 0
  = CompileJs.Normal 1 /\
  Om.interpretLoop Samples.noObjects Samples.omVM
    (Om.interpret Samples.noObjects Samples.omVM 0) 2
    MoreSamples.compiled_skip 0 0
    (Samples.omStackOf [Om.VInteger 9; Om.VInteger 8])
  = Ok (Om.VInteger 8)
       (Om.mkContext
          (Om.mkStack 0 [Om.VInteger 9; Om.VInteger 8; Om.VInteger 0;
                         Om.VInteger 0; Om.VInteger 0; Om.VInteger 0;
                         Om.VInteger 0; Om.VInteger 0])
          1 tt) /\
  Om.interpretLoop Samples.noObjects Samples.omVM
    (Om.interpret Samples.noObjects Samples.omVM 0) 2
    MoreSamples.compiled_less 0 0
    (Samples.omStackOf [Om.VInteger 9; Om.VInteger 8; Om.VInteger 1; Om.VInteger 2])
  = Ok (Om.VInteger 8)
       (Om.mkContext
          (Om.mkStack 0 [Om.VInteger 9; Om.VInteger 8; Om.VInteger 1;
                         Om.VInteger 2; Om.VInteger 0; Om.VInteger 0;
                         Om.VInteger 0; Om.VInteger 0])
          1 tt) /\
  Om.interpretLoop Samples.noObjects Samples.omVM
    (Om.interpret Samples.noObjects Samples.omVM 0) 3
    MoreSamples.compiled_less 0 0
    (Samples.omStackOf [Om.VInteger 9; Om.VInteger 8; Om.VInteger 2; Om.VInteger 1])
  = Ok (Om.VInteger 9)
       (Om.mkContext
          (Om.mkStack 0 [Om.VInteger 9; Om.VInteger 8; Om.VInteger 2;
                         Om.VInteger 1; Om.VInteger 0; Om.VInteger 0;
                         Om.VInteger 0; Om.VInteger 0])
          2 tt).
Proof.
  split; [reflexivity|]. split; [|split].
  - destruct (resolved_jump_lands_on_its_label (fun _ => false)
                Samples.noObjects Samples.omVM
                (Om.interpret Samples.noObjects Samples.omVM 0)
                MoreSamples.placed (CompileJs.JsNumber 1) 0 1 "JMP" JMP
                MoreSamples.compiled_skip 0
                (Samples.omStackOf [Om.VInteger 9; Om.VInteger 8])
                eq_refl ltac:(lia) eq_refl eq_refl)
      as (target & Htarget & Hjmp & _).
    injection Htarget as <-.
    destruct (Hjmp eq_refl) as (_ & _ & _ & _ & Hret).
    etransitivity.
    + eapply (Hret 2%nat 0%nat 2 (Samples.op FUNCTION_RETURN 0)).
      * apply runs_here.
      * reflexivity.
      * reflexivity.
      * vm_compute. reflexivity.
      * lia.
    + reflexivity.
  - destruct (resolved_jump_lands_on_its_label (fun _ => false)
                Samples.noObjects Samples.omVM
                (Om.interpret Samples.noObjects Samples.omVM 0)
                MoreSamples.placed (CompileJs.JsNumber 1) 0 1
                "JMP_EQ_LT" JMP_EQ_LT
                MoreSamples.compiled_less 0
                (Samples.omStackOf
                   [Om.VInteger 9; Om.VInteger 8; Om.VInteger 1; Om.VInteger 2])
                eq_refl ltac:(lia) eq_refl eq_refl)
      as (target & Htarget & _ & Hcmp).
    injection Htarget as <-.
    destruct (Hcmp (fun l r => l < r) 1 2 eq_refl eq_refl eq_refl)
      as (next & Htaken & _ & _ & _ & _ & _ & Hret).
    assert (Hnext : next = 2) by (apply Htaken; vm_compute; reflexivity).
    subst next.
    etransitivity.
    + eapply (Hret 2%nat 0%nat 2 (Samples.op FUNCTION_RETURN 0)).
      * apply runs_here.
      * reflexivity.
      * reflexivity.
      * vm_compute. reflexivity.
      * lia.
    + reflexivity.
  - destruct (resolved_jump_lands_on_its_label (fun _ => false)
                Samples.noObjects Samples.omVM
                (Om.interpret Samples.noObjects Samples.omVM 0)
                MoreSamples.placed (CompileJs.JsNumber 1) 0 1
                "JMP_EQ_LT" JMP_EQ_LT
                MoreSamples.compiled_less 0
                (Samples.omStackOf
                   [Om.VInteger 9; Om.VInteger 8; Om.VInteger 2; Om.VInteger 1])
                eq_refl ltac:(lia) eq_refl eq_refl)
      as (target & Htarget & _ & Hcmp).
    destruct (Hcmp (fun l r => l < r) 2 1 eq_refl eq_refl eq_refl)
      as (next & _ & Hnot & _ & _ & _ & _ & Hret).
    assert (Hnext : next = 1) by (apply Hnot; vm_compute; discriminate).
    subst next.
    etransitivity.
    + eapply (Hret 3%nat 1%nat 2 (Samples.op FUNCTION_RETURN 0)).
      * eapply runs_turn; [vm_compute; reflexivity | apply runs_here].
      * reflexivity.
      * reflexivity.
      * vm_compute. reflexivity.
      * lia.
    + reflexivity.
Defined.
